(** * bdlm/db: DSN handling, prepared statements and query instrumentation

    A shallow embedding of the Go package [db] (config.go, the engine
    files config.*.go, statement.go and newrelic.go) and the properties of
    its specification that are checked against it.

    Go strings are byte strings: they are Rocq [string]s.  A [nil] map or
    pointer is [None].  Packages outside the repository (database/sql, time,
    the MySQL and Snowflake drivers, the Go runtime's map iteration and the
    string/rune conversions) are not part of the embedding: what the code
    asks of them is a field of [Runtime] or [Driver]. *)

From Stdlib Require Import ZArith Ascii String.
From stdpp Require Import gmap strings list fin_maps.

Local Open Scope Z_scope.

(** ** Package [strings] of the Go standard library, on byte strings *)

Module strings.

(** [len(s)] *)
Definition len (s : string) : Z := Z.of_nat (String.length s).

(** [strings.Index(s, substr)]: byte offset of the first instance, or -1. *)
Fixpoint Index (s substr : string) : Z :=
  if String.prefix substr s then 0
  else match s with
       | EmptyString => -1
       | String _ s' => let i := Index s' substr in
                        if i <? 0 then -1 else i + 1
       end.

(** [strings.Contains(s, substr)] is [Index(s, substr) >= 0]. *)
Definition Contains (s substr : string) : bool := 0 <=? Index s substr.

(** [s[i:]] and [s[:i]] for [0 <= i <= len(s)]. *)
Fixpoint from (i : nat) (s : string) : string :=
  match i, s with
  | S i', String _ s' => from i' s'
  | _, _ => s
  end.

Fixpoint upto (i : nat) (s : string) : string :=
  match i, s with
  | S i', String c s' => String c (upto i' s')
  | _, _ => EmptyString
  end.

(** [strings.Split(s, sep)] for a non-empty [sep] (every separator in the
    package is a one-byte literal).  [skip] counts the bytes of a
    separator that has been found and is still to be stepped over. *)
Fixpoint split_go (sep : string) (skip : nat) (s : string) : list string :=
  match s with
  | EmptyString => [EmptyString]
  | String c s' =>
      match skip with
      | S k => split_go sep k s'
      | O =>
          if String.prefix sep s
          then EmptyString :: split_go sep (String.length sep - 1) s'
          else match split_go sep 0 s' with
               | h :: t => String c h :: t
               | [] => [String c EmptyString]
               end
      end
  end.

Definition Split (s sep : string) : list string := split_go sep 0 s.

(** [strings.SplitN(s, sep, n)] for [n > 0] and a non-empty [sep]: at
    most [n] pieces, the last one the unsplit remainder. *)
Fixpoint SplitN (s sep : string) (n : nat) : list string :=
  match n with
  | O => []
  | S O => [s]
  | S n' =>
      let m := Index s sep in
      if m <? 0 then [s]
      else upto (Z.to_nat m) s
           :: SplitN (from (Z.to_nat m + String.length sep) s) sep n'
  end.

(** [strings.Trim(s, cutset)]: drop the leading and the trailing bytes
    that occur in [cutset]. *)
Definition in_cutset (cutset : string) (c : ascii) : bool :=
  bool_decide (c ∈ list_ascii_of_string cutset).

Fixpoint TrimLeft (s cutset : string) : string :=
  match s with
  | String c s' => if in_cutset cutset c then TrimLeft s' cutset else s
  | EmptyString => EmptyString
  end.

Fixpoint TrimRight (s cutset : string) : string :=
  match s with
  | String c s' =>
      match TrimRight s' cutset with
      | EmptyString => if in_cutset cutset c then EmptyString
                       else String c EmptyString
      | t => String c t
      end
  | EmptyString => EmptyString
  end.

Definition Trim (s cutset : string) : string :=
  TrimRight (TrimLeft s cutset) cutset.

(** [strings.ToLower] on ASCII text: the letters A to Z become a to z.
    This is the function [parseQueryFn] applies, to a match of [^\w+],
    which holds ASCII letters, digits and underscores only.  Outside
    ASCII Go's function does more (it also maps the Kelvin sign to k), so
    [ParseDSN], which lowers any text a DSN may hold, takes it from the
    [Runtime] below. *)
Definition lower (c : ascii) : ascii :=
  let n := nat_of_ascii c in
  if ((65 <=? n) && (n <=? 90))%nat then ascii_of_nat (n + 32) else c.

Fixpoint ToLower (s : string) : string :=
  match s with
  | EmptyString => EmptyString
  | String c s' => String (lower c) (ToLower s')
  end.

End strings.

(** ** Errors

    [fmt.Errorf] and [errors.Errorf] are kept as the format string with its
    operands; [Wrap] and [WrapE] are the two combinators of
    github.com/bdlm/errors; [Foreign] stands for an error value made by a
    package outside the repository. *)

Inductive error : Type :=
| Errorf (format : string) (operands : list string)
| Foreign (pkg : string) (code : nat)
| Wrap (e : error) (msg : string)
| WrapE (e : error) (cause : error).

Definition ErrDSNStringEmpty : error := Errorf "DSNString is empty" [].
Definition ErrInvalidTLSConfig : error :=
  Errorf "invalid value / unknown config name" [].

(** ** Configuration (config.go) *)

(** [*time.Location] and [*tls.Config], as far as the package tells them
    apart. *)
Inductive Location : Type :=
| UTC
| Zone (name : string).

Record tlsConfig : Type := { InsecureSkipVerify : bool }.

(** The fields of [Config] that hold data.  [Connector], [Cancel], [Ctx],
    [Driver] and [NewRelic] are handles of other packages that no parser or
    generator reads. *)
Record Config : Type := {
  DatabaseName : string;
  DriverName : string;
  DriverType : string;
  DSNData : option (gmap string string);
  DSNString : string;
  Loc : option Location;
  Params : option (gmap string string);
  TLS : option tlsConfig
}.

(** The two function-valued fields of [Config].  Both receive the [*Config]
    and may write to it, so both return the configuration they leave. *)
Record Hooks : Type := {
  DSNFn : option (Config → Config * string);
  DSNParser : option (Config → Config * option error)
}.

Definition set_DSNData (m : option (gmap string string)) (c : Config) : Config :=
  {| DatabaseName := DatabaseName c; DriverName := DriverName c;
     DriverType := DriverType c; DSNData := m; DSNString := DSNString c;
     Loc := Loc c; Params := Params c; TLS := TLS c |}.

Definition set_DSNString (s : string) (c : Config) : Config :=
  {| DatabaseName := DatabaseName c; DriverName := DriverName c;
     DriverType := DriverType c; DSNData := DSNData c; DSNString := s;
     Loc := Loc c; Params := Params c; TLS := TLS c |}.

Definition set_Loc (l : option Location) (c : Config) : Config :=
  {| DatabaseName := DatabaseName c; DriverName := DriverName c;
     DriverType := DriverType c; DSNData := DSNData c;
     DSNString := DSNString c; Loc := l; Params := Params c; TLS := TLS c |}.

Definition set_Params (m : option (gmap string string)) (c : Config) : Config :=
  {| DatabaseName := DatabaseName c; DriverName := DriverName c;
     DriverType := DriverType c; DSNData := DSNData c;
     DSNString := DSNString c; Loc := Loc c; Params := m; TLS := TLS c |}.

Definition set_TLS (t : option tlsConfig) (c : Config) : Config :=
  {| DatabaseName := DatabaseName c; DriverName := DriverName c;
     DriverType := DriverType c; DSNData := DSNData c;
     DSNString := DSNString c; Loc := Loc c; Params := Params c; TLS := t |}.

(** Reading [m[k]] gives the zero value for a missing key, also on a nil
    map; [len(m)] of a nil map is 0. *)
Definition get (m : option (gmap string string)) (k : string) : string :=
  default EmptyString (default ∅ m !! k).

(** [cfg.DSNData[k] = v].  Every writer below runs after the map has been
    made non-nil (writing to a nil map panics in Go). *)
Definition put_data (k v : string) (c : Config) : Config :=
  set_DSNData (Some (<[k := v]> (default ∅ (DSNData c)))) c.

Definition put_param (k v : string) (c : Config) : Config :=
  set_Params (Some (<[k := v]> (default ∅ (Params c)))) c.

(** A rune is its code point. *)
Definition rune : Type := Z.

(** What the package asks of the world around it. *)
Record mysqlConfig : Type := {
  my_Addr : string; my_DBName : string; my_Passwd : string; my_User : string;
  my_Params : option (gmap string string)
}.

Record snowflakeConfig : Type := {
  sf_User : string; sf_Password : string; sf_Account : string;
  sf_Database : string; sf_Schema : string; sf_Warehouse : string;
  sf_Role : string;
  sf_Params : gmap string string
}.

Record Runtime : Type := {
  (** the order in which [for k, v := range m] visits a map *)
  map_range : gmap string string → list (string * string);
  (** [time.LoadLocation] *)
  time_LoadLocation : string → Location + error;
  (** [mysql.ParseDSN] of github.com/go-sql-driver/mysql *)
  mysql_ParseDSN : string → mysqlConfig + error;
  (** [gosnowflake.ParseDSN]; its [Params] hold pointers that are never nil *)
  gosnowflake_ParseDSN : string → snowflakeConfig + error;
  (** [[]rune(s)] and [string(runes)] *)
  runes_of_string : string → list rune;
  string_of_runes : list rune → string;
  (** [strings.ToLower] on any text *)
  strings_ToLower : string → string
}.

(** Go promises only that a [range] visits every entry once. *)
Definition range_visits_each_entry_once (rt : Runtime) : Prop :=
  ∀ m, map_range rt m ≡ₚ map_to_list m.

(** [var tlsConfigRegister = map[string]*tls.Config{}]; nothing in the
    package adds to it. *)
Definition tlsConfigRegister : gmap string tlsConfig := ∅.

(** *** config.mysql.go *)

Definition mysqlGenerateDSN (rt : Runtime) (cfg : Config) : Config :=
  let cfg := match default ∅ (DSNData cfg) !! "port" with
             | Some _ => cfg
             | None => put_data "port" "3306" cfg
             end in
  let cfg := set_DSNString
               (get (DSNData cfg) "user" +:+ ":" +:+ get (DSNData cfg) "pass"
                +:+ "@tcp(" +:+ get (DSNData cfg) "host" +:+ ":"
                +:+ get (DSNData cfg) "port" +:+ ")/"
                +:+ get (DSNData cfg) "name") cfg in
  let cfg := if (0 <? Z.of_nat (size (default ∅ (Params cfg))))
             then
               let cfg := set_DSNString (DSNString cfg +:+ "?") cfg in
               foldl (λ cfg kv,
                        set_DSNString
                          (DSNString cfg +:+ (kv.1 +:+ "=" +:+ kv.2 +:+ "&")) cfg)
                     cfg (map_range rt (default ∅ (Params cfg)))
             else cfg in
  set_DSNString (strings.Trim (DSNString cfg) "&") cfg.

Definition mysqlParseDSN (rt : Runtime) (cfg : Config) : Config * option error :=
  match mysql_ParseDSN rt (DSNString cfg) with
  | inr err => (cfg, Some err)
  | inl parsedCfg =>
      let cfg := put_data "host" (my_Addr parsedCfg) cfg in
      let cfg := put_data "name" (my_DBName parsedCfg) cfg in
      let cfg := put_data "pass" (my_Passwd parsedCfg) cfg in
      let cfg := put_data "user" (my_User parsedCfg) cfg in
      (set_Params (my_Params parsedCfg) cfg, None)
  end.

(** *** The Oracle adapter *)

Definition oracleGenerateDSN (cfg : Config) : Config :=
  set_DSNString (get (DSNData cfg) "user" +:+ "/" +:+ get (DSNData cfg) "pass"
                 +:+ "@" +:+ get (DSNData cfg) "host") cfg.

(** [p[i]] on a slice; the guard of [oracleParseDSN] keeps both [p1] and
    [p0] at two elements or more, so the default is never taken. *)
Definition at_index (p : list string) (i : nat) : string :=
  default EmptyString (p !! i).

Definition oracleParseDSN (cfg : Config) : Config * option error :=
  if strings.Contains (DSNString cfg) "/"
     && strings.Contains (DSNString cfg) "@"
     && (strings.Index (DSNString cfg) "/" <? strings.Index (DSNString cfg) "@")
  then
    let p1 := strings.Split (DSNString cfg) "@" in
    let p0 := strings.Split (at_index p1 0) "/" in
    let cfg := put_data "user" (at_index p0 0) cfg in
    let cfg := put_data "pass" (at_index p0 1) cfg in
    let cfg := put_data "host" (at_index p1 1) cfg in
    (cfg, None)
  else (cfg, Some (Errorf "invalid Oracle DSN string" [])).

(** ** Package [regexp] of the Go standard library

    The package's patterns are written as syntax trees and run by a
    backtracking matcher, which finds the match Go's leftmost-first
    semantics picks: alternatives in order, greedy repetition longest
    first, lazy repetition shortest first.  Matching is on bytes; every
    pattern of the package names ASCII characters only. *)

Module regexp.

Inductive regex : Type :=
| Eps
| Byte (p : ascii → bool)
| Cat (a b : regex)
| Alt (a b : regex)
| Star (greedy : bool) (a : regex)
| Cap (n : nat) (a : regex)
| BeginText
| EndText
| EndLine.

(** Capture positions, the most recent first. *)
Definition caps : Type := list (nat * (nat * nat)).

(** The loop of a repetition of [a], whose matcher is [ma]: at most [n]
    more iterations, each of which has to consume input, and then [k];
    greedy prefers one more iteration, lazy prefers to stop. *)
Definition star_loop {R : Type} (greedy : bool)
    (ma : nat → string → caps → (nat → string → caps → option R) → option R)
    (k : nat → string → caps → option R)
    : nat → nat → string → caps → option R :=
  fix loop (n : nat) (pos : nat) (s : string) (cs : caps) : option R :=
    match n with
    | O => k pos s cs
    | S n' =>
        let more :=
          ma pos s cs
            (λ pos' s' cs',
               if (pos <? pos')%nat then loop n' pos' s' cs' else None) in
        if greedy
        then match more with Some x => Some x | None => k pos s cs end
        else match k pos s cs with Some x => Some x | None => more end
    end.

(** [run r pos s cs k]: match [r] at offset [pos], where [s] is the text
    from [pos] on, then go on with [k]; [None] is a failure that the
    caller backtracks over.  A repetition cannot iterate more often than
    there are bytes left. *)
Fixpoint run {R : Type} (r : regex) (pos : nat) (s : string) (cs : caps)
    (k : nat → string → caps → option R) : option R :=
  match r with
  | Eps => k pos s cs
  | Byte p =>
      match s with
      | String c s' => if p c then k (S pos) s' cs else None
      | EmptyString => None
      end
  | Cat a b => run a pos s cs (λ pos' s' cs', run b pos' s' cs' k)
  | Alt a b =>
      match run a pos s cs k with
      | Some x => Some x
      | None => run b pos s cs k
      end
  | Star greedy a => star_loop greedy (run a) k (String.length s) pos s cs
  | Cap n a => run a pos s cs (λ pos' s' cs', k pos' s' ((n, (pos, pos')) :: cs'))
  | BeginText => if (pos =? 0)%nat then k pos s cs else None
  | EndText => match s with EmptyString => k pos s cs | _ => None end
  | EndLine =>
      match s with
      | EmptyString => k pos s cs
      | String c _ => if Ascii.eqb c "010" then k pos s cs else None
      end
  end.

(** The leftmost match at or after [pos]: its two ends and its captures. *)
Fixpoint find_from (r : regex) (pos : nat) (s : string)
    : option (nat * nat * caps) :=
  match run r pos s [] (λ e _ cs, Some (e, cs)) with
  | Some (e, cs) => Some (pos, e, cs)
  | None =>
      match s with
      | EmptyString => None
      | String _ s' => find_from r (S pos) s'
      end
  end.

Fixpoint NumSubexp (r : regex) : nat :=
  match r with
  | Cat a b | Alt a b => Nat.max (NumSubexp a) (NumSubexp b)
  | Star _ a => NumSubexp a
  | Cap n a => Nat.max n (NumSubexp a)
  | _ => 0%nat
  end.

Definition slice (src : string) (b e : nat) : string :=
  strings.upto (e - b) (strings.from b src).

Definition group (src : string) (cs : caps) (n : nat) : string :=
  match list_find (λ c, c.1 = n) cs with
  | Some (_, (_, (b, e))) => slice src b e
  | None => EmptyString
  end.

(** [re.FindStringSubmatch(src)]: the match and its groups, a group that
    took no part being the empty string; nil when there is no match. *)
Definition FindStringSubmatch (r : regex) (src : string) : list string :=
  match find_from r 0 src with
  | Some (b, e, cs) => slice src b e :: (group src cs <$> seq 1 (NumSubexp r))
  | None => []
  end.

(** [re.FindString(src)]: the match, the empty string when there is none. *)
Definition FindString (r : regex) (src : string) : string :=
  match find_from r 0 src with
  | Some (b, e, _) => slice src b e
  | None => EmptyString
  end.

(** [re.ReplaceAllString(src, repl)] for a [repl] without [$]: the loop
    of [Regexp.replaceAll].  [tailL] is [src[lastMatchEnd:]] and [tailP]
    is [src[searchPos:]]; the search never stands still, so [fuel] above
    [len(src) + 1] does not run out. *)
Fixpoint replaceAll (fuel : nat) (r : regex) (repl : string) (len : nat)
    (lastMatchEnd : nat) (tailL : string) (searchPos : nat) (tailP : string)
    : string :=
  match fuel with
  | O => tailL
  | S fuel' =>
      match find_from r searchPos tailP with
      | None => tailL
      | Some (a0, a1, _) =>
          let unmatched := strings.upto (a0 - lastMatchEnd) tailL in
          let inserted :=
            if (lastMatchEnd <? a1)%nat || (a0 =? 0)%nat then repl
            else EmptyString in
          let tailL' := strings.from (a1 - lastMatchEnd) tailL in
          let width := match tailP with EmptyString => 0 | _ => 1 end%nat in
          let searchPos' :=
            if (a1 <? searchPos + width)%nat then (searchPos + width)%nat
            else if (a1 <? searchPos + 1)%nat then (searchPos + 1)%nat
            else a1 in
          let tailP' := strings.from (searchPos' - searchPos) tailP in
          unmatched +:+ inserted +:+
            (if (searchPos' <=? len)%nat
             then replaceAll fuel' r repl len a1 tailL' searchPos' tailP'
             else tailL')
      end
  end.

Definition ReplaceAllString (r : regex) (src repl : string) : string :=
  replaceAll (String.length src + 2) r repl (String.length src) 0 src 0 src.

(** *** Pattern syntax *)

Definition one_of (set : string) (c : ascii) : bool :=
  bool_decide (c ∈ list_ascii_of_string set).

(** [\s] is [[\t\n\f\r ]] and [\w] is [[0-9A-Za-z_]]. *)
Definition space (c : ascii) : bool :=
  bool_decide (nat_of_ascii c ∈ [9; 10; 12; 13; 32]%nat).

Definition word (c : ascii) : bool :=
  let n := nat_of_ascii c in
  ((48 <=? n) && (n <=? 57) || (65 <=? n) && (n <=? 90)
   || (97 <=? n) && (n <=? 122) || (n =? 95))%nat.

(** [.] with and without the [s] flag. *)
Definition any : regex := Byte (λ _, true).
Definition dot : regex := Byte (λ c, negb (Ascii.eqb c "010")).

Definition Plus (greedy : bool) (a : regex) : regex := Cat a (Star greedy a).
Definition Quest (a : regex) : regex := Alt a Eps.

(** A literal, and a literal under the [i] flag: the ASCII letters are
    folded (Go folds two runes outside ASCII as well, the Kelvin sign to k
    and the long s to s). *)
Fixpoint Lit (s : string) : regex :=
  match s with
  | EmptyString => Eps
  | String c EmptyString => Byte (Ascii.eqb c)
  | String c s' => Cat (Byte (Ascii.eqb c)) (Lit s')
  end.

Fixpoint LitI (s : string) : regex :=
  match s with
  | EmptyString => Eps
  | String c EmptyString => Byte (λ x, Ascii.eqb (strings.lower x) (strings.lower c))
  | String c s' =>
      Cat (Byte (λ x, Ascii.eqb (strings.lower x) (strings.lower c))) (LitI s')
  end.

Fixpoint Seq (rs : list regex) : regex :=
  match rs with
  | [] => Eps
  | [r] => r
  | r :: rs' => Cat r (Seq rs')
  end.

Fixpoint Any_of (rs : list regex) : regex :=
  match rs with
  | [] => Eps
  | [r] => r
  | r :: rs' => Alt r (Any_of rs')
  end.

End regexp.

(** *** config.postgres.go: the libpq-style tokenizer

    The scanner [{s, i}] is kept as the runes not yet read, [s.s[s.i:]]. *)

Definition rune_eq : rune := 61.        (* '=' *)
Definition rune_quote : rune := 39.     (* '\'' *)
Definition rune_backslash : rune := 92. (* '\\' *)

(** [unicode.IsSpace]: the Latin-1 spaces and the White_Space property. *)
Definition IsSpace (r : rune) : bool :=
  (9 <=? r) && (r <=? 13) || (r =? 32) || (r =? 133) || (r =? 160)
  || (r =? 5760) || (8192 <=? r) && (r <=? 8202) || (r =? 8232) || (r =? 8233)
  || (r =? 8239) || (r =? 8287) || (r =? 12288).

Definition pqscanner : Type := list rune.

(** [s.Next()]: the next rune, or [0, false] at the end of the text. *)
Definition Next (s : pqscanner) : rune * bool * pqscanner :=
  match s with
  | [] => (0, false, [])
  | r :: s' => (r, true, s')
  end.

(** [s.SkipSpaces()]: the next rune that is no space, or [0, false]. *)
Fixpoint SkipSpaces (s : pqscanner) : rune * bool * pqscanner :=
  match s with
  | [] => (0, false, [])
  | r :: s' => if IsSpace r then SkipSpaces s' else (r, true, s')
  end.

(** The loop that scans the key, entered with the rune [r] just read:
    [for !unicode.IsSpace(r) && r != '=' { ... }]. *)
Fixpoint scanKey (keyRunes : list rune) (r : rune) (s : pqscanner)
    : list rune * (rune * bool * pqscanner) :=
  if negb (IsSpace r) && negb (r =? rune_eq) then
    match s with
    | [] => (keyRunes ++ [r], (0, false, []))
    | r' :: s' => scanKey (keyRunes ++ [r]) r' s'
    end
  else (keyRunes, (r, true, s)).

(** The loop over an unquoted value, [for !unicode.IsSpace(r) { ... }]:
    the value, or the error of a backslash that ends the text. *)
Fixpoint scanValue (valRunes : list rune) (r : rune) (s : pqscanner)
    : error + (list rune * pqscanner) :=
  if negb (IsSpace r) then
    if r =? rune_backslash then
      match s with
      | [] => inl (Errorf "missing character after backslash" [])
      | r1 :: s1 =>
          match s1 with
          | [] => inr (valRunes ++ [r1], [])
          | r2 :: s2 => scanValue (valRunes ++ [r1]) r2 s2
          end
      end
    else
      match s with
      | [] => inr (valRunes ++ [r], [])
      | r' :: s' => scanValue (valRunes ++ [r]) r' s'
      end
  else inr (valRunes, s).

(** The loop labelled [quote], over a value in single quotes.  A backslash
    takes the next rune as it is; at the end of the text that rune is 0. *)
Fixpoint scanQuoted (valRunes : list rune) (s : pqscanner)
    : error + (list rune * pqscanner) :=
  match s with
  | [] => inl (Errorf "unterminated quoted string literal in connection string" [])
  | r :: s' =>
      if r =? rune_quote then inr (valRunes, s')
      else if r =? rune_backslash then
        match s' with
        | [] => inl (Errorf "unterminated quoted string literal in connection string" [])
        | r1 :: s1 => scanQuoted (valRunes ++ [r1]) s1
        end
      else scanQuoted (valRunes ++ [r]) s'
  end.

(** One turn of the outer [for] of [pqParseDSN]. *)
Inductive pqTurn : Type :=
| TurnBreak                         (* end of the text: break *)
| TurnFail (err : error)            (* return pqvalues{}, err *)
| TurnLast (keyRunes : list rune)   (* o[key] = empty string, and break *)
| TurnPair (keyRunes valRunes : list rune) (s : pqscanner).

(** The double quote, for the literals that hold one. *)
Definition dq : string := String "034" EmptyString.

(** The error of a key without its equals sign.  The raw literal of the
    source reads: missing, the equals sign in double quotes, after %q in
    connection info string, and then one more double quote. *)
Definition missing_eq (key : string) : error :=
  Errorf ("missing " +:+ dq +:+ "=" +:+ dq
          +:+ " after %q in connection info string" +:+ dq) [key].

Definition pqTurnOf (rt : Runtime) (s : pqscanner) : pqTurn :=
  let '(r, ok, s) := SkipSpaces s in
  if negb ok then TurnBreak
  else
    (* Scan the key *)
    let '(keyRunes, (r, ok, s)) := scanKey [] r s in
    (* Skip any whitespace if we're not at the = yet *)
    let '(r, ok, s) := if negb (r =? rune_eq) then SkipSpaces s else (r, ok, s) in
    (* The current character should be = *)
    if negb (r =? rune_eq) || negb ok
    then TurnFail (missing_eq (string_of_runes rt keyRunes))
    else
      (* Skip any whitespace after the = *)
      let '(r, ok, s) := SkipSpaces s in
      if negb ok then TurnLast keyRunes
      else
        match (if negb (r =? rune_quote) then scanValue [] r s
               else scanQuoted [] s) with
        | inl err => TurnFail err
        | inr (valRunes, s) => TurnPair keyRunes valRunes s
        end.

(** The outer loop; [None] only when [fuel] runs out, which
    [pqLoop_enough_fuel] excludes for the fuel [pqParseDSN] gives. *)
Fixpoint pqLoop (rt : Runtime) (fuel : nat) (o : gmap string string)
    (s : pqscanner) : option (gmap string string * option error) :=
  match fuel with
  | O => None
  | S fuel' =>
      match pqTurnOf rt s with
      | TurnBreak => Some (o, None)
      | TurnFail err => Some (∅, Some err)
      | TurnLast keyRunes =>
          Some (<[string_of_runes rt keyRunes := EmptyString]> o, None)
      | TurnPair keyRunes valRunes s' =>
          pqLoop rt fuel'
            (<[string_of_runes rt keyRunes := string_of_runes rt valRunes]> o) s'
      end
  end.

Definition newPqScanner (rt : Runtime) (s : string) : pqscanner :=
  runes_of_string rt s.

Definition pqParseDSN (rt : Runtime) (dsn : string)
    : gmap string string * option error :=
  let s := newPqScanner rt dsn in
  default (∅, None) (pqLoop rt (S (length s)) ∅ s).

Definition pqGenerateDSN (rt : Runtime) (cfg : Config) : Config :=
  let cfg := set_DSNString
               ("user=" +:+ get (DSNData cfg) "user"
                +:+ " password=" +:+ get (DSNData cfg) "pass"
                +:+ " dbname=" +:+ get (DSNData cfg) "name"
                +:+ " host=" +:+ get (DSNData cfg) "host") cfg in
  if (0 <? Z.of_nat (size (default ∅ (Params cfg))))
  then foldl (λ cfg kv,
                set_DSNString (DSNString cfg +:+ (" " +:+ kv.1 +:+ "=" +:+ kv.2)) cfg)
             cfg (map_range rt (default ∅ (Params cfg)))
  else cfg.

Definition postgresParseDSN (rt : Runtime) (cfg : Config) : Config * option error :=
  match pqParseDSN rt (DSNString cfg) with
  | (_, Some err) => (cfg, Some err)
  | (parsedCfg, None) =>
      let cfg := put_data "host" (get (Some parsedCfg) "host") cfg in
      let cfg := put_data "name" (get (Some parsedCfg) "dbname") cfg in
      let cfg := put_data "pass" (get (Some parsedCfg) "password") cfg in
      let cfg := put_data "user" (get (Some parsedCfg) "user") cfg in
      (foldl (λ cfg kv,
                if negb (String.eqb kv.1 "host") && negb (String.eqb kv.1 "dbname")
                   && negb (String.eqb kv.1 "password") && negb (String.eqb kv.1 "user")
                then put_param kv.1 kv.2 cfg else cfg)
             cfg (map_range rt parsedCfg), None)
  end.

(** *** The Snowflake adapter *)

Definition snowflakeGenerateDSN (rt : Runtime) (cfg : Config) : Config :=
  let cfg := set_DSNString
               (get (DSNData cfg) "user" +:+ ":" +:+ get (DSNData cfg) "pass"
                +:+ "@" +:+ get (DSNData cfg) "account"
                +:+ "/" +:+ get (DSNData cfg) "db"
                +:+ "/" +:+ get (DSNData cfg) "schema"
                +:+ "?warehouse=" +:+ get (DSNData cfg) "warehouse"
                +:+ "&role=" +:+ get (DSNData cfg) "role") cfg in
  if (0 <? Z.of_nat (size (default ∅ (Params cfg))))
  then foldl (λ cfg kv,
                set_DSNString (DSNString cfg +:+ ("&" +:+ kv.1 +:+ "=" +:+ kv.2)) cfg)
             cfg (map_range rt (default ∅ (Params cfg)))
  else cfg.

Definition snowflakeParseDSN (rt : Runtime) (cfg : Config) : Config * option error :=
  match gosnowflake_ParseDSN rt (DSNString cfg) with
  | inr err => (cfg, Some err)
  | inl parsedCfg =>
      let cfg := put_data "user" (sf_User parsedCfg) cfg in
      let cfg := put_data "pass" (sf_Password parsedCfg) cfg in
      let cfg := put_data "account" (sf_Account parsedCfg) cfg in
      let cfg := put_data "db" (sf_Database parsedCfg) cfg in
      let cfg := put_data "schema" (sf_Schema parsedCfg) cfg in
      let cfg := put_data "warehouse" (sf_Warehouse parsedCfg) cfg in
      let cfg := put_data "role" (sf_Role parsedCfg) cfg in
      (foldl (λ cfg kv, put_param kv.1 kv.2 cfg)
             cfg (map_range rt (sf_Params parsedCfg)), None)
  end.

(** *** config.go: [ParseDSN] and [DSN] *)

(** The text of [dsnPattern], as the source concatenates it (its first
    line is there twice), and the pattern as a tree. *)
Definition dsnPattern_text : string :=
  "^(?:(?P<user>.*?)(?::(?P<passwd>.*))?@)?"
  +:+ "^(?:(?P<user>.*?)(?::(?P<passwd>.*))?@)?"
  +:+ "(?:(?P<net>[^\(]*)(?:\((?P<addr>[^\)]*)\))?)?"
  +:+ "\/(?P<dbname>.*?)"
  +:+ "(?:\?(?P<params>[^\?]*))?$".

Definition dsnPattern : regexp.regex :=
  let userinfo (user passwd : nat) :=
    regexp.Seq [regexp.BeginText;
                regexp.Quest (regexp.Seq [
                  regexp.Cap user (regexp.Star false regexp.dot);
                  regexp.Quest (regexp.Cat (regexp.Lit ":")
                                  (regexp.Cap passwd (regexp.Star true regexp.dot)));
                  regexp.Lit "@"])] in
  regexp.Seq [
    userinfo 1%nat 2%nat;
    userinfo 3%nat 4%nat;
    regexp.Quest (regexp.Seq [
      regexp.Cap 5 (regexp.Star true (regexp.Byte (λ c, negb (regexp.one_of "(" c))));
      regexp.Quest (regexp.Seq [
        regexp.Lit "(";
        regexp.Cap 6 (regexp.Star true (regexp.Byte (λ c, negb (regexp.one_of ")" c))));
        regexp.Lit ")"])]);
    regexp.Lit "/";
    regexp.Cap 7 (regexp.Star false regexp.dot);
    regexp.Quest (regexp.Seq [
      regexp.Lit "?";
      regexp.Cap 8 (regexp.Star true (regexp.Byte (λ c, negb (regexp.one_of "?" c))))]);
    regexp.EndText].

(** [dsnPattern.SubexpNames()] *)
Definition dsnPattern_names : list string :=
  [""; "user"; "passwd"; "user"; "passwd"; "net"; "addr"; "dbname"; "params"].

Definition readBool (input : string) : bool * bool :=
  if bool_decide (input ∈ ["1"; "true"; "TRUE"; "True"]) then (true, true)
  else if bool_decide (input ∈ ["0"; "false"; "FALSE"; "False"]) then (false, true)
  else (false, false).

(** Where a loop of [ParseDSN] stands after a step: it has returned from
    the function, or it goes on; both with the configuration and the
    function's variable [err]. *)
Inductive flow : Type :=
| Return (cfg : Config) (err : option error)
| Go (cfg : Config) (err : option error).

(** The body of [for _, v := range strings.Split(match, "&")]. *)
Definition parseParam (rt : Runtime) (v : string) (cfg : Config)
    (err : option error) : flow :=
  let param := strings.SplitN v "=" 2 in
  if negb (length param =? 2)%nat then Go cfg err
  else
    let value := at_index param 1 in
    if String.eqb (at_index param 0) "loc" then
      match time_LoadLocation rt value with
      | inl l => Go (set_Loc (Some l) cfg) None
      | inr e => Return (set_Loc None cfg) (Some e)
      end
    else if String.eqb (at_index param 0) "tls" then
      let '(boolValue, isBool) := readBool value in
      if isBool then
        if boolValue
        then Go (set_TLS (Some {| InsecureSkipVerify := false |}) cfg) err
        else Go cfg err
      else if String.eqb (strings_ToLower rt value) "skip-verify"
      then Go (set_TLS (Some {| InsecureSkipVerify := true |}) cfg) err
      else match tlsConfigRegister !! value with
           | Some tlsConfig => Go (set_TLS (Some tlsConfig) cfg) err
           | None => Go cfg (Some ErrInvalidTLSConfig)
           end
    else Go (put_param (at_index param 0) value cfg) err.

Fixpoint parseParams (rt : Runtime) (vs : list string) (cfg : Config)
    (err : option error) : flow :=
  match vs with
  | [] => Go cfg err
  | v :: vs' =>
      match parseParam rt v cfg err with
      | Return cfg err => Return cfg err
      | Go cfg err => parseParams rt vs' cfg err
      end
  end.

(** The body of [for i, match := range matches], on [names[i]] and [match]. *)
Definition parseMatch (rt : Runtime) (name match_ : string) (cfg : Config)
    (err : option error) : flow :=
  if String.eqb name "user" then Go (put_data "user" match_ cfg) err
  else if bool_decide (name ∈ ["pass"; "passwd"; "password"])
  then Go (put_data "pass" match_ cfg) err
  else if String.eqb name "net" then Go (put_data "net" match_ cfg) err
  else if String.eqb name "addr" then Go (put_data "addr" match_ cfg) err
  else if bool_decide (name ∈ ["name"; "dbname"])
  then Go (put_data "name" match_ cfg) err
  else if String.eqb name "params"
  then parseParams rt (strings.Split match_ "&") cfg err
  else Go cfg err.

Fixpoint parseMatches (rt : Runtime) (named : list (string * string))
    (cfg : Config) (err : option error) : flow :=
  match named with
  | [] => Go cfg err
  | (name, match_) :: named' =>
      match parseMatch rt name match_ cfg err with
      | Return cfg err => Return cfg err
      | Go cfg err => parseMatches rt named' cfg err
      end
  end.

Definition ParseDSN (rt : Runtime) (h : Hooks) (cfg : Config)
    : Config * option error :=
  let cfg := match DSNData cfg with
             | None => set_DSNData (Some ∅) cfg
             | Some _ => cfg
             end in
  let cfg := match Params cfg with
             | None => set_Params (Some ∅) cfg
             | Some _ => cfg
             end in
  if String.eqb EmptyString (DSNString cfg) then (cfg, Some ErrDSNStringEmpty)
  else
    match DSNParser h with
    | Some parser => parser cfg
    | None =>
        if String.eqb (DriverType cfg) "mysql" then mysqlParseDSN rt cfg
        else if String.eqb (DriverType cfg) "oracle" then oracleParseDSN cfg
        else if String.eqb (DriverType cfg) "postgres" then postgresParseDSN rt cfg
        else if String.eqb (DriverType cfg) "snowflake" then snowflakeParseDSN rt cfg
        else
          let matches := regexp.FindStringSubmatch dsnPattern (DSNString cfg) in
          match parseMatches rt (zip dsnPattern_names matches) cfg None with
          | Return cfg err => (cfg, err)
          | Go cfg err =>
              (* Set default location if not set *)
              let cfg := match Loc cfg with
                         | None => set_Loc (Some UTC) cfg
                         | Some _ => cfg
                         end in
              (cfg, err)
          end
    end.

Definition generateDSN (rt : Runtime) (h : Hooks) (cfg : Config) : Config * bool :=
  let cfg := match DSNData cfg with
             | None => set_DSNData (Some ∅) cfg
             | Some _ => cfg
             end in
  match DSNFn h with
  | Some fn =>
      let '(cfg, dsn) := fn cfg in
      let cfg := set_DSNString dsn cfg in
      (cfg, String.eqb EmptyString (DSNString cfg))
  | None =>
      if String.eqb (DriverType cfg) "mysql" then (mysqlGenerateDSN rt cfg, true)
      else if String.eqb (DriverType cfg) "oracle" then (oracleGenerateDSN cfg, true)
      else if String.eqb (DriverType cfg) "postgres" then (pqGenerateDSN rt cfg, true)
      else if String.eqb (DriverType cfg) "snowflake"
      then (snowflakeGenerateDSN rt cfg, true)
      else (cfg, false)
  end.

(** [cfg.DSN()]: the configuration it leaves and the string it returns. *)
Definition DSN (rt : Runtime) (h : Hooks) (cfg : Config) : Config * string :=
  let cfg := if String.eqb EmptyString (DSNString cfg)
             then (generateDSN rt h cfg).1 else cfg in
  (cfg, DSNString cfg).

(** ** Prepared statements (statement.go)

    The statement talks to database/sql and to the telemetry agent.  Each
    such call is recorded in a history, and what it returns is up to the
    [Driver], which sees the history so far. *)

(** Values passed as [interface{}]; [ANamed] is a [sql.NamedArg]. *)
Inductive any : Type :=
| ANil
| AInt (z : Z)
| AString (s : string)
| ANamed (name : string) (value : any).

Record NamedArg : Type := { Name : string; Value : any }.

(** [sql.Named(name, value)] *)
Definition Named (name : string) (value : any) : NamedArg :=
  {| Name := name; Value := value |}.

(** A [NamedArg] stored in an [interface{}]. *)
Definition boxed (a : NamedArg) : any := ANamed (Name a) (Value a).

(** Handles of database/sql and of the agent. *)
Definition handle : Type := nat.

Inductive call : Type :=
| RowsClose (rows : handle)
| RowsErr (rows : handle)
| TxCommit (txn : handle)
| TxRollback (txn : handle)
| StmtClose (stmt : handle)
| StmtExecContext (stmt ctx : handle) (args : list any)
| StmtQueryContext (stmt ctx : handle) (args : list any)
| StmtQueryRowContext (stmt ctx : handle) (args : list any)
| NrEnd (nrtxn : handle).

Record Driver : Type := {
  rows_Close : list call → handle → option error;
  rows_Err : list call → handle → option error;
  tx_Commit : list call → handle → option error;
  tx_Rollback : list call → handle → option error;
  stmt_Close : list call → handle → option error;
  stmt_ExecContext : list call → handle → handle → list any
                     → option handle * option error;
  stmt_QueryContext : list call → handle → handle → list any
                      → option handle * option error;
  stmt_QueryRowContext : list call → handle → handle → list any → option handle
}.

(** Computations that make calls: from the history to a result and the
    history extended. *)
Definition M (A : Type) : Type := list call → A * list call.

#[global] Instance M_ret : MRet M := λ A x h, (x, h).
#[global] Instance M_bind : MBind M :=
  λ A B f m h, let '(x, h') := m h in f x h'.

(** Make the call [c]; [reply] is the driver's answer given the history. *)
Definition perform {A : Type} (c : call) (reply : list call → A) : M A :=
  λ h, (reply h, h ++ [c]).

Record Statement : Type := {
  binds : list NamedArg;
  ctx : handle;
  db : handle;
  lastErr : option error;
  nrtxn : option handle;
  result : option handle;
  rows : option handle;
  sql : string;
  stmt : handle;
  txn : handle
}.

Definition set_binds (b : list NamedArg) (st : Statement) : Statement :=
  {| binds := b; ctx := ctx st; db := db st; lastErr := lastErr st;
     nrtxn := nrtxn st; result := result st; rows := rows st; sql := sql st;
     stmt := stmt st; txn := txn st |}.

Definition set_lastErr (e : option error) (st : Statement) : Statement :=
  {| binds := binds st; ctx := ctx st; db := db st; lastErr := e;
     nrtxn := nrtxn st; result := result st; rows := rows st; sql := sql st;
     stmt := stmt st; txn := txn st |}.

Definition set_result (r : option handle) (st : Statement) : Statement :=
  {| binds := binds st; ctx := ctx st; db := db st; lastErr := lastErr st;
     nrtxn := nrtxn st; result := r; rows := rows st; sql := sql st;
     stmt := stmt st; txn := txn st |}.

Definition set_rows (r : option handle) (st : Statement) : Statement :=
  {| binds := binds st; ctx := ctx st; db := db st; lastErr := lastErr st;
     nrtxn := nrtxn st; result := result st; rows := r; sql := sql st;
     stmt := stmt st; txn := txn st |}.

(** [if nil != err { statement.lastErr = err }] *)
Definition note (err : option error) (st : Statement) : Statement :=
  match err with
  | Some e => set_lastErr (Some e) st
  | None => st
  end.

(** [if nil != err { errList = append(errList, errors.Wrap(err, msg)) }] *)
Definition collect (errList : list error) (err : option error) (msg : string)
    : list error :=
  match err with
  | Some e => errList ++ [Wrap e msg]
  | None => errList
  end.

Section statement.

Variable d : Driver.

Definition Bind (key : string) (value : any) (st : Statement) : Statement :=
  set_binds (binds st ++ [Named key value]) st.

Definition Close (st : Statement) : M (Statement * option error) :=
  let errList := [] in
  '(err, errList) ←
    match rows st with
    | Some r =>
        err ← perform (RowsClose r) (λ h, rows_Close d h r);
        mret (err, collect errList err "error closing rows")
    | None => mret (None, errList)
    end;
  err ← perform (TxRollback (txn st)) (λ h, tx_Rollback d h (txn st));
  let errList := collect errList err "error rolling back transaction" in
  err ← perform (StmtClose (stmt st)) (λ h, stmt_Close d h (stmt st));
  let errList := collect errList err "error closing statement" in
  let '(st, err) :=
    match errList with
    | e0 :: es =>
        let err := foldl WrapE e0 es in
        (set_lastErr (Some err) st, Some err)
    | [] => (st, err)
    end in
  _ ← match nrtxn st with
       | Some n => perform (NrEnd n) (λ _, ())
       | None => mret ()
       end;
  mret (st, err).

Definition Commit (st : Statement) : M (Statement * option error) :=
  _ ← perform (TxCommit (txn st)) (λ h, tx_Commit d h (txn st));
  mret (st, None).

Definition Err (st : Statement) : M (Statement * option error) :=
  match rows st with
  | None => mret (st, None)
  | Some r =>
      err ← perform (RowsErr r) (λ h, rows_Err d h r);
      mret (note err st, err)
  end.

(** [for _, bind := range statement.binds { binds = append(binds, bind) }]
    and then [binds = append(binds, args...)]. *)
Definition gather (st : Statement) (args : list any) : list any :=
  foldl (λ binds bind, binds ++ [boxed bind]) [] (binds st) ++ args.

Definition ExecContext (ctx : handle) (args : list any) (st : Statement)
    : M (Statement * (option handle * option error)) :=
  let binds := gather st args in
  '(result, err) ← perform (StmtExecContext (stmt st) ctx binds)
                     (λ h, stmt_ExecContext d h (stmt st) ctx binds);
  let st := set_result result st in
  let st := note err st in
  let st := set_binds [] st in
  mret (st, (result, err)).

Definition Exec (args : list any) (st : Statement)
    : M (Statement * (option handle * option error)) :=
  ExecContext (ctx st) args st.

Definition LastErr (st : Statement) : option error := lastErr st.

Definition QueryContext (ctx : handle) (args : list any) (st : Statement)
    : M (Statement * (option handle * option error)) :=
  let binds := gather st args in
  '(rows, err) ← perform (StmtQueryContext (stmt st) ctx binds)
                   (λ h, stmt_QueryContext d h (stmt st) ctx binds);
  let st := set_rows rows st in
  let st := note err st in
  let st := set_binds [] st in
  mret (st, (rows, err)).

Definition Query (args : list any) (st : Statement)
    : M (Statement * (option handle * option error)) :=
  QueryContext (ctx st) args st.

Definition QueryRowContext (ctx : handle) (args : list any) (st : Statement)
    : M (Statement * option handle) :=
  let binds := gather st args in
  row ← perform (StmtQueryRowContext (stmt st) ctx binds)
          (λ h, stmt_QueryRowContext d h (stmt st) ctx binds);
  mret (st, row).

Definition QueryRow (args : list any) (st : Statement)
    : M (Statement * option handle) :=
  QueryRowContext (ctx st) args st.

Definition Rollback (st : Statement) : M (Statement * option error) :=
  err ← perform (TxRollback (txn st)) (λ h, tx_Rollback d h (txn st));
  mret (note err st, err).

End statement.

(** A transaction of database/sql that is done gives [sql.ErrTxDone] to a
    later [Commit] or [Rollback]; everything else succeeds. *)
Definition ErrTxDone : error := Foreign "database/sql" 0.

Definition tx_done (h : list call) (t : handle) : bool :=
  existsb (λ c, match c with
                | TxCommit t' | TxRollback t' => Nat.eqb t t'
                | _ => false
                end) h.

Definition sql_driver : Driver := {|
  rows_Close := λ _ _, None;
  rows_Err := λ _ _, None;
  tx_Commit := λ h t, if tx_done h t then Some ErrTxDone else None;
  tx_Rollback := λ h t, if tx_done h t then Some ErrTxDone else None;
  stmt_Close := λ _ _, None;
  stmt_ExecContext := λ _ _ _ _, (Some 0%nat, None);
  stmt_QueryContext := λ _ _ _ _, (Some 0%nat, None);
  stmt_QueryRowContext := λ _ _ _ _, Some 0%nat
|}.

(** ** Instrumentation (newrelic.go) *)

(** The fields of [nr.DatastoreSegment] that the callbacks write. *)
Record DatastoreSegment : Type := {
  seg_DatabaseName : string;
  Host : string;
  PortPathOrID : string;
  ParameterizedQuery : string;
  Operation : string;
  Collection : string
}.

(** The patterns, each with the text the source compiles.
    [basicTable] is [[^)(\]\[\}\{\s,;]+]. *)
Definition basicTable_text : string := "[^)(\]\[\}\{\s,;]+".
Definition basicTable : regexp.regex :=
  regexp.Plus true
    (regexp.Byte (λ c, negb (regexp.one_of ")(][}{,;" c || regexp.space c))).

Definition cCommentRegex_text : string := "(?is)/\*.*?\*/".
Definition cCommentRegex : regexp.regex :=
  regexp.Seq [regexp.Lit "/*"; regexp.Star false regexp.any; regexp.Lit "*/"].

Definition enclosedTable_text : string :=
  "[\[\(\{]" +:+ "\s*" +:+ basicTable_text +:+ "\s*" +:+ "[\]\)\}]".
Definition enclosedTable : regexp.regex :=
  regexp.Seq [regexp.Byte (regexp.one_of "[({");
              regexp.Star true (regexp.Byte regexp.space);
              basicTable;
              regexp.Star true (regexp.Byte regexp.space);
              regexp.Byte (regexp.one_of "])}")].

(** The bytes [extractTableRegex] deletes: [\s], the backtick, the two
    quotes, and the round, curly and square brackets. *)
Definition extractTable_class (c : ascii) : bool :=
  regexp.space c || regexp.one_of ("`" +:+ dq +:+ "'(){}[]") c.

Definition extractTableRegex_text : string :=
  "[\s" +:+ "`" +:+ dq +:+ "'\(\)\{\}\[\]]*".
Definition extractTableRegex : regexp.regex :=
  regexp.Star true (regexp.Byte extractTable_class).

Definition firstWordRegex_text : string := "^\w+".
Definition firstWordRegex : regexp.regex :=
  regexp.Seq [regexp.BeginText; regexp.Plus true (regexp.Byte regexp.word)].

Definition lineCommentRegex_text : string := "(?im)(?:--|#).*?$".
Definition lineCommentRegex : regexp.regex :=
  regexp.Seq [regexp.Alt (regexp.Lit "--") (regexp.Lit "#");
              regexp.Star false regexp.dot;
              regexp.EndLine].

Definition sqlPrefixRegex_text : string := "^[\s;]*".
Definition sqlPrefixRegex : regexp.regex :=
  regexp.Seq [regexp.BeginText;
              regexp.Star true
                (regexp.Byte (λ c, regexp.space c || regexp.one_of ";" c))].

Definition tablePattern_text : string :=
  "(" +:+ "\s+" +:+ basicTable_text +:+ "|" +:+ "\s*" +:+ enclosedTable_text +:+ ")".
Definition tablePattern : regexp.regex :=
  regexp.Cap 1
    (regexp.Alt
       (regexp.Cat (regexp.Plus true (regexp.Byte regexp.space)) basicTable)
       (regexp.Cat (regexp.Star true (regexp.Byte regexp.space)) enclosedTable)).

Definition updateRegex_text : string :=
  "(?is)^update(?:\s+(?:low_priority|ignore|or|rollback|abort|replace|fail|only))*"
  +:+ tablePattern_text.
Definition updateRegex : regexp.regex :=
  regexp.Seq [
    regexp.BeginText;
    regexp.LitI "update";
    regexp.Star true
      (regexp.Cat (regexp.Plus true (regexp.Byte regexp.space))
         (regexp.Any_of
            (regexp.LitI <$> ["low_priority"; "ignore"; "or"; "rollback"; "abort";
                              "replace"; "fail"; "only"])));
    tablePattern].

(** [(?is)^.*?\sfrom] and [(?is)^.*?\sinto?], each before [tablePattern]. *)
Definition fromRegex_text : string := "(?is)^.*?\sfrom" +:+ tablePattern_text.
Definition fromRegex : regexp.regex :=
  regexp.Seq [regexp.BeginText; regexp.Star false regexp.any;
              regexp.Byte regexp.space; regexp.LitI "from"; tablePattern].

Definition intoRegex_text : string := "(?is)^.*?\sinto?" +:+ tablePattern_text.
Definition intoRegex : regexp.regex :=
  regexp.Seq [regexp.BeginText; regexp.Star false regexp.any;
              regexp.Byte regexp.space; regexp.LitI "int";
              regexp.Quest (regexp.LitI "o"); tablePattern].

(** [sqlOperations]; a nil [*regexp.Regexp] is [None]. *)
Definition sqlOperations : gmap string (option regexp.regex) :=
  list_to_map [
    ("select", Some fromRegex);
    ("delete", Some fromRegex);
    ("insert", Some intoRegex);
    ("update", Some updateRegex);
    ("call", None);
    ("create", None);
    ("drop", None);
    ("show", None);
    ("set", None);
    ("exec", None);
    ("execute", None);
    ("alter", None);
    ("commit", None);
    ("rollback", None)
  ].

Definition extractTable (s : string) : string :=
  let s := regexp.ReplaceAllString extractTableRegex s EmptyString in
  let idx := strings.Index s "." in
  if 0 <? idx then strings.from (Z.to_nat (idx + 1)) s else s.

(** The callback [parseQueryFn(cfg)] returns, on the segment it is given. *)
Definition parseQueryFn (cfg : Config) (segment : DatastoreSegment)
    (query : string) : DatastoreSegment :=
  let qry := regexp.ReplaceAllString cCommentRegex query EmptyString in
  let qry := regexp.ReplaceAllString lineCommentRegex qry EmptyString in
  let qry := regexp.ReplaceAllString sqlPrefixRegex qry EmptyString in
  let segment :=
    {| seg_DatabaseName := DatabaseName cfg;
       Host := get (DSNData cfg) "host";
       PortPathOrID := PortPathOrID segment;
       ParameterizedQuery := qry;
       Operation := Operation segment;
       Collection := Collection segment |} in
  let op := strings.ToLower (regexp.FindString firstWordRegex qry) in
  match sqlOperations !! op with
  | Some rg =>
      let segment :=
        {| seg_DatabaseName := seg_DatabaseName segment;
           Host := Host segment;
           PortPathOrID := PortPathOrID segment;
           ParameterizedQuery := ParameterizedQuery segment;
           Operation := op;
           Collection := Collection segment |} in
      match rg with
      | Some rg =>
          match regexp.FindStringSubmatch rg qry with
          | _ :: m1 :: _ =>
              {| seg_DatabaseName := seg_DatabaseName segment;
                 Host := Host segment;
                 PortPathOrID := PortPathOrID segment;
                 ParameterizedQuery := ParameterizedQuery segment;
                 Operation := Operation segment;
                 Collection := extractTable m1 |}
          | _ => segment
          end
      | None => segment
      end
  | None => segment
  end.

(** The callback [parseDsnFn(cfg)] returns: a fresh configuration with the
    DSN and the caller's parser is parsed, its error dropped. *)
Definition parseDsnFn (rt : Runtime) (h : Hooks) (segment : DatastoreSegment)
    (dsn : string) : DatastoreSegment :=
  let cfg := {| DatabaseName := EmptyString; DriverName := EmptyString;
                DriverType := EmptyString; DSNData := None; DSNString := dsn;
                Loc := None; Params := None; TLS := None |} in
  let cfg := (ParseDSN rt {| DSNFn := None; DSNParser := DSNParser h |} cfg).1 in
  {| seg_DatabaseName := seg_DatabaseName segment;
     Host := get (DSNData cfg) "host";
     PortPathOrID := get (DSNData cfg) "host";
     ParameterizedQuery := ParameterizedQuery segment;
     Operation := Operation segment;
     Collection := Collection segment |}.

(** ** Concrete surroundings, for running the model

    [ascii_rt] visits a map in the order of [map_to_list], knows the
    time zones [UTC] and any other name but [Nowhere], has no MySQL or
    Snowflake parser, and converts between strings and runes and lowers
    letters byte by byte, which is what Go does on ASCII text. *)
Definition ascii_rt : Runtime := {|
  map_range := map_to_list;
  time_LoadLocation :=
    λ name, if String.eqb name "UTC" then inl UTC
            else if String.eqb name "Nowhere" then inr (Foreign "time" 0)
            else inl (Zone name);
  mysql_ParseDSN := λ _, inr (Foreign "mysql" 0);
  gosnowflake_ParseDSN := λ _, inr (Foreign "gosnowflake" 0);
  runes_of_string := λ s, (λ c, Z.of_nat (nat_of_ascii c)) <$> list_ascii_of_string s;
  string_of_runes := λ l, string_of_list_ascii ((λ r, ascii_of_nat (Z.to_nat r)) <$> l);
  strings_ToLower := strings.ToLower
|}.

Definition no_hooks : Hooks := {| DSNFn := None; DSNParser := None |}.

(** [&Config{DriverType: ty, DSNString: dsn, DSNData: data, Params: params}] *)
Definition config_of (ty dsn : string) (data params : option (gmap string string))
    : Config :=
  {| DatabaseName := EmptyString; DriverName := EmptyString; DriverType := ty;
     DSNData := data; DSNString := dsn; Loc := None; Params := params;
     TLS := None |}.

(** The four engines with a parser and a generator of their own. *)
Definition engines : list string := ["mysql"; "oracle"; "postgres"; "snowflake"].

(** ** Words of the specification *)

(** Whether the byte [c] occurs in [s]; the text before its first
    occurrence (all of [s] when there is none) and the text after it. *)
Fixpoint occurs (c : ascii) (s : string) : bool :=
  match s with
  | EmptyString => false
  | String a s' => Ascii.eqb a c || occurs c s'
  end.

Fixpoint until (c : ascii) (s : string) : string :=
  match s with
  | EmptyString => EmptyString
  | String a s' => if Ascii.eqb a c then EmptyString else String a (until c s')
  end.

Fixpoint past (c : ascii) (s : string) : string :=
  match s with
  | EmptyString => EmptyString
  | String a s' => if Ascii.eqb a c then s' else past c s'
  end.

(** An Oracle DSN has a slash and an at sign, the first slash before the
    first at sign. *)
Definition oracle_wellformed (dsn : string) : bool :=
  occurs "/" dsn && occurs "@" dsn
  && (String.length (until "/" dsn) <? String.length (until "@" dsn))%nat.

(** Whether [s] ends in the byte [c]. *)
Fixpoint ends_with (c : ascii) (s : string) : bool :=
  match s with
  | EmptyString => false
  | String a EmptyString => Ascii.eqb a c
  | String _ s' => ends_with c s'
  end.

(** The pieces with [sep] between them. *)
Fixpoint join (sep : string) (l : list string) : string :=
  match l with
  | [] => EmptyString
  | [x] => x
  | x :: l' => x +:+ sep +:+ join sep l'
  end.

(** The MySQL DSN of the specification: user:pass@tcp(host:port)/name,
    the port 3306 unless the data has one, and after it, when there are
    parameters, a question mark and the pairs key=value joined by
    ampersands. *)
Definition mysql_base (data : option (gmap string string)) : string :=
  get data "user" +:+ ":" +:+ get data "pass" +:+ "@tcp(" +:+ get data "host"
  +:+ ":" +:+ default "3306" (default ∅ data !! "port") +:+ ")/"
  +:+ get data "name".

Definition mysql_query (entries : list (string * string)) : string :=
  match entries with
  | [] => EmptyString
  | _ => "?" +:+ join "&" ((λ kv, kv.1 +:+ "=" +:+ kv.2) <$> entries)
  end.

(** The configuration of the package's test of the MySQL generator. *)
Definition mysql_test_config : Config :=
  config_of "mysql" EmptyString
    (Some (list_to_map [("host", "hostname"); ("user", "username");
                        ("pass", "password"); ("name", "databasename")]))
    (Some {["dsnfn" := "package"]}).

(** [s] without the bytes that satisfy [p]; the number of bytes at the
    front of [s] that satisfy [p]. *)
Fixpoint remove (p : ascii → bool) (s : string) : string :=
  match s with
  | EmptyString => EmptyString
  | String c s' => if p c then remove p s' else String c (remove p s')
  end.

Fixpoint span (p : ascii → bool) (s : string) : nat :=
  match s with
  | String c s' => if p c then S (span p s') else 0%nat
  | EmptyString => 0%nat
  end.

(** The bytes the table-name cleaner deletes, by their codes: tab, line
    feed, form feed, carriage return, space, the double quote, the single
    quote, the round brackets, the square brackets, the backtick and the
    curly brackets. *)
Definition cleaner_codes : list nat :=
  [9; 10; 12; 13; 32; 34; 39; 40; 41; 91; 93; 96; 123; 125]%nat.

(** The verbs of the operation table, and the first word of a query once
    its comments and its leading white space and semicolons are gone, in
    lower case. *)
Definition operations : list string :=
  ["select"; "delete"; "insert"; "update"; "call"; "create"; "drop"; "show";
   "set"; "exec"; "execute"; "alter"; "commit"; "rollback"].

Definition first_word (query : string) : string :=
  let qry := regexp.ReplaceAllString cCommentRegex query EmptyString in
  let qry := regexp.ReplaceAllString lineCommentRegex qry EmptyString in
  let qry := regexp.ReplaceAllString sqlPrefixRegex qry EmptyString in
  strings.ToLower (regexp.FindString firstWordRegex qry).

(** A rune of a key: no space and not the equals sign. *)
Definition key_rune (r : rune) : bool := negb (IsSpace r) && negb (r =? rune_eq).

(** The tokenizer's first [n] turns, when each of them reads a pair: the
    mapping and the scanner they leave. *)
Fixpoint pqPairs (rt : Runtime) (n : nat) (o : gmap string string)
    (s : pqscanner) : option (gmap string string * pqscanner) :=
  match n with
  | O => Some (o, s)
  | S n' =>
      match pqTurnOf rt s with
      | TurnPair keyRunes valRunes s' =>
          pqPairs rt n'
            (<[string_of_runes rt keyRunes := string_of_runes rt valRunes]> o) s'
      | _ => None
      end
  end.

(** The format of the message as the specification words it. *)
Definition missing_eq_format_of_spec : string :=
  "missing " +:+ dq +:+ "=" +:+ dq +:+ " after %q in connection info string".


(** ** Words for the further properties *)

(** The pieces one after the other. *)
Fixpoint concat_strings (l : list string) : string :=
  match l with
  | [] => EmptyString
  | x :: l' => x +:+ concat_strings l'
  end.

(** What no built-in parser touches: the DSN string, the driver type and
    the two names. *)
Definition same_request (c c' : Config) : Prop :=
  DSNString c' = DSNString c ∧ DriverType c' = DriverType c
  ∧ DatabaseName c' = DatabaseName c ∧ DriverName c' = DriverName c.

(** A parser that only writes entries and sets [Loc] and [TLS]: the
    request stays, and a map that is there stays there. *)
Definition only_fills (c c' : Config) : Prop :=
  same_request c c'
  ∧ (is_Some (DSNData c) → is_Some (DSNData c'))
  ∧ (is_Some (Params c) → is_Some (Params c')).

(** The configuration a loop of [ParseDSN] stands at. *)
Definition flow_cfg (f : flow) : Config :=
  match f with
  | Return cfg _ | Go cfg _ => cfg
  end.

(** The first lines of [ParseDSN]: a nil map becomes an empty one. *)
Definition with_maps (cfg : Config) : Config :=
  set_Params (Some (default ∅ (Params cfg)))
    (set_DSNData (Some (default ∅ (DSNData cfg))) cfg).

(** The keys of a PostgreSQL connection string that [postgresParseDSN]
    stores as data; every other key is a parameter. *)
Definition pq_reserved : list string := ["host"; "dbname"; "password"; "user"].

(** A runtime like [ascii_rt] whose MySQL and Snowflake drivers parse
    every string to the configurations given. *)
Definition driver_rt (my : mysqlConfig) (sf : snowflakeConfig) : Runtime := {|
  map_range := map_range ascii_rt;
  time_LoadLocation := time_LoadLocation ascii_rt;
  mysql_ParseDSN := λ _, inl my;
  gosnowflake_ParseDSN := λ _, inl sf;
  runes_of_string := runes_of_string ascii_rt;
  string_of_runes := string_of_runes ascii_rt;
  strings_ToLower := strings_ToLower ascii_rt
|}.

Definition my_example : mysqlConfig :=
  {| my_Addr := "db1:3306"; my_DBName := "shop"; my_Passwd := "secret";
     my_User := "root"; my_Params := None |}.

Definition sf_example : snowflakeConfig :=
  {| sf_User := "ann"; sf_Password := "secret"; sf_Account := "acme";
     sf_Database := "sales"; sf_Schema := "public"; sf_Warehouse := "wh";
     sf_Role := "analyst"; sf_Params := {["timezone" := "UTC"]} |}.

(** The keys of the data that the fallback parser of [ParseDSN] writes. *)
Definition fallback_keys : list string := ["user"; "pass"; "net"; "addr"; "name"].

(** A value between single quotes, as a libpq connection string writes
    it: a backslash before every quote and every backslash of the value. *)
Definition pq_escape (v : list rune) : list rune :=
  flat_map (λ r, if (r =? rune_quote) || (r =? rune_backslash)
                 then [rune_backslash; r] else [r]) v.

Definition pq_quote (v : list rune) : list rune :=
  rune_quote :: pq_escape v ++ [rune_quote].

(** A value that can stand without quotes: not empty, no white space
    and no backslash in it, and no quote at its start. *)
Definition plain_rune (r : rune) : bool :=
  negb (IsSpace r) && negb (r =? rune_backslash).

Definition plain_value (v : list rune) : bool :=
  match v with
  | [] => false
  | r :: _ => negb (r =? rune_quote) && forallb plain_rune v
  end.

(** A key: not empty, no white space and no equals sign in it. *)
Definition pq_key (k : list rune) : bool :=
  match k with
  | [] => false
  | _ => forallb key_rune k
  end.

(** Pairs written as key=value with one space between them, which is how
    [pqGenerateDSN] writes them. *)
Fixpoint pq_render (ps : list (list rune * list rune)) : list rune :=
  match ps with
  | [] => []
  | (k, v) :: ps' =>
      k ++ rune_eq :: v ++ match ps' with
                           | [] => []
                           | _ => 32 :: pq_render ps'
                           end
  end.

(** The mapping the pairs give, a later pair over an earlier one. *)
Definition pq_store (rt : Runtime) (o : gmap string string)
    (ps : list (list rune * list rune)) : gmap string string :=
  foldl (λ o kv, <[string_of_runes rt kv.1 := string_of_runes rt kv.2]> o) o ps.

(** The two errors of a value that breaks off. *)
Definition unterminated_quote : error :=
  Errorf "unterminated quoted string literal in connection string" [].

Definition missing_after_backslash : error :=
  Errorf "missing character after backslash" [].

(** The bytes [sqlPrefixRegex] takes from the front of a query: white
    space and the semicolon. *)
Definition sql_prefix (c : ascii) : bool :=
  regexp.space c || regexp.one_of ";" c.

(** The query of [parseQueryFn] once its comments are gone. *)
Definition without_comments (query : string) : string :=
  regexp.ReplaceAllString lineCommentRegex
    (regexp.ReplaceAllString cCommentRegex query EmptyString) EmptyString.

(** What [LastErr] gives after a method that returned [err]: that
    error, or, when it is nil, what [LastErr] gave before. *)
Definition tracked (before : Statement) (err : option error) : option error :=
  match err with
  | Some e => Some e
  | None => lastErr before
  end.

(** The location a [loc] entry of the fallback parser's parameters
    names: the text after the first equals sign of an entry whose key,
    the text before it, is loc. *)
Definition loc_entry (v : string) : option string :=
  if occurs "=" v && String.eqb (until "=" v) "loc" then Some (past "=" v)
  else None.

(** The parameters of a DSN as the fallback parser reads them: the last
    group of [dsnPattern], split at the ampersands. *)
Definition dsn_params (dsn : string) : list string :=
  strings.Split (at_index (regexp.FindStringSubmatch dsnPattern dsn) 8) "&".

(** [Loc] after the entries, each [loc] entry resolving: the location
    of the last [loc] entry, or what [Loc] was when there is none. *)
Fixpoint loc_after (rt : Runtime) (vs : list string) (loc : option Location)
    : option Location :=
  match vs with
  | [] => loc
  | v :: vs' =>
      loc_after rt vs'
        (match loc_entry v with
         | Some name => match time_LoadLocation rt name with
                        | inl l => Some l
                        | inr _ => None
                        end
         | None => loc
         end)
  end.

(** ASCII text, and its bytes as code points. *)
Definition is_ascii (s : string) : bool :=
  forallb (λ c, (nat_of_ascii c <? 128)%nat) (list_ascii_of_string s).

Definition codes (s : string) : list rune :=
  (λ c, Z.of_nat (nat_of_ascii c)) <$> list_ascii_of_string s.

(** What Go's conversions do on ASCII text: [[]rune(s)] is the bytes of
    [s], and [string] of these runes is [s] again. *)
Definition converts_ascii (rt : Runtime) : Prop :=
  ∀ s, is_ascii s = true →
       runes_of_string rt s = codes s ∧ string_of_runes rt (codes s) = s.
(** * Properties *)

(** ** Prepared statements *)

Section statement_facts.

Variable d : Driver.

Lemma foldl_snoc_fmap {A B : Type} (f : A → B) (acc : list B) (l : list A) :
  foldl (λ acc x, acc ++ [f x]) acc l = acc ++ (f <$> l).
Proof.
  revert acc. induction l as [|x l IH]; intros acc; simpl.
  - by rewrite app_nil_r.
  - rewrite IH. by rewrite <- app_assoc.
Qed.

Lemma gather_eq (st : Statement) (args : list any) :
  gather st args = (boxed <$> binds st) ++ args.
Proof. unfold gather. by rewrite foldl_snoc_fmap. Qed.

Lemma binds_foldl_Bind (st : Statement) (kvs : list (string * any)) :
  binds (foldl (λ st kv, Bind kv.1 kv.2 st) st kvs)
  = binds st ++ ((λ kv, Named kv.1 kv.2) <$> kvs).
Proof.
  revert st. induction kvs as [|kv kvs IH]; intros st; simpl.
  - by rewrite app_nil_r.
  - rewrite IH. simpl. by rewrite <- app_assoc.
Qed.

Lemma stmt_foldl_Bind (st : Statement) (kvs : list (string * any)) :
  stmt (foldl (λ st kv, Bind kv.1 kv.2 st) st kvs) = stmt st.
Proof. revert st. induction kvs as [|kv kvs IH]; intros st; simpl; [done|]. by rewrite IH. Qed.

(** C1. [Commit] makes the transaction's commit call and returns a nil
    error whatever that call returned; the statement is left as it was. *)
Theorem Commit_returns_nil (st : Statement) (h : list call) :
  Commit d st h = ((st, None), h ++ [TxCommit (txn st)]).
Proof. reflexivity. Qed.


(** C4. The binds gathered by [Bind] go to the driver in the order they
    were added, before the arguments of the call itself.  [ExecContext]
    and [QueryContext] leave the bind list empty whatever the driver
    answers; [QueryRowContext] leaves the statement, and so its binds, as
    they were.  [Exec], [Query] and [QueryRow] are these with the
    statement's own context. *)
Theorem binds_in_order_then_reset (st : Statement)
    (kvs : list (string * any)) (args : list any) (c : handle) (h : list call) :
  let st' := foldl (λ st kv, Bind kv.1 kv.2 st) st kvs in
  let sent := (boxed <$> binds st) ++ ((λ kv, ANamed kv.1 kv.2) <$> kvs) ++ args in
  ((ExecContext d c args st' h).2 = h ++ [StmtExecContext (stmt st) c sent]
   ∧ binds (ExecContext d c args st' h).1.1 = [])
  ∧ ((QueryContext d c args st' h).2 = h ++ [StmtQueryContext (stmt st) c sent]
     ∧ binds (QueryContext d c args st' h).1.1 = [])
  ∧ ((QueryRowContext d c args st' h).2 = h ++ [StmtQueryRowContext (stmt st) c sent]
     ∧ (QueryRowContext d c args st' h).1.1 = st'
     ∧ binds st' = binds st ++ ((λ kv, Named kv.1 kv.2) <$> kvs))
  ∧ Exec d args st' = ExecContext d (ctx st') args st'
  ∧ Query d args st' = QueryContext d (ctx st') args st'
  ∧ QueryRow d args st' = QueryRowContext d (ctx st') args st'.
Proof.
  intros st' sent.
  assert (Hsent : gather st' args = sent).
  { rewrite gather_eq. subst st' sent. rewrite binds_foldl_Bind.
    rewrite fmap_app, <- app_assoc. do 2 f_equal.
    rewrite <- list_fmap_compose. reflexivity. }
  assert (Hstmt : stmt st' = stmt st) by apply stmt_foldl_Bind.
  repeat split.
  - unfold ExecContext, perform, mbind, M_bind, mret, M_ret.
    rewrite Hsent, Hstmt.
    by destruct (stmt_ExecContext d h (stmt st) c sent) as [res [e|]].
  - unfold ExecContext, perform, mbind, M_bind, mret, M_ret.
    by destruct (stmt_ExecContext d h (stmt st') c (gather st' args)) as [res [e|]].
  - unfold QueryContext, perform, mbind, M_bind, mret, M_ret.
    rewrite Hsent, Hstmt.
    by destruct (stmt_QueryContext d h (stmt st) c sent) as [res [e|]].
  - unfold QueryContext, perform, mbind, M_bind, mret, M_ret.
    by destruct (stmt_QueryContext d h (stmt st') c (gather st' args)) as [res [e|]].
  - unfold QueryRowContext, perform, mbind, M_bind, mret, M_ret.
    by rewrite Hsent, Hstmt.
  - apply binds_foldl_Bind.
Qed.

End statement_facts.

(** With database/sql's transactions, a [Commit] on a transaction that is
    already done fails underneath and still returns nil. *)
Example Commit_hides_a_failed_commit :
  let st := {| binds := []; ctx := 0; db := 0; lastErr := None; nrtxn := None;
               result := None; rows := None; sql := "COMMIT"; stmt := 1;
               txn := 2 |}%nat in
  let h := [TxRollback 2%nat] in
  tx_Commit sql_driver h (txn st) = Some ErrTxDone
  ∧ (Commit sql_driver st h).1.2 = None.
Proof. split; reflexivity. Qed.

(** [Close] after a [Commit] that went well: the rollback is still made
    and its failure is what [Close] reports and records. *)
Example Close_after_Commit :
  let st := {| binds := []; ctx := 0; db := 0; lastErr := None; nrtxn := None;
               result := None; rows := None; sql := "INSERT"; stmt := 1;
               txn := 2 |}%nat in
  let failure := Wrap ErrTxDone "error rolling back transaction" in
  tx_Commit sql_driver [] (txn st) = None
  ∧ ('(st, _) ← Commit sql_driver st; Close sql_driver st) []
    = ((set_lastErr (Some failure) st, Some failure),
       [TxCommit 2; TxRollback 2; StmtClose 1]%nat).
Proof. split; reflexivity. Qed.

(** ** Configuration *)

Section config_facts.

Variable rt : Runtime.

Lemma Loc_put_data k v cfg : Loc (put_data k v cfg) = Loc cfg.
Proof. reflexivity. Qed.

Lemma Loc_put_param k v cfg : Loc (put_param k v cfg) = Loc cfg.
Proof. reflexivity. Qed.

Lemma Loc_foldl {A : Type} (f : Config → A → Config) (l : list A) cfg :
  (∀ c x, Loc (f c x) = Loc c) → Loc (foldl f cfg l) = Loc cfg.
Proof.
  intros Hf. revert cfg. induction l as [|x l IH]; intros cfg; simpl; [done|].
  by rewrite IH, Hf.
Qed.

(** A loop of the fallback parser leaves [ParseDSN] early only with the
    error of [time.LoadLocation]. *)
Lemma parseParam_Return v cfg err cfg' err' :
  parseParam rt v cfg err = Return cfg' err' → is_Some err'.
Proof.
  unfold parseParam.
  repeat (case_match; try discriminate); intros [= <- <-]; eauto.
Qed.

Lemma parseParams_Return vs cfg err cfg' err' :
  parseParams rt vs cfg err = Return cfg' err' → is_Some err'.
Proof.
  revert cfg err. induction vs as [|v vs IH]; intros cfg err; simpl; [done|].
  destruct (parseParam rt v cfg err) as [c e|c e] eqn:Hp.
  - intros [= <- <-]. by eapply parseParam_Return.
  - apply IH.
Qed.

Lemma parseMatch_Return name m cfg err cfg' err' :
  parseMatch rt name m cfg err = Return cfg' err' → is_Some err'.
Proof.
  unfold parseMatch. repeat (case_match; try discriminate).
  apply parseParams_Return.
Qed.

Lemma parseMatches_Return named cfg err cfg' err' :
  parseMatches rt named cfg err = Return cfg' err' → is_Some err'.
Proof.
  revert cfg err. induction named as [|[name m] named IH]; intros cfg err; simpl; [done|].
  destruct (parseMatch rt name m cfg err) as [c e|c e] eqn:Hp.
  - intros [= <- <-]. by eapply parseMatch_Return.
  - apply IH.
Qed.

(** On the other paths [ParseDSN] returns what the parser returns: an
    engine's parser leaves [Loc] as it found it, and a custom parser gets
    the configuration with its maps made and has the last word. *)
Lemma ParseDSN_engine_keeps_Loc (h : Hooks) (cfg : Config) :
  DSNParser h = None →
  DriverType cfg ∈ engines →
  Loc (ParseDSN rt h cfg).1 = Loc cfg.
Proof.
  intros Hp Hty. unfold ParseDSN. rewrite Hp.
  set (c1 := match DSNData cfg with None => _ | Some _ => cfg end).
  set (c2 := match Params c1 with None => _ | Some _ => c1 end).
  assert (Hc : DriverType c2 = DriverType cfg ∧ Loc c2 = Loc cfg).
  { subst c2 c1. by destruct cfg as [? ? ? [?|] ? ? [?|] ?]. }
  destruct Hc as [Hc Hl].
  destruct (String.eqb EmptyString (DSNString c2)); [done|].
  rewrite Hc. unfold engines in Hty.
  destruct (String.eqb_spec (DriverType cfg) "mysql").
  { unfold mysqlParseDSN. by destruct (mysql_ParseDSN rt _). }
  destruct (String.eqb_spec (DriverType cfg) "oracle").
  { unfold oracleParseDSN. by case_match. }
  destruct (String.eqb_spec (DriverType cfg) "postgres").
  { unfold postgresParseDSN. destruct (pqParseDSN rt _) as [o [err|]]; [done|].
    simpl. rewrite Loc_foldl; [done|]. intros c x. by case_match. }
  destruct (String.eqb_spec (DriverType cfg) "snowflake").
  { unfold snowflakeParseDSN. destruct (gosnowflake_ParseDSN rt _); [|done].
    simpl. by rewrite Loc_foldl. }
  rewrite !elem_of_cons, elem_of_nil in Hty.
  destruct Hty as [?|[?|[?|[?|[]]]]]; congruence.
Qed.

Lemma ParseDSN_custom_parser (h : Hooks) (cfg : Config) parser :
  DSNParser h = Some parser →
  DSNString cfg ≠ EmptyString →
  ParseDSN rt h cfg
  = parser (set_Params (Some (default ∅ (Params cfg)))
              (set_DSNData (Some (default ∅ (DSNData cfg))) cfg)).
Proof.
  intros Hp Hs. unfold ParseDSN. rewrite Hp.
  destruct cfg as [dn drn ty [data|] dsn l [params|] t]; simpl in *;
    (destruct dsn; [done|reflexivity]).
Qed.


End config_facts.

(** C2, the claim as stated fails: an Oracle DSN parses without error and
    [Loc] is still nil. *)
Lemma ParseDSN_oracle_leaves_Loc_nil :
  let cfg := config_of "oracle" "username/password@hostname" None None in
  (ParseDSN ascii_rt no_hooks cfg).2 = None
  ∧ Loc (ParseDSN ascii_rt no_hooks cfg).1 = None.
Proof. split; vm_compute; reflexivity. Qed.


(** ** The Oracle adapter *)

Section oracle_facts.

Lemma until_past (c : ascii) (s : string) :
  occurs c s = true → s = until c s +:+ String c (past c s).
Proof.
  induction s as [|a s IH]; simpl; [done|].
  destruct (Ascii.eqb_spec a c) as [->|Hne]; simpl; [done|].
  intros H. change (String a s = String a (until c s +:+ String c (past c s))).
  f_equal. by apply IH.
Qed.

Lemma until_free (c : ascii) (s : string) : occurs c (until c s) = false.
Proof.
  induction s as [|a s IH]; simpl; [done|].
  destruct (Ascii.eqb_spec a c) as [->|Hne]; simpl; [done|].
  rewrite IH. by destruct (Ascii.eqb_spec a c).
Qed.

Lemma until_all (c : ascii) (s : string) : occurs c s = false → until c s = s.
Proof.
  induction s as [|a s IH]; simpl; [done|].
  destruct (Ascii.eqb a c); simpl; [done|]. intros H. by rewrite IH.
Qed.

Lemma prefix_char (c : ascii) (s : string) :
  String.prefix (String c EmptyString) s
  = match s with String a _ => Ascii.eqb a c | EmptyString => false end.
Proof.
  destruct s as [|a s]; simpl; [done|].
  destruct (ascii_dec c a) as [->|Hne].
  - rewrite Ascii.eqb_refl. by destruct s.
  - symmetry. apply Ascii.eqb_neq. congruence.
Qed.

Lemma Index_char (c : ascii) (s : string) :
  strings.Index s (String c EmptyString)
  = if occurs c s then Z.of_nat (String.length (until c s)) else -1.
Proof.
  induction s as [|a s IH]; [done|].
  cbn [strings.Index]. rewrite prefix_char. simpl.
  destruct (Ascii.eqb a c); simpl; [done|].
  rewrite IH. destruct (occurs c s).
  - destruct (Z.ltb_spec (Z.of_nat (String.length (until c s))) 0); lia.
  - reflexivity.
Qed.

Lemma Contains_char (c : ascii) (s : string) :
  strings.Contains s (String c EmptyString) = occurs c s.
Proof.
  unfold strings.Contains. rewrite Index_char.
  destruct (occurs c s); [|done]. apply Z.leb_le. lia.
Qed.

Lemma Split_char (c : ascii) (s : string) :
  strings.Split s (String c EmptyString)
  = until c s :: (if occurs c s
                  then strings.Split (past c s) (String c EmptyString)
                  else []).
Proof.
  unfold strings.Split. induction s as [|a s IH]; [done|].
  cbn [strings.split_go]. rewrite prefix_char. simpl.
  destruct (Ascii.eqb a c); simpl; [done|].
  rewrite IH. reflexivity.
Qed.

Lemma oracle_guard (dsn : string) :
  strings.Contains dsn "/" && strings.Contains dsn "@"
  && (strings.Index dsn "/" <? strings.Index dsn "@")
  = oracle_wellformed dsn.
Proof.
  unfold oracle_wellformed. rewrite !Contains_char, !Index_char.
  destruct (occurs "/" dsn), (occurs "@" dsn); simpl; try done.
  destruct (Z.ltb_spec (Z.of_nat (String.length (until "/" dsn)))
              (Z.of_nat (String.length (until "@" dsn))));
    symmetry; [apply Nat.ltb_lt | apply Nat.ltb_ge]; lia.
Qed.

(** When the first slash comes first, it lies in the text before the
    first at sign, and it is the first slash there too. *)
Lemma slash_before_at (dsn : string) :
  oracle_wellformed dsn = true →
  occurs "/" (until "@" dsn) = true.
Proof.
  unfold oracle_wellformed. induction dsn as [|a s IH]; simpl; [done|].
  destruct (Ascii.eqb_spec a "/") as [->|Hs]; simpl; [done|].
  destruct (Ascii.eqb_spec a "@") as [->|Ha]; simpl.
  - rewrite andb_true_r. intros [_ H]%andb_prop. done.
  - destruct (Ascii.eqb_spec a "/"); [done|]. simpl. exact IH.
Qed.

Lemma Split_first (c : ascii) (s : string) :
  at_index (strings.Split s (String c EmptyString)) 0 = until c s.
Proof. by rewrite Split_char. Qed.

Lemma Split_second (c : ascii) (s : string) :
  occurs c s = true →
  at_index (strings.Split s (String c EmptyString)) 1 = until c (past c s).
Proof.
  intros Hc. rewrite Split_char, Hc. unfold at_index.
  cbn [lookup list_lookup]. apply Split_first.
Qed.

Lemma oracle_wellformed_at (dsn : string) :
  oracle_wellformed dsn = true → occurs "@" dsn = true.
Proof.
  unfold oracle_wellformed. by destruct (occurs "/" dsn), (occurs "@" dsn).
Qed.

(** C5, as the code has it.  The Oracle parser fails with the error
    "invalid Oracle DSN string", and changes nothing, unless the DSN has
    a slash and an at sign with the first slash before the first at
    sign.  Otherwise it succeeds with: user, the text before the first
    slash; pass, the text from there to the next slash or the first at
    sign; host, the text from the first at sign to the next one or the
    end. *)
Theorem oracleParseDSN_fields (cfg : Config) :
  let dsn := DSNString cfg in
  let pre := until "@" dsn in
  oracleParseDSN cfg
  = if oracle_wellformed dsn
    then (put_data "host" (until "@" (past "@" dsn))
            (put_data "pass" (until "/" (past "/" pre))
               (put_data "user" (until "/" pre) cfg)),
          None)
    else (cfg, Some (Errorf "invalid Oracle DSN string" [])).
Proof.
  intros dsn pre. unfold oracleParseDSN. fold dsn. rewrite oracle_guard.
  destruct (oracle_wellformed dsn) eqn:Hw; [|done].
  rewrite (Split_second "@" dsn) by by apply oracle_wellformed_at.
  rewrite (Split_first "@" dsn). fold pre.
  rewrite (Split_second "/" pre) by by apply slash_before_at.
  by rewrite (Split_first "/" pre).
Qed.

(** With one at sign only, and one slash only before it, this is the
    reading of the specification: host is all that follows the at sign
    and pass all that lies between the slash and the at sign. *)
Lemma oracleParseDSN_single_separators (cfg : Config) :
  let dsn := DSNString cfg in
  let pre := until "@" dsn in
  oracle_wellformed dsn = true →
  occurs "@" (past "@" dsn) = false →
  occurs "/" (past "/" pre) = false →
  oracleParseDSN cfg
  = (put_data "host" (past "@" dsn)
       (put_data "pass" (past "/" pre)
          (put_data "user" (until "/" pre) cfg)),
     None).
Proof.
  intros dsn pre Hw Hat Hsl. unfold oracleParseDSN. fold dsn.
  rewrite oracle_guard, Hw.
  rewrite (Split_second "@" dsn) by by apply oracle_wellformed_at.
  rewrite (Split_first "@" dsn). fold pre.
  rewrite (Split_second "/" pre) by by apply slash_before_at.
  rewrite (Split_first "/" pre).
  rewrite (until_all "@" (past "@" dsn)) by exact Hat.
  by rewrite (until_all "/" (past "/" pre)) by exact Hsl.
Qed.

End oracle_facts.

(** C5, the claim as stated fails: with a second at sign the host is not
    all that follows the first one, and with a second slash before the at
    sign the password is not all that follows the first slash. *)
Lemma oracleParseDSN_stops_at_second_separator :
  let at_twice := config_of "oracle" "scott/tiger@db1@db2" None None in
  let slash_twice := config_of "oracle" "scott/ti/ger@db1" None None in
  ((oracleParseDSN at_twice).2 = None
   ∧ get (DSNData (oracleParseDSN at_twice).1) "host" = "db1"
   ∧ past "@" (DSNString at_twice) = "db1@db2")
  ∧ ((oracleParseDSN slash_twice).2 = None
     ∧ get (DSNData (oracleParseDSN slash_twice).1) "pass" = "ti"
     ∧ past "/" (until "@" (DSNString slash_twice)) = "ti/ger").
Proof. repeat split; vm_compute; exact eq_refl. Qed.

(** ** The MySQL generator *)

Section mysql_facts.

Lemma append_assoc (a b c : string) : (a +:+ b) +:+ c = a +:+ b +:+ c.
Proof.
  induction a as [|x a IH]; [done|].
  change (String x ((a +:+ b) +:+ c) = String x (a +:+ b +:+ c)). by rewrite IH.
Qed.

Lemma append_nil_r (a : string) : a +:+ EmptyString = a.
Proof.
  induction a as [|x a IH]; [done|].
  change (String x (a +:+ EmptyString) = String x a). by rewrite IH.
Qed.

Lemma in_cutset_amp (c : ascii) : strings.in_cutset "&" c = Ascii.eqb c "&".
Proof.
  unfold strings.in_cutset. cbn [list_ascii_of_string].
  destruct (Ascii.eqb_spec c "&") as [->|Hne].
  - apply bool_decide_eq_true. apply list_elem_of_here.
  - apply bool_decide_eq_false. intros [->|[]%elem_of_nil]%elem_of_cons. done.
Qed.

Lemma TrimLeft_keeps (s : string) :
  String.prefix "&" s = false → strings.TrimLeft s "&" = s.
Proof.
  destruct s as [|a s]; [done|]. cbn [strings.TrimLeft].
  rewrite in_cutset_amp. rewrite prefix_char.
  by intros ->.
Qed.

Lemma TrimRight_keeps (s : string) :
  ends_with "&" s = false → strings.TrimRight s "&" = s.
Proof.
  induction s as [|a s IH]; [done|].
  cbn [strings.TrimRight ends_with]. rewrite in_cutset_amp.
  destruct s as [|b s].
  - cbn [strings.TrimRight]. by intros ->.
  - intros H. rewrite (IH H). reflexivity.
Qed.

Lemma TrimRight_amp (s : string) :
  strings.TrimRight (s +:+ "&") "&" = strings.TrimRight s "&".
Proof.
  induction s as [|a s IH]; [done|].
  change (String a s +:+ "&") with (String a (s +:+ "&")).
  cbn [strings.TrimRight]. by rewrite IH.
Qed.

Lemma ends_with_append (c : ascii) (s t : string) :
  t ≠ EmptyString → ends_with c (s +:+ t) = ends_with c t.
Proof.
  intros Ht. induction s as [|a s IH]; [done|].
  change (String a s +:+ t) with (String a (s +:+ t)).
  cbn [ends_with]. rewrite IH.
  destruct (s +:+ t) eqn:E; [|done].
  destruct s, t; done.
Qed.

Lemma append_cons_nonempty (s : string) (a : ascii) (t : string) :
  s +:+ String a t ≠ EmptyString.
Proof. by destruct s. Qed.

Lemma append_nonempty_r (s t : string) :
  t ≠ EmptyString → s +:+ t ≠ EmptyString.
Proof. by destruct s, t. Qed.

Ltac nonempty := first [ discriminate | apply append_nonempty_r; nonempty ].

Lemma ends_with_snoc (c : ascii) (s : string) (a : ascii) (t : string) :
  ends_with c (s +:+ String a t)
  = match t with EmptyString => Ascii.eqb a c | _ => ends_with c t end.
Proof. rewrite ends_with_append by done. by destruct t. Qed.

Lemma prefix_append (s t : string) (a : ascii) :
  String.prefix "&" s = false → a ≠ "&"%char →
  String.prefix "&" (s +:+ String a t) = false.
Proof.
  rewrite !prefix_char. destruct s as [|b s]; [|done].
  intros _ Ha. by apply Ascii.eqb_neq.
Qed.

(** What the [range] loops of the generators append to [DSNString]. *)
Lemma DSNString_foldl (f : string * string → string)
    (l : list (string * string)) (cfg : Config) :
  DSNString (foldl (λ cfg kv, set_DSNString (DSNString cfg +:+ f kv) cfg) cfg l)
  = DSNString cfg +:+ foldr (λ kv acc, f kv +:+ acc) EmptyString l.
Proof.
  revert cfg. induction l as [|kv l IH]; intros cfg; simpl.
  - by rewrite append_nil_r.
  - rewrite IH. simpl. by rewrite append_assoc.
Qed.

Lemma join_cons (sep x : string) (l : list string) :
  l ≠ [] → join sep (x :: l) = x +:+ sep +:+ join sep l.
Proof. by destruct l. Qed.

Lemma pairs_then_amp (l : list (string * string)) :
  l ≠ [] →
  foldr (λ kv acc, (kv.1 +:+ "=" +:+ kv.2 +:+ "&") +:+ acc) EmptyString l
  = join "&" ((λ kv, kv.1 +:+ "=" +:+ kv.2) <$> l) +:+ "&".
Proof.
  induction l as [|kv l IH]; [done|]. intros _.
  destruct (decide (l = [])) as [->|Hne].
  - simpl. by rewrite append_nil_r, !append_assoc.
  - cbn [foldr]. rewrite (IH Hne). rewrite fmap_cons.
    rewrite join_cons by (by destruct l).
    by rewrite !append_assoc.
Qed.

Lemma join_no_amp_end (l : list (string * string)) :
  l ≠ [] →
  (∀ kv, kv ∈ l → ends_with "&" kv.2 = false) →
  ends_with "&" (join "&" ((λ kv, kv.1 +:+ "=" +:+ kv.2) <$> l)) = false.
Proof.
  induction l as [|kv l IH]; [done|]. intros _ Hl.
  destruct (decide (l = [])) as [->|Hne].
  - change (ends_with "&" (kv.1 +:+ String "=" kv.2) = false).
    rewrite ends_with_snoc.
    specialize (Hl kv (list_elem_of_here _ _)). by destruct (kv.2).
  - rewrite fmap_cons, join_cons by (by destruct l).
    rewrite <- append_assoc. rewrite ends_with_append.
    + apply IH; [done|]. intros x Hx. apply Hl. by apply list_elem_of_further.
    + destruct l as [|kv' l]; [done|]. rewrite fmap_cons.
      destruct (decide (l = [])) as [->|Hne'].
      * cbn [fmap list_fmap join]. by destruct (kv'.1).
      * rewrite join_cons by (by destruct l). by destruct (kv'.1).
Qed.

Variable rt : Runtime.

(** The string [mysqlGenerateDSN] leaves in [DSNString], before any
    assumption on its pieces. *)
Lemma mysqlGenerateDSN_string (cfg : Config) :
  DSNString (mysqlGenerateDSN rt cfg)
  = strings.Trim
      (mysql_base (DSNData cfg)
       +:+ (if 0 <? Z.of_nat (size (default ∅ (Params cfg)))
            then "?" +:+ foldr (λ kv acc, (kv.1 +:+ "=" +:+ kv.2 +:+ "&") +:+ acc)
                           EmptyString (map_range rt (default ∅ (Params cfg)))
            else EmptyString))
      "&".
Proof.
  unfold mysqlGenerateDSN.
  set (cfg1 := match default ∅ (DSNData cfg) !! "port" with
               | Some _ => cfg
               | None => put_data "port" "3306" cfg
               end).
  assert (Hp : Params cfg1 = Params cfg) by (subst cfg1; by case_match).
  assert (Hport : get (DSNData cfg1) "port"
                  = default "3306" (default ∅ (DSNData cfg) !! "port")).
  { subst cfg1. unfold get. destruct (default ∅ (DSNData cfg) !! "port") eqn:E.
    - by rewrite E.
    - simpl. by rewrite lookup_insert_eq. }
  assert (Hk : ∀ k, k ≠ "port" → get (DSNData cfg1) k = get (DSNData cfg) k).
  { intros k Hne. subst cfg1. unfold get.
    destruct (default ∅ (DSNData cfg) !! "port"); [done|].
    simpl. by rewrite lookup_insert_ne. }
  cbn [DSNString set_DSNString Params]. rewrite Hp.
  rewrite Hport, !Hk by done. fold (mysql_base (DSNData cfg)).
  destruct (0 <? Z.of_nat (size (default ∅ (Params cfg)))).
  - rewrite DSNString_foldl. cbn [DSNString set_DSNString].
    by rewrite append_assoc.
  - cbn [DSNString set_DSNString]. by rewrite append_nil_r.
Qed.

Lemma mysql_base_no_amp_start (data : option (gmap string string)) :
  String.prefix "&" (get data "user") = false →
  ∀ rest, String.prefix "&" (mysql_base data +:+ rest) = false.
Proof.
  intros Hu rest. unfold mysql_base. rewrite append_assoc.
  by apply prefix_append.
Qed.

Lemma mysql_base_no_amp_end (data : option (gmap string string)) :
  ends_with "&" (get data "name") = false →
  ends_with "&" (mysql_base data) = false.
Proof.
  intros Hn. unfold mysql_base.
  repeat (rewrite ends_with_append by nonempty).
  by destruct (get data "name").
Qed.

Hypothesis range_ok : range_visits_each_entry_once rt.

Lemma range_perm (m : gmap string string) : map_range rt m ≡ₚ map_to_list m.
Proof. exact (range_ok m). Qed.

Lemma map_range_nil (m : gmap string string) :
  map_range rt m = [] ↔ m = ∅.
Proof.
  split.
  - intros H. apply map_to_list_empty_iff. apply Permutation_nil_r.
    rewrite <- H. symmetry. apply range_perm.
  - intros ->. apply Permutation_nil_r. rewrite range_perm.
    by rewrite map_to_list_empty.
Qed.

Lemma size_pos_range (m : gmap string string) :
  (0 <? Z.of_nat (size m)) = bool_decide (map_range rt m ≠ []).
Proof.
  destruct (decide (m = ∅)) as [->|Hne].
  - rewrite map_size_empty. symmetry. apply bool_decide_eq_false.
    intros H. apply H. by apply map_range_nil.
  - assert (size m ≠ 0%nat) by (by intros ?%map_size_empty_iff).
    rewrite bool_decide_eq_true_2.
    + apply Z.ltb_lt. lia.
    + by intros ?%map_range_nil.
Qed.

(** The generated string under the assumptions that keep [strings.Trim]
    from cutting into the data. *)
Lemma mysqlGenerateDSN_clean (cfg : Config) :
  String.prefix "&" (get (DSNData cfg) "user") = false →
  (default ∅ (Params cfg) = ∅ → ends_with "&" (get (DSNData cfg) "name") = false) →
  (∀ k v, default ∅ (Params cfg) !! k = Some v → ends_with "&" v = false) →
  DSNString (mysqlGenerateDSN rt cfg)
  = mysql_base (DSNData cfg) +:+ mysql_query (map_range rt (default ∅ (Params cfg))).
Proof.
  intros Hu Hn Hv. rewrite mysqlGenerateDSN_string, size_pos_range.
  set (m := default ∅ (Params cfg)) in *.
  unfold strings.Trim. rewrite TrimLeft_keeps by by apply mysql_base_no_amp_start.
  destruct (map_range rt m) as [|kv l] eqn:El.
  - rewrite bool_decide_eq_false_2 by (intros H; by apply H).
    cbn [mysql_query]. rewrite append_nil_r. apply TrimRight_keeps.
    apply mysql_base_no_amp_end, Hn. by apply map_range_nil.
  - rewrite bool_decide_eq_true_2 by done.
    rewrite pairs_then_amp by done. unfold mysql_query.
    rewrite <- !append_assoc. rewrite TrimRight_amp. apply TrimRight_keeps.
    rewrite !append_assoc. rewrite ends_with_append.
    + change ("?" +:+ ?x) with (String "?" x).
      set (j := join "&" _).
      assert (Hj : ends_with "&" j = false).
      { subst j. apply join_no_amp_end; [done|]. intros [k v] Hkv.
        apply (Hv k). apply elem_of_map_to_list.
        rewrite <- (range_perm m). by rewrite El. }
      change (String "?" j) with (String "?" EmptyString +:+ j).
      destruct j as [|a j]; [done|]. by rewrite ends_with_append.
    + done.
Qed.

(** C7, as the code has it.  For a configuration with driver type
    "mysql", an empty [DSNString] and no [DSNFn], whose user does not
    begin with an ampersand, whose name (when there are no parameters)
    and whose parameter values do not end with one, [DSN] returns
    user:pass@tcp(host:port)/name, the port 3306 unless the data has
    one, followed when there are parameters by a question mark and the
    pairs key=value, in the order the runtime visits them, joined by
    ampersands. *)
Theorem mysql_DSN_format (h : Hooks) (cfg : Config) :
  DriverType cfg = "mysql" →
  DSNString cfg = EmptyString →
  DSNFn h = None →
  String.prefix "&" (get (DSNData cfg) "user") = false →
  (default ∅ (Params cfg) = ∅ → ends_with "&" (get (DSNData cfg) "name") = false) →
  (∀ k v, default ∅ (Params cfg) !! k = Some v → ends_with "&" v = false) →
  (DSN rt h cfg).2
  = mysql_base (DSNData cfg) +:+ mysql_query (map_range rt (default ∅ (Params cfg))).
Proof.
  intros Hty Hs Hfn Hu Hn Hv. unfold DSN, generateDSN.
  rewrite Hs, Hfn. cbn [String.eqb fst snd].
  set (cfg1 := match DSNData cfg with None => _ | Some _ => cfg end).
  assert (H1 : DriverType cfg1 = "mysql"
               ∧ default ∅ (DSNData cfg1) = default ∅ (DSNData cfg)
               ∧ Params cfg1 = Params cfg).
  { subst cfg1. destruct cfg as [? ? ? [?|] ? ? ? ?]; simpl in *; by subst. }
  destruct H1 as (Hty1 & Hd1 & Hp1).
  rewrite Hty1. cbn [String.eqb Ascii.eqb Bool.eqb fst].
  rewrite mysqlGenerateDSN_clean.
  - rewrite Hp1. unfold mysql_base, get. by rewrite Hd1.
  - unfold get. by rewrite Hd1.
  - rewrite Hp1. unfold get. by rewrite Hd1.
  - by rewrite Hp1.
Qed.

Lemma DSN_mysql (h : Hooks) (cfg : Config) :
  DriverType cfg = "mysql" → DSNString cfg = EmptyString → DSNFn h = None →
  (DSN rt h cfg).2
  = DSNString (mysqlGenerateDSN rt
                 (set_DSNData (Some (default ∅ (DSNData cfg))) cfg)).
Proof.
  intros Hty Hs Hfn. unfold DSN, generateDSN. rewrite Hs, Hfn.
  destruct cfg as [? ? ? [?|] ? ? ? ?]; simpl in *; subst; reflexivity.
Qed.

Lemma map_range_singleton (k v : string) :
  map_range rt {[k := v]} = [(k, v)].
Proof.
  apply Permutation_singleton_r. rewrite range_perm.
  by rewrite map_to_list_singleton.
Qed.

(** The example of the specification, whatever order the runtime has. *)
Lemma mysql_DSN_example :
  (DSN rt no_hooks mysql_test_config).2
  = "username:password@tcp(hostname:3306)/databasename?dsnfn=package".
Proof.
  rewrite DSN_mysql by exact eq_refl.
  rewrite mysqlGenerateDSN_string.
  change (default ∅ (Params (set_DSNData _ mysql_test_config)))
    with ({["dsnfn" := "package"]} : gmap string string).
  rewrite map_size_singleton, map_range_singleton.
  vm_compute. exact eq_refl.
Qed.

End mysql_facts.

Lemma ascii_rt_range : range_visits_each_entry_once ascii_rt.
Proof. intros m. reflexivity. Qed.

(** C7, the claim as stated fails.  A configuration with driver type
    "mysql" and an empty [DSNString] that has a [DSNFn] gets what the
    function returns; and [strings.Trim] takes an ampersand off the front
    of the user. *)
Lemma mysql_DSN_other_strings :
  let custom := {| DSNFn := Some (λ cfg, (cfg, "made elsewhere"));
                   DSNParser := None |} in
  let amp := config_of "mysql" EmptyString
               (Some (list_to_map [("host", "h"); ("user", "&u");
                                   ("pass", "p"); ("name", "n")])) None in
  (DriverType mysql_test_config = "mysql"
   ∧ DSNString mysql_test_config = EmptyString
   ∧ (DSN ascii_rt custom mysql_test_config).2 = "made elsewhere")
  ∧ (mysql_base (DSNData amp) = "&u:p@tcp(h:3306)/n"
     ∧ (DSN ascii_rt no_hooks amp).2 = "u:p@tcp(h:3306)/n").
Proof. repeat split; vm_compute; exact eq_refl. Qed.

Lemma mysql_DSN_format_witness :
  (DriverType mysql_test_config = "mysql"
   ∧ DSNString mysql_test_config = EmptyString
   ∧ DSNFn no_hooks = None
   ∧ String.prefix "&" (get (DSNData mysql_test_config) "user") = false)
  ∧ (DSN ascii_rt no_hooks mysql_test_config).2
    = "username:password@tcp(hostname:3306)/databasename?dsnfn=package".
Proof.
  assert (H1 : DriverType mysql_test_config = "mysql") by exact eq_refl.
  assert (H2 : DSNString mysql_test_config = EmptyString) by exact eq_refl.
  assert (H3 : DSNFn no_hooks = None) by exact eq_refl.
  assert (H4 : String.prefix "&" (get (DSNData mysql_test_config) "user") = false)
    by (vm_compute; exact eq_refl).
  assert (H5 : default ∅ (Params mysql_test_config) = ∅
               → ends_with "&" (get (DSNData mysql_test_config) "name") = false)
    by (intros _; vm_compute; exact eq_refl).
  assert (H6 : ∀ k v, default ∅ (Params mysql_test_config) !! k = Some v
                      → ends_with "&" v = false).
  { intros k v.
    change (default ∅ (Params mysql_test_config))
      with ({["dsnfn" := "package"]} : gmap string string).
    intros [_ <-]%lookup_singleton_Some. exact eq_refl. }
  split; [exact (conj H1 (conj H2 (conj H3 H4)))|].
  rewrite (mysql_DSN_format ascii_rt ascii_rt_range no_hooks mysql_test_config
             H1 H2 H3 H4 H5 H6).
  vm_compute. exact eq_refl.
Defined.

(** ** The regular expression engine on a repeated byte class *)

Section star_class.

Variable p : ascii → bool.

Lemma from_span_remove (s : string) :
  remove p (strings.from (span p s) s) = remove p s.
Proof.
  induction s as [|c s IH]; [done|]. simpl.
  destruct (p c) eqn:Hc; simpl; [exact IH|]. by rewrite Hc.
Qed.

Lemma span_le (s : string) : (span p s ≤ String.length s)%nat.
Proof. induction s as [|c s IH]; simpl; [lia|]. destruct (p c); simpl; lia. Qed.

Lemma length_from (n : nat) (s : string) :
  String.length (strings.from n s) = (String.length s - n)%nat.
Proof.
  revert s. induction n as [|n IH]; intros [|c s]; simpl; by rewrite ?IH.
Qed.

(** A greedy repetition of a byte class, before a continuation that
    cannot fail, takes the bytes of the class at the front, all of them. *)
Lemma star_loop_class {R : Type} (k : nat → string → regexp.caps → option R)
    (n pos : nat) (s : string) (cs : regexp.caps) :
  (∀ pos s cs, is_Some (k pos s cs)) →
  (String.length s ≤ n)%nat →
  regexp.star_loop true (regexp.run (regexp.Byte p)) k n pos s cs
  = k (pos + span p s)%nat (strings.from (span p s) s) cs.
Proof.
  intros Hk. revert pos s. induction n as [|n IH]; intros pos s Hn.
  - destruct s; [|simpl in Hn; lia]. simpl. by rewrite Nat.add_0_r.
  - cbn [regexp.star_loop]. destruct s as [|c s].
    + simpl. by rewrite Nat.add_0_r.
    + cbn [regexp.run span]. destruct (p c) eqn:Hc.
      * assert (Hlt : (pos <? S pos)%nat = true) by (apply Nat.ltb_lt; lia).
        rewrite Hlt. fold (@regexp.star_loop R true (regexp.run (regexp.Byte p)) k).
        rewrite IH by (simpl in Hn; lia).
        replace (S pos + span p s)%nat with (pos + S (span p s))%nat by lia.
        cbn [strings.from].
        by destruct (Hk (pos + S (span p s))%nat (strings.from (span p s) s) cs) as [x ->].
      * cbn [strings.from]. by rewrite Nat.add_0_r.
Qed.

Lemma run_Star {R : Type} (greedy : bool) (a : regexp.regex) (pos : nat)
    (s : string) (cs : regexp.caps) (k : nat → string → regexp.caps → option R) :
  regexp.run (regexp.Star greedy a) pos s cs k
  = regexp.star_loop greedy (regexp.run a) k (String.length s) pos s cs.
Proof. reflexivity. Qed.

Lemma find_from_class (pos : nat) (s : string) :
  regexp.find_from (regexp.Star true (regexp.Byte p)) pos s
  = Some (pos, (pos + span p s)%nat, []).
Proof.
  destruct s as [|c s]; cbn [regexp.find_from];
    rewrite run_Star, star_loop_class by (eauto || lia); reflexivity.
Qed.

(** Replacing every match of the repeated class by nothing: the search
    stands either where the last match ended, or one byte further, past
    a byte that is not in the class. *)
Lemma replaceAll_class (fuel : nat) (len L P : nat) (tailL tailP : string) :
  (String.length tailP < fuel)%nat →
  len = (P + String.length tailP)%nat →
  (L = P ∧ tailL = tailP)
  ∨ (P = S L ∧ ∃ c, p c = false ∧ tailL = String c tailP) →
  regexp.replaceAll fuel (regexp.Star true (regexp.Byte p)) EmptyString
    len L tailL P tailP
  = remove p tailL.
Proof.
  revert len L P tailL tailP.
  induction fuel as [|fuel IH]; intros len L P tailL tailP Hf Hlen Hinv; [lia|].
  cbn [regexp.replaceAll]. rewrite find_from_class.
  rewrite orb_diag || idtac.
  assert (Hins : (if (L <? P + span p tailP)%nat || (P =? 0)%nat
                  then EmptyString else EmptyString) = EmptyString)
    by (by destruct (_ || _)).
  rewrite Hins. clear Hins.
  pose proof (span_le tailP) as Hsp.
  destruct tailP as [|c tailP].
  - (* the end of the text *)
    cbn [span] in *. rewrite Nat.add_0_r in *.
    assert (H1 : (P <? P)%nat = false) by (apply Nat.ltb_ge; lia).
    assert (H2 : (P <? P + 1)%nat = true) by (apply Nat.ltb_lt; lia).
    assert (H3 : (P + 1 <=? len)%nat = false) by (apply Nat.leb_gt; lia).
    rewrite H1, H2, H3.
    destruct Hinv as [[-> ->]|[-> (c & Hc & ->)]].
    + by rewrite Nat.sub_diag.
    + replace (S L - L)%nat with 1%nat by lia. simpl. by rewrite Hc.
  - destruct (p c) eqn:Hc.
    + (* a run of the class starts here *)
      cbn [span]. rewrite Hc.
      set (n := span p tailP) in *.
      assert (Hn : (n ≤ String.length tailP)%nat) by apply span_le.
      assert (H1 : (P + S n <? P + 1)%nat = false) by (apply Nat.ltb_ge; lia).
      rewrite H1.
      assert (H4 : (P + S n <=? len)%nat = true)
        by (apply Nat.leb_le; simpl in Hlen; lia).
      rewrite H4.
      replace (P + S n - P)%nat with (S n) by lia.
      rewrite IH.
      * destruct Hinv as [[-> ->]|[-> (c' & Hc' & ->)]].
        -- rewrite Nat.sub_diag.
           replace (P + S n - P)%nat with (S n) by lia.
           cbn [strings.upto strings.from remove String.append]. rewrite Hc.
           apply from_span_remove.
        -- replace (S L - L)%nat with 1%nat by lia.
           replace (S L + S n - L)%nat with (S (S n)) by lia.
           cbn [strings.upto strings.from remove String.append]. rewrite Hc', Hc.
           f_equal. apply from_span_remove.
      * cbn [strings.from]. rewrite length_from. simpl in Hf. lia.
      * cbn [strings.from]. rewrite length_from. simpl in Hlen. lia.
      * left. split; [done|].
        destruct Hinv as [[-> ->]|[-> (c' & Hc' & ->)]].
        -- by replace (P + S n - P)%nat with (S n) by lia.
        -- by replace (S L + S n - L)%nat with (S (S n)) by lia.
    + (* a byte that stays *)
      cbn [span]. rewrite Hc. rewrite Nat.add_0_r.
      assert (H1 : (P <? P + 1)%nat = true) by (apply Nat.ltb_lt; lia).
      assert (H4 : (P + 1 <=? len)%nat = true)
        by (apply Nat.leb_le; simpl in Hlen; lia).
      rewrite H1, H4.
      replace (P + 1 - P)%nat with 1%nat by lia.
      rewrite IH.
      * destruct Hinv as [[-> ->]|[-> (c' & Hc' & ->)]].
        -- rewrite Nat.sub_diag. reflexivity.
        -- replace (S L - L)%nat with 1%nat by lia.
           cbn [strings.upto strings.from remove String.append]. by rewrite Hc'.
      * simpl in *. lia.
      * simpl in *. lia.
      * right. split; [lia|]. exists c. split; [done|].
        destruct Hinv as [[-> ->]|[-> (c' & Hc' & ->)]].
        -- by rewrite Nat.sub_diag.
        -- by replace (S L - L)%nat with 1%nat by lia.
Qed.

Lemma ReplaceAllString_class (s : string) :
  regexp.ReplaceAllString (regexp.Star true (regexp.Byte p)) s EmptyString
  = remove p s.
Proof.
  unfold regexp.ReplaceAllString. apply replaceAll_class; [lia|lia|by left].
Qed.

End star_class.

(** ** The table-name cleaner *)

Lemma extractTable_class_codes (c : ascii) :
  extractTable_class c = bool_decide (nat_of_ascii c ∈ cleaner_codes).
Proof.
  destruct c as [[] [] [] [] [] [] [] []]; vm_compute; reflexivity.
Qed.

Lemma from_past (c : ascii) (s : string) :
  occurs c s = true →
  strings.from (String.length (until c s) + 1) s = past c s.
Proof.
  induction s as [|a s IH]; simpl; [done|].
  destruct (Ascii.eqb a c); simpl; [done|]. exact IH.
Qed.

Lemma extractTable_eq (s : string) :
  let cleaned := remove extractTable_class s in
  extractTable s
  = if occurs "." cleaned && negb (String.prefix "." cleaned)
    then past "." cleaned else cleaned.
Proof.
  intros cleaned. unfold extractTable, extractTableRegex.
  rewrite ReplaceAllString_class. fold cleaned.
  rewrite (Index_char "." cleaned), (prefix_char "." cleaned).
  destruct (occurs "." cleaned) eqn:Ho; [|done].
  destruct cleaned as [|a t] eqn:Hc; [done|].
  cbn [until]. destruct (Ascii.eqb a ".") eqn:Ha; [done|].
  cbn [andb negb String.length].
  assert (H0 : (0 <? Z.of_nat (S (String.length (until "." t)))) = true)
    by (apply Z.ltb_lt; lia).
  rewrite H0.
  replace (Z.to_nat (Z.of_nat (S (String.length (until "." t))) + 1))
    with (String.length (until "." (String a t)) + 1)%nat
    by (cbn [until]; rewrite Ha; simpl; lia).
  by apply from_past.
Qed.

(** C10. The cleaner deletes the white space, the backtick, the quotes
    and the round, curly and square brackets wherever they stand in the
    token; then, when the first dot of what is left stands after its first
    byte, it keeps what follows that dot.  So a token with two qualifiers
    keeps the second, and a cleaned token that begins with a dot is
    returned as it is. *)
Theorem extractTable_cleans_then_unqualifies (s : string) :
  let cleaned := remove extractTable_class s in
  (∀ c, extractTable_class c = bool_decide (nat_of_ascii c ∈ cleaner_codes))
  ∧ regexp.ReplaceAllString extractTableRegex s EmptyString = cleaned
  ∧ extractTable s
    = (if occurs "." cleaned && negb (String.prefix "." cleaned)
       then past "." cleaned else cleaned)
  ∧ (String.prefix "." cleaned = true → extractTable s = cleaned)
  ∧ extractTable "catalog.schema.table" = "schema.table".
Proof.
  intros cleaned. split; [exact extractTable_class_codes|].
  split; [apply ReplaceAllString_class|].
  split; [apply extractTable_eq|].
  split.
  - intros Hdot. rewrite extractTable_eq. fold cleaned. rewrite Hdot.
    by rewrite andb_false_r.
  - vm_compute. reflexivity.
Qed.

Lemma extractTable_cleans_then_unqualifies_witness :
  let s := " `.my table` " in
  String.prefix "." (remove extractTable_class s) = true
  ∧ extractTable s = ".mytable".
Proof.
  intros s.
  assert (H : String.prefix "." (remove extractTable_class s) = true)
    by (vm_compute; exact eq_refl).
  split; [exact H|].
  exact (proj1 (proj2 (proj2 (proj2 (extractTable_cleans_then_unqualifies s)))) H).
Defined.

(** ** The query callback *)

Lemma sqlOperations_keys (w : string) :
  sqlOperations !! w = None ↔ w ∉ operations.
Proof. unfold sqlOperations. rewrite <- not_elem_of_list_to_map. reflexivity. Qed.

Lemma parseQueryFn_unknown_verb (cfg : Config) (segment : DatastoreSegment)
    (query : string) :
  first_word query ∉ operations →
  Operation (parseQueryFn cfg segment query) = Operation segment
  ∧ Collection (parseQueryFn cfg segment query) = Collection segment.
Proof.
  intros Hw%sqlOperations_keys. unfold parseQueryFn.
  unfold first_word in Hw. rewrite Hw. split; reflexivity.
Qed.

(** C9. The query callback sets operation and collection: select and
    my_table for a select from a table with its schema, insert and t for an
    insert, update and t for an update with modifiers; and it leaves both
    as they were when the first word of the query is not a verb of the
    operation table. *)
Theorem parseQueryFn_classifies (cfg : Config) (segment : DatastoreSegment) :
  (Operation (parseQueryFn cfg segment "SELECT * FROM my_schema.my_table") = "select"
   ∧ Collection (parseQueryFn cfg segment "SELECT * FROM my_schema.my_table")
     = "my_table")
  ∧ (Operation (parseQueryFn cfg segment "INSERT INTO t (a) VALUES (1)") = "insert"
     ∧ Collection (parseQueryFn cfg segment "INSERT INTO t (a) VALUES (1)") = "t")
  ∧ (Operation (parseQueryFn cfg segment "UPDATE LOW_PRIORITY IGNORE t SET x=1")
     = "update"
     ∧ Collection (parseQueryFn cfg segment "UPDATE LOW_PRIORITY IGNORE t SET x=1")
       = "t")
  ∧ (∀ query,
       first_word query ∉ operations →
       Operation (parseQueryFn cfg segment query) = Operation segment
       ∧ Collection (parseQueryFn cfg segment query) = Collection segment).
Proof.
  split; [split; vm_compute; reflexivity|].
  split; [split; vm_compute; reflexivity|].
  split; [split; vm_compute; reflexivity|].
  intros query Hw. by apply parseQueryFn_unknown_verb.
Qed.

Lemma parseQueryFn_classifies_witness :
  let cfg := config_of "postgres" EmptyString None None in
  let segment := {| seg_DatabaseName := EmptyString; Host := EmptyString;
                    PortPathOrID := EmptyString;
                    ParameterizedQuery := EmptyString;
                    Operation := "earlier"; Collection := "orders" |} in
  let query := "/* plan */ EXPLAIN SELECT 1 FROM t" in
  (first_word query ∉ operations)
  ∧ Operation (parseQueryFn cfg segment query) = "earlier"
  ∧ Collection (parseQueryFn cfg segment query) = "orders".
Proof.
  intros cfg segment query.
  assert (H : first_word query ∉ operations)
    by (apply (bool_decide_unpack _); vm_compute; exact I).
  split; [exact H|].
  exact (proj2 (proj2 (proj2 (parseQueryFn_classifies cfg segment))) query H).
Defined.

(** ** The libpq-style tokenizer *)

Section tokenizer_facts.

Variable rt : Runtime.

Lemma SkipSpaces_app (lead s : pqscanner) :
  forallb IsSpace lead = true → SkipSpaces (lead ++ s) = SkipSpaces s.
Proof.
  induction lead as [|r lead IH]; simpl; [done|].
  intros [Hr Hl]%andb_prop. rewrite Hr. by apply IH.
Qed.

Lemma SkipSpaces_shorter (s : pqscanner) r s' :
  SkipSpaces s = (r, true, s') → (length s' < length s)%nat.
Proof.
  induction s as [|x s IH]; simpl; [done|].
  destruct (IsSpace x).
  - intros H%IH. lia.
  - intros [= _ <-]. lia.
Qed.

Lemma SkipSpaces_not_longer (s : pqscanner) r ok s' :
  SkipSpaces s = (r, ok, s') → (length s' ≤ length s)%nat.
Proof.
  induction s as [|x s IH]; simpl.
  - intros [= _ _ <-]. simpl. lia.
  - destruct (IsSpace x).
    + intros H%IH. lia.
    + intros [= _ _ <-]. lia.
Qed.

Lemma scanKey_not_longer (s : pqscanner) keyRunes r keyRunes' r' ok s' :
  scanKey keyRunes r s = (keyRunes', (r', ok, s')) → (length s' ≤ length s)%nat.
Proof.
  revert keyRunes r. induction s as [|x s IH]; intros keyRunes r; simpl.
  - destruct (negb (IsSpace r) && negb (r =? rune_eq)); intros [= _ _ _ <-]; simpl; lia.
  - destruct (negb (IsSpace r) && negb (r =? rune_eq)).
    + intros H%IH. lia.
    + intros [= _ _ _ <-]. simpl. lia.
Qed.

Lemma scanValue_not_longer (n : nat) :
  ∀ (s : pqscanner) valRunes r valRunes' s',
    (length s ≤ n)%nat →
    scanValue valRunes r s = inr (valRunes', s') → (length s' ≤ length s)%nat.
Proof.
  induction n as [|n IH]; intros s valRunes r valRunes' s' Hn.
  - destruct s; [|simpl in Hn; lia]. simpl.
    destruct (negb (IsSpace r)); [destruct (r =? rune_backslash)|];
      try discriminate; intros [= _ <-]; simpl; lia.
  - destruct s as [|x s].
    + simpl. destruct (negb (IsSpace r)); [destruct (r =? rune_backslash)|];
        try discriminate; intros [= _ <-]; simpl; lia.
    + simpl. destruct (negb (IsSpace r)).
      * destruct (r =? rune_backslash).
        -- destruct s as [|y s].
           ++ intros [= _ <-]. simpl. lia.
           ++ intros H%IH; simpl in *; lia.
        -- intros H%IH; simpl in *; lia.
      * intros [= _ <-]. simpl. lia.
Qed.

Lemma scanQuoted_not_longer (n : nat) :
  ∀ (s : pqscanner) valRunes valRunes' s',
    (length s ≤ n)%nat →
    scanQuoted valRunes s = inr (valRunes', s') → (length s' ≤ length s)%nat.
Proof.
  induction n as [|n IH]; intros s valRunes valRunes' s' Hn.
  - destruct s; [|simpl in Hn; lia]. simpl. discriminate.
  - destruct s as [|x s]; [simpl; discriminate|]. simpl.
    destruct (x =? rune_quote).
    + intros [= _ <-]. lia.
    + destruct (x =? rune_backslash).
      * destruct s as [|y s]; [discriminate|].
        intros H%IH; simpl in *; lia.
      * intros H%IH; simpl in *; lia.
Qed.

(** A turn that reads a pair leaves a shorter text. *)
Lemma pqTurnOf_pair_shorter (s : pqscanner) keyRunes valRunes s' :
  pqTurnOf rt s = TurnPair keyRunes valRunes s' → (length s' < length s)%nat.
Proof.
  unfold pqTurnOf.
  destruct (SkipSpaces s) as [[r ok] s1] eqn:H1.
  destruct ok; [|discriminate]. simpl.
  apply SkipSpaces_shorter in H1.
  destruct (scanKey [] r s1) as [key [[r2 ok2] s2]] eqn:H2.
  apply scanKey_not_longer in H2.
  destruct (if negb (r2 =? rune_eq) then SkipSpaces s2 else (r2, ok2, s2))
    as [[r3 ok3] s3] eqn:H3.
  assert (Hs3 : (length s3 ≤ length s2)%nat).
  { destruct (negb (r2 =? rune_eq)).
    - by eapply SkipSpaces_not_longer.
    - by injection H3 as _ _ <-. }
  destruct (negb (r3 =? rune_eq) || negb ok3); [discriminate|].
  destruct (SkipSpaces s3) as [[r4 ok4] s4] eqn:H4.
  apply SkipSpaces_not_longer in H4.
  destruct ok4; [|discriminate]. simpl.
  destruct (negb (r4 =? rune_quote)).
  - destruct (scanValue [] r4 s4) as [e|[v s5]] eqn:H5; [discriminate|].
    apply (scanValue_not_longer _ _ _ _ _ _ (Nat.le_refl _)) in H5.
    intros [= _ _ <-]. lia.
  - destruct (scanQuoted [] s4) as [e|[v s5]] eqn:H5; [discriminate|].
    apply (scanQuoted_not_longer _ _ _ _ _ (Nat.le_refl _)) in H5.
    intros [= _ _ <-]. lia.
Qed.

(** The outer loop ends: the fuel [pqParseDSN] gives is enough. *)
Lemma pqLoop_enough_fuel (fuel : nat) (o : gmap string string) (s : pqscanner) :
  (length s < fuel)%nat → is_Some (pqLoop rt fuel o s).
Proof.
  revert o s. induction fuel as [|fuel IH]; intros o s Hf; [lia|].
  simpl. destruct (pqTurnOf rt s) as [|e|k|k v s'] eqn:Ht; eauto.
  apply IH. apply pqTurnOf_pair_shorter in Ht. lia.
Qed.

Lemma pqParseDSN_pqLoop (dsn : string) :
  pqLoop rt (S (length (runes_of_string rt dsn))) ∅ (runes_of_string rt dsn)
  = Some (pqParseDSN rt dsn).
Proof.
  unfold pqParseDSN, newPqScanner. cbv zeta.
  destruct (pqLoop_enough_fuel (S (length (runes_of_string rt dsn))) ∅
              (runes_of_string rt dsn)) as [x Hx]; [apply Nat.lt_succ_diag_r|].
  rewrite Hx. reflexivity.
Qed.

Lemma scanKey_stop (keyRunes : list rune) (r : rune) (s : pqscanner) :
  key_rune r = false → scanKey keyRunes r s = (keyRunes, (r, true, s)).
Proof. unfold key_rune. intros H. destruct s; simpl; by rewrite H. Qed.

Lemma scanKey_key (keyRunes : list rune) (r : rune) (more t : list rune) :
  key_rune r = true →
  forallb key_rune more = true →
  match t with [] => True | x :: _ => key_rune x = false end →
  scanKey keyRunes r (more ++ t)
  = (keyRunes ++ r :: more,
     match t with [] => (0, false, []) | x :: t' => (x, true, t') end).
Proof.
  revert keyRunes r. induction more as [|y more IH]; intros keyRunes r Hr Hm Ht.
  - destruct t as [|x t]; simpl; unfold key_rune in Hr; rewrite Hr; [done|].
    rewrite scanKey_stop by done. reflexivity.
  - simpl in Hm. apply andb_prop in Hm as [Hy Hm].
    simpl. unfold key_rune in Hr. rewrite Hr.
    rewrite IH by done. by rewrite <- app_assoc.
Qed.

Lemma space_not_key (r : rune) : IsSpace r = true → key_rune r = false.
Proof. unfold key_rune. by intros ->. Qed.

Lemma space_not_eq (r : rune) : IsSpace r = true → (r =? rune_eq) = false.
Proof.
  intros H. destruct (Z.eqb_spec r rune_eq) as [->|]; [|done].
  vm_compute in H. discriminate.
Qed.

(** One turn of the tokenizer on a key that is not followed by the
    equals sign: before the key any white space, after it either the end
    of the text, or white space and then the end or a rune that is not
    the equals sign. *)
Lemma pqTurnOf_missing_eq (lead key ws rest : list rune) :
  forallb IsSpace lead = true →
  key ≠ [] →
  forallb key_rune key = true →
  forallb IsSpace ws = true →
  rest = [] ∨ (ws ≠ [] ∧ ∃ r rest', rest = r :: rest' ∧ key_rune r = true) →
  pqTurnOf rt (lead ++ key ++ ws ++ rest)
  = TurnFail (missing_eq (string_of_runes rt key)).
Proof.
  intros Hlead Hne Hkey Hws Hrest.
  destruct key as [|r more]; [done|]. simpl in Hkey.
  apply andb_prop in Hkey as [Hr Hmore].
  assert (Hr' := Hr). unfold key_rune in Hr'.
  apply andb_prop in Hr' as [Hrs _]. apply negb_true_iff in Hrs.
  unfold pqTurnOf. rewrite SkipSpaces_app by done.
  cbn [app SkipSpaces]. rewrite Hrs. cbn [negb].
  assert (Ht : match ws ++ rest with
               | [] => True
               | x :: _ => key_rune x = false
               end).
  { destruct ws as [|w ws]; simpl.
    - destruct Hrest as [->|[? _]]; done.
    - simpl in Hws. apply andb_prop in Hws as [Hw _]. by apply space_not_key. }
  rewrite scanKey_key by done. cbn [app].
  destruct ws as [|w ws].
  - destruct Hrest as [->|[? _]]; [|done]. reflexivity.
  - simpl in Hws. apply andb_prop in Hws as [Hw Hws].
    cbn [app]. rewrite (space_not_eq w Hw). cbn [negb].
    rewrite SkipSpaces_app by done.
    destruct Hrest as [->|[_ (x & rest' & -> & Hx)]].
    + reflexivity.
    + unfold key_rune in Hx. apply andb_prop in Hx as [Hxs Hxe].
      apply negb_true_iff in Hxs. cbn [SkipSpaces]. rewrite Hxs.
      by rewrite Hxe.
Qed.

Lemma pqPairs_length (n : nat) (o : gmap string string) (s : pqscanner) o' s' :
  pqPairs rt n o s = Some (o', s') → (n + length s' ≤ length s)%nat.
Proof.
  revert o s. induction n as [|n IH]; intros o s; simpl.
  - intros [= _ <-]. lia.
  - destruct (pqTurnOf rt s) as [|e|k|k v s1] eqn:Ht; try discriminate.
    intros H%IH. apply pqTurnOf_pair_shorter in Ht. lia.
Qed.

Lemma pqLoop_pqPairs (n : nat) (o : gmap string string) (s : pqscanner) o' s' :
  pqPairs rt n o s = Some (o', s') →
  ∀ fuel, pqLoop rt (n + fuel) o s = pqLoop rt fuel o' s'.
Proof.
  revert o s. induction n as [|n IH]; intros o s; simpl.
  - by intros [= <- <-].
  - destruct (pqTurnOf rt s) as [|e|k|k v s1] eqn:Ht; try discriminate.
    intros H fuel. by apply IH.
Qed.

(** The part of C8 that holds.  Wherever the tokenizer, after any number
    of pairs, comes to a key that is not followed by the equals sign, it
    returns an empty mapping and the error that names the key. *)
Lemma pqParseDSN_missing_eq (dsn : string) (n : nat) (o : gmap string string)
    (lead key ws rest : list rune) :
  pqPairs rt n ∅ (runes_of_string rt dsn) = Some (o, lead ++ key ++ ws ++ rest) →
  forallb IsSpace lead = true →
  key ≠ [] →
  forallb key_rune key = true →
  forallb IsSpace ws = true →
  rest = [] ∨ (ws ≠ [] ∧ ∃ r rest', rest = r :: rest' ∧ key_rune r = true) →
  pqParseDSN rt dsn = (∅, Some (missing_eq (string_of_runes rt key))).
Proof.
  intros Hp Hlead Hne Hkey Hws Hrest.
  pose proof (pqParseDSN_pqLoop dsn) as Hl.
  pose proof (pqPairs_length _ _ _ _ _ Hp) as Hlen.
  set (s0 := runes_of_string rt dsn) in *.
  replace (S (length s0)) with (n + S (length s0 - n))%nat in Hl by lia.
  rewrite (pqLoop_pqPairs _ _ _ _ _ Hp) in Hl.
  cbn [pqLoop] in Hl.
  rewrite pqTurnOf_missing_eq in Hl by done.
  by injection Hl as <-.
Qed.

End tokenizer_facts.

(** C8, the message.  A key without its equals sign gives an empty mapping
    and an error that names the key; the format of that error is the one of
    the specification with a double quote more at its end. *)
Theorem pqParseDSN_message_has_stray_quote :
  pqParseDSN ascii_rt "user" = (∅, Some (missing_eq "user"))
  ∧ missing_eq "user" = Errorf (missing_eq_format_of_spec +:+ dq) ["user"]
  ∧ missing_eq "user" ≠ Errorf missing_eq_format_of_spec ["user"].
Proof.
  split; [vm_compute; reflexivity|].
  split; [vm_compute; reflexivity|].
  vm_compute. discriminate.
Qed.

(** The same on a text with a pair before the key and white space around. *)
Example pqParseDSN_missing_eq_after_a_pair :
  pqParseDSN ascii_rt "host=db1  user  name" = (∅, Some (missing_eq "user")).
Proof. vm_compute. reflexivity. Qed.

(** The general statement at that text: one pair read, then the key. *)
Example pqParseDSN_missing_eq_instance :
  pqParseDSN ascii_rt "host=db1  user  name"
  = (∅, Some (missing_eq (string_of_runes ascii_rt [117; 115; 101; 114]))).
Proof.
  apply (pqParseDSN_missing_eq ascii_rt "host=db1  user  name" 1
           {["host" := "db1"]} [32] [117; 115; 101; 114] [32; 32]
           [110; 97; 109; 101]).
  - vm_compute. reflexivity.
  - vm_compute. reflexivity.
  - discriminate.
  - vm_compute. reflexivity.
  - vm_compute. reflexivity.
  - right. split; [discriminate|]. exists 110, [97; 109; 101].
    split; vm_compute; reflexivity.
Qed.

(** * Further properties *)

(** ** Oracle: what the generator writes, the parser reads *)

Lemma occurs_append (c : ascii) (s t : string) :
  occurs c (s +:+ t) = occurs c s || occurs c t.
Proof.
  induction s as [|a s IH]; [done|].
  change (String a s +:+ t) with (String a (s +:+ t)). simpl.
  rewrite IH. by rewrite orb_assoc.
Qed.

Lemma until_append (c : ascii) (s t : string) :
  occurs c s = false → until c (s +:+ String c t) = s.
Proof.
  induction s as [|a s IH]; intros H.
  - simpl. by rewrite Ascii.eqb_refl.
  - change (String a s +:+ String c t) with (String a (s +:+ String c t)).
    cbn [until occurs] in *. destruct (Ascii.eqb a c); [done|].
    by rewrite IH.
Qed.

Lemma past_append (c : ascii) (s t : string) :
  occurs c s = false → past c (s +:+ String c t) = t.
Proof.
  induction s as [|a s IH]; intros H.
  - simpl. by rewrite Ascii.eqb_refl.
  - change (String a s +:+ String c t) with (String a (s +:+ String c t)).
    cbn [past occurs] in *. destruct (Ascii.eqb a c); [done|].
    by rewrite IH.
Qed.

Lemma length_append (s t : string) :
  String.length (s +:+ t) = (String.length s + String.length t)%nat.
Proof.
  induction s as [|a s IH]; [done|].
  change (String a s +:+ t) with (String a (s +:+ t)). simpl. by rewrite IH.
Qed.

(** The Oracle parser on a string user/pass@host whose user and pass hold
    neither separator and whose host holds no at sign. *)
Lemma oracleParseDSN_generated (cfg : Config) (user pass host : string) :
  DSNString cfg = user +:+ "/" +:+ pass +:+ "@" +:+ host →
  occurs "/" user = false → occurs "@" user = false →
  occurs "/" pass = false → occurs "@" pass = false →
  occurs "@" host = false →
  oracleParseDSN cfg
  = (put_data "host" host (put_data "pass" pass (put_data "user" user cfg)), None).
Proof.
  intros Hs Hu1 Hu2 Hp1 Hp2 Hh.
  assert (Hs' : DSNString cfg = (user +:+ "/" +:+ pass) +:+ String "@" host)
    by (rewrite Hs; by rewrite !append_assoc).
  assert (Hnat : occurs "@" (user +:+ "/" +:+ pass) = false)
    by (rewrite !occurs_append, Hu2, Hp2; reflexivity).
  assert (Hpre : until "@" (DSNString cfg) = user +:+ "/" +:+ pass)
    by (rewrite Hs'; by apply until_append).
  assert (Hpast : past "@" (DSNString cfg) = host)
    by (rewrite Hs'; by apply past_append).
  assert (Hw : oracle_wellformed (DSNString cfg) = true).
  { unfold oracle_wellformed. rewrite Hpre.
    assert (H1 : until "/" (DSNString cfg) = user).
    { rewrite Hs. change ("/" +:+ pass +:+ "@" +:+ host)
        with (String "/" (pass +:+ "@" +:+ host)). by apply until_append. }
    rewrite H1, Hs, !occurs_append, !length_append.
    change (occurs "/" "/") with true. change (occurs "@" "@") with true.
    rewrite !orb_true_r. simpl. apply Nat.ltb_lt. lia. }
  unfold oracleParseDSN. rewrite oracle_guard, Hw.
  rewrite (Split_second "@") by by apply oracle_wellformed_at.
  rewrite (Split_first "@"), Hpre, Hpast.
  change ("/" +:+ pass) with (String "/" pass).
  rewrite (Split_second "/") by (rewrite occurs_append; simpl; by rewrite orb_true_r).
  rewrite (Split_first "/").
  rewrite until_append, past_append by done.
  by rewrite !until_all.
Qed.

Lemma get_put_data (k v k' : string) (cfg : Config) :
  get (DSNData (put_data k v cfg)) k'
  = if String.eqb k k' then v else get (DSNData cfg) k'.
Proof.
  unfold get, put_data. simpl. destruct (String.eqb_spec k k') as [->|Hne].
  - by rewrite lookup_insert_eq.
  - by rewrite lookup_insert_ne.
Qed.

Lemma eqb_empty_append (s : string) (a : ascii) (t : string) :
  String.eqb EmptyString (s +:+ String a t) = false.
Proof. by destruct s. Qed.

(** X1. Round trip of the Oracle adapter.  When user and pass hold
    neither a slash nor an at sign and host holds no at sign, parsing the
    string that [DSN] generates succeeds and gives back every entry of
    [DSNData] as it reads before. *)
Theorem oracle_round_trip (rt : Runtime) (h : Hooks) (cfg : Config) :
  DriverType cfg = "oracle" →
  DSNString cfg = EmptyString →
  DSNFn h = None →
  DSNParser h = None →
  occurs "/" (get (DSNData cfg) "user") = false →
  occurs "@" (get (DSNData cfg) "user") = false →
  occurs "/" (get (DSNData cfg) "pass") = false →
  occurs "@" (get (DSNData cfg) "pass") = false →
  occurs "@" (get (DSNData cfg) "host") = false →
  (DSN rt h cfg).2
  = get (DSNData cfg) "user" +:+ "/" +:+ get (DSNData cfg) "pass"
    +:+ "@" +:+ get (DSNData cfg) "host"
  ∧ (ParseDSN rt h (DSN rt h cfg).1).2 = None
  ∧ ∀ k, get (DSNData (ParseDSN rt h (DSN rt h cfg).1).1) k = get (DSNData cfg) k.
Proof.
  intros Hty Hs Hfn Hp Hu1 Hu2 Hp1 Hp2 Hh.
  set (user := get (DSNData cfg) "user") in *.
  set (pass := get (DSNData cfg) "pass") in *.
  set (host := get (DSNData cfg) "host") in *.
  set (c0 := set_DSNData (Some (default ∅ (DSNData cfg))) cfg).
  assert (Hc1 : (DSN rt h cfg).1
                = set_DSNString (user +:+ "/" +:+ pass +:+ "@" +:+ host) c0).
  { unfold DSN, generateDSN. rewrite Hs, Hfn. subst c0 user pass host.
    destruct cfg as [? ? ? [?|] ? ? ? ?]; simpl in *; subst; reflexivity. }
  assert (Hdsn : (DSN rt h cfg).2 = DSNString (DSN rt h cfg).1) by reflexivity.
  rewrite Hdsn, Hc1. split; [reflexivity|].
  unfold ParseDSN. rewrite Hp.
  cbn [DSNData set_DSNString set_DSNData c0 Params].
  set (c2 := match Params cfg with None => _ | Some _ => _ end).
  assert (H2 : DSNString c2 = user +:+ "/" +:+ pass +:+ "@" +:+ host
               ∧ DriverType c2 = "oracle"
               ∧ default ∅ (DSNData c2) = default ∅ (DSNData cfg)).
  { subst c2 c0. destruct (Params cfg); simpl; by rewrite Hty. }
  destruct H2 as (Hs2 & Hty2 & Hd2).
  rewrite Hs2, Hty2.
  change ("/" +:+ pass +:+ "@" +:+ host) with (String "/" (pass +:+ "@" +:+ host)).
  rewrite eqb_empty_append. cbn [String.eqb Ascii.eqb Bool.eqb].
  rewrite (oracleParseDSN_generated c2 user pass host) by done.
  split; [reflexivity|]. intros k. cbn [fst].
  rewrite !get_put_data.
  assert (Hget : ∀ k, get (DSNData c2) k = get (DSNData cfg) k)
    by (intros k'; unfold get; by rewrite Hd2).
  destruct (String.eqb_spec "host" k) as [<-|_]; [done|].
  destruct (String.eqb_spec "pass" k) as [<-|_]; [done|].
  destruct (String.eqb_spec "user" k) as [<-|_]; [done|].
  apply Hget.
Qed.

Lemma oracle_round_trip_witness :
  let cfg := config_of "oracle" EmptyString
               (Some (list_to_map [("user", "scott"); ("pass", "tiger");
                                   ("host", "db1:1521/orcl")])) None in
  (DSN ascii_rt no_hooks cfg).2 = "scott/tiger@db1:1521/orcl"
  ∧ (ParseDSN ascii_rt no_hooks (DSN ascii_rt no_hooks cfg).1).2 = None
  ∧ get (DSNData (ParseDSN ascii_rt no_hooks (DSN ascii_rt no_hooks cfg).1).1) "host"
    = "db1:1521/orcl".
Proof.
  intros cfg.
  assert (H1 : occurs "/" (get (DSNData cfg) "user") = false) by (vm_compute; exact eq_refl).
  assert (H2 : occurs "@" (get (DSNData cfg) "user") = false) by (vm_compute; exact eq_refl).
  assert (H3 : occurs "/" (get (DSNData cfg) "pass") = false) by (vm_compute; exact eq_refl).
  assert (H4 : occurs "@" (get (DSNData cfg) "pass") = false) by (vm_compute; exact eq_refl).
  assert (H5 : occurs "@" (get (DSNData cfg) "host") = false) by (vm_compute; exact eq_refl).
  pose proof (oracle_round_trip ascii_rt no_hooks cfg eq_refl eq_refl eq_refl eq_refl
                H1 H2 H3 H4 H5) as (Ha & Hb & Hc).
  split; [rewrite Ha; vm_compute; exact eq_refl|].
  split; [exact Hb|].
  rewrite (Hc "host"). vm_compute. exact eq_refl.
Defined.

(** ** The generators *)

Lemma TrimLeft_amp_start (s : string) :
  String.prefix "&" (strings.TrimLeft s "&") = false.
Proof.
  induction s as [|a s IH]; [done|]. cbn [strings.TrimLeft].
  rewrite in_cutset_amp. destruct (Ascii.eqb a "&") eqn:Ha; [exact IH|].
  by rewrite prefix_char.
Qed.

Lemma TrimRight_amp_end (s : string) :
  ends_with "&" (strings.TrimRight s "&") = false.
Proof.
  induction s as [|a s IH]; [done|]. cbn [strings.TrimRight].
  rewrite in_cutset_amp.
  destruct (strings.TrimRight s "&") as [|b t] eqn:Ht.
  - destruct (Ascii.eqb a "&") eqn:Ha; [done|]. simpl. exact Ha.
  - exact IH.
Qed.

Lemma TrimRight_amp_start (s : string) :
  String.prefix "&" s = false →
  String.prefix "&" (strings.TrimRight s "&") = false.
Proof.
  destruct s as [|a s]; [done|]. rewrite !prefix_char. intros Ha.
  cbn [strings.TrimRight]. rewrite in_cutset_amp, Ha.
  by destruct (strings.TrimRight s "&").
Qed.

Lemma Trim_amp_ends (s : string) :
  String.prefix "&" (strings.Trim s "&") = false
  ∧ ends_with "&" (strings.Trim s "&") = false.
Proof.
  unfold strings.Trim. split.
  - apply TrimRight_amp_start, TrimLeft_amp_start.
  - apply TrimRight_amp_end.
Qed.

(** X2. Whatever the data, a MySQL DSN made by the built-in generator
    neither begins nor ends with an ampersand. *)
Theorem mysql_DSN_no_ampersand_at_the_ends (rt : Runtime) (h : Hooks) (cfg : Config) :
  DriverType cfg = "mysql" →
  DSNString cfg = EmptyString →
  DSNFn h = None →
  String.prefix "&" (DSN rt h cfg).2 = false
  ∧ ends_with "&" (DSN rt h cfg).2 = false.
Proof.
  intros Hty Hs Hfn. rewrite (DSN_mysql rt h cfg Hty Hs Hfn).
  rewrite mysqlGenerateDSN_string. apply Trim_amp_ends.
Qed.

Lemma mysql_DSN_no_ampersand_at_the_ends_witness :
  let cfg := config_of "mysql" EmptyString
               (Some (list_to_map [("user", "&&root"); ("name", "shop&")])) None in
  (DSN ascii_rt no_hooks cfg).2 = "root:@tcp(:3306)/shop"
  ∧ String.prefix "&" (DSN ascii_rt no_hooks cfg).2 = false
  ∧ ends_with "&" (DSN ascii_rt no_hooks cfg).2 = false.
Proof.
  intros cfg. split; [vm_compute; exact eq_refl|].
  exact (mysql_DSN_no_ampersand_at_the_ends ascii_rt no_hooks cfg
           eq_refl eq_refl eq_refl).
Defined.

(** A loop that only rewrites [DSNString] leaves every other field. *)
Lemma foldl_only_DSNString (f : Config → string * string → string)
    (l : list (string * string)) (c : Config) :
  foldl (λ c kv, set_DSNString (f c kv) c) c l
  = set_DSNString (DSNString (foldl (λ c kv, set_DSNString (f c kv) c) c l)) c.
Proof.
  revert c. induction l as [|x l IH]; intros c; simpl.
  - by destruct c.
  - rewrite IH at 1. reflexivity.
Qed.

Lemma mysqlGenerateDSN_frame (rt : Runtime) (cfg : Config) :
  mysqlGenerateDSN rt cfg
  = set_DSNString (DSNString (mysqlGenerateDSN rt cfg))
      (match default ∅ (DSNData cfg) !! "port" with
       | Some _ => cfg
       | None => put_data "port" "3306" cfg
       end).
Proof.
  unfold mysqlGenerateDSN.
  set (c1 := match default ∅ (DSNData cfg) !! "port" with
             | Some _ => cfg
             | None => _
             end).
  cbn [Params set_DSNString DSNString].
  destruct (0 <? Z.of_nat (size (default ∅ (Params c1)))); [|reflexivity].
  rewrite (foldl_only_DSNString
             (λ c kv, DSNString c +:+ kv.1 +:+ "=" +:+ kv.2 +:+ "&")).
  reflexivity.
Qed.

(** X3. Generating a MySQL DSN writes the port into the data: after
    [DSN] the data has the port it had, or 3306; every other entry of the
    data reads as before, and [Params], [Loc] and [TLS] are untouched. *)
Theorem mysql_DSN_stores_the_port (rt : Runtime) (h : Hooks) (cfg : Config) :
  DriverType cfg = "mysql" →
  DSNString cfg = EmptyString →
  DSNFn h = None →
  default ∅ (DSNData (DSN rt h cfg).1) !! "port"
  = Some (default "3306" (default ∅ (DSNData cfg) !! "port"))
  ∧ (∀ k, k ≠ "port" →
          default ∅ (DSNData (DSN rt h cfg).1) !! k = default ∅ (DSNData cfg) !! k)
  ∧ Params (DSN rt h cfg).1 = Params cfg
  ∧ Loc (DSN rt h cfg).1 = Loc cfg
  ∧ TLS (DSN rt h cfg).1 = TLS cfg.
Proof.
  intros Hty Hs Hfn.
  assert (Hc : (DSN rt h cfg).1
               = mysqlGenerateDSN rt (set_DSNData (Some (default ∅ (DSNData cfg))) cfg)).
  { unfold DSN, generateDSN. rewrite Hs, Hfn.
    destruct cfg as [? ? ? [?|] ? ? ? ?]; simpl in *; subst; reflexivity. }
  rewrite Hc, mysqlGenerateDSN_frame.
  set (c0 := set_DSNData (Some (default ∅ (DSNData cfg))) cfg).
  change (default ∅ (DSNData c0)) with (default ∅ (DSNData cfg)).
  destruct (default ∅ (DSNData cfg) !! "port") as [p|] eqn:Hp.
  - change (default ∅ (DSNData (set_DSNString _ c0))) with (default ∅ (DSNData cfg)).
    rewrite Hp. repeat split; done.
  - change (default ∅ (DSNData (set_DSNString _ (put_data "port" "3306" c0))))
      with (<["port" := "3306"]> (default ∅ (DSNData cfg))).
    rewrite lookup_insert_eq. repeat split; try done.
    intros k Hk. by rewrite lookup_insert_ne.
Qed.

Lemma mysql_DSN_stores_the_port_witness :
  default ∅ (DSNData (DSN ascii_rt no_hooks mysql_test_config).1) !! "port"
  = Some "3306"
  ∧ default ∅ (DSNData (DSN ascii_rt no_hooks mysql_test_config).1) !! "host"
    = Some "hostname".
Proof.
  pose proof (mysql_DSN_stores_the_port ascii_rt no_hooks mysql_test_config
                eq_refl eq_refl eq_refl) as (Ha & Hb & _).
  split.
  - rewrite Ha. vm_compute. exact eq_refl.
  - rewrite (Hb "host") by discriminate. vm_compute. exact eq_refl.
Defined.

Lemma foldr_concat (f : string * string → string) (l : list (string * string)) :
  foldr (λ kv acc, f kv +:+ acc) EmptyString l = concat_strings (f <$> l).
Proof. induction l as [|x l IH]; simpl; [done|]. by rewrite IH. Qed.

Lemma pqGenerateDSN_string (rt : Runtime) (cfg : Config) :
  range_visits_each_entry_once rt →
  DSNString (pqGenerateDSN rt cfg)
  = ("user=" +:+ get (DSNData cfg) "user"
     +:+ " password=" +:+ get (DSNData cfg) "pass"
     +:+ " dbname=" +:+ get (DSNData cfg) "name"
     +:+ " host=" +:+ get (DSNData cfg) "host")
    +:+ concat_strings ((λ kv, " " +:+ kv.1 +:+ "=" +:+ kv.2)
                          <$> map_range rt (default ∅ (Params cfg))).
Proof.
  intros Hr. unfold pqGenerateDSN. cbn [Params set_DSNString DSNString].
  rewrite (size_pos_range rt Hr).
  destruct (decide (map_range rt (default ∅ (Params cfg)) = [])) as [He|Hne].
  - rewrite bool_decide_eq_false_2 by (intros H; by apply H).
    rewrite He. cbn [DSNString set_DSNString fmap list_fmap concat_strings].
    by rewrite append_nil_r.
  - rewrite bool_decide_eq_true_2 by done.
    rewrite DSNString_foldl. cbn [DSNString set_DSNString].
    by rewrite foldr_concat.
Qed.

Lemma snowflakeGenerateDSN_string (rt : Runtime) (cfg : Config) :
  range_visits_each_entry_once rt →
  DSNString (snowflakeGenerateDSN rt cfg)
  = (get (DSNData cfg) "user" +:+ ":" +:+ get (DSNData cfg) "pass"
     +:+ "@" +:+ get (DSNData cfg) "account"
     +:+ "/" +:+ get (DSNData cfg) "db"
     +:+ "/" +:+ get (DSNData cfg) "schema"
     +:+ "?warehouse=" +:+ get (DSNData cfg) "warehouse"
     +:+ "&role=" +:+ get (DSNData cfg) "role")
    +:+ concat_strings ((λ kv, "&" +:+ kv.1 +:+ "=" +:+ kv.2)
                          <$> map_range rt (default ∅ (Params cfg))).
Proof.
  intros Hr. unfold snowflakeGenerateDSN. cbn [Params set_DSNString DSNString].
  rewrite (size_pos_range rt Hr).
  destruct (decide (map_range rt (default ∅ (Params cfg)) = [])) as [He|Hne].
  - rewrite bool_decide_eq_false_2 by (intros H; by apply H).
    rewrite He. cbn [DSNString set_DSNString fmap list_fmap concat_strings].
    by rewrite append_nil_r.
  - rewrite bool_decide_eq_true_2 by done.
    rewrite DSNString_foldl. cbn [DSNString set_DSNString].
    by rewrite foldr_concat.
Qed.

(** What [DSN] does for a configuration without a DSN string and
    without a [DSNFn]: the data is made a map, then the engine's generator
    runs. *)
Lemma DSN_builtin (rt : Runtime) (h : Hooks) (cfg : Config) :
  DSNString cfg = EmptyString →
  DSNFn h = None →
  let c0 := set_DSNData (Some (default ∅ (DSNData cfg))) cfg in
  (DSN rt h cfg).1
  = if String.eqb (DriverType cfg) "mysql" then mysqlGenerateDSN rt c0
    else if String.eqb (DriverType cfg) "oracle" then oracleGenerateDSN c0
    else if String.eqb (DriverType cfg) "postgres" then pqGenerateDSN rt c0
    else if String.eqb (DriverType cfg) "snowflake" then snowflakeGenerateDSN rt c0
    else c0.
Proof.
  intros Hs Hfn c0. unfold DSN, generateDSN. rewrite Hs, Hfn. subst c0.
  destruct cfg as [? ? ty [?|] ? ? ? ?]; simpl in *; subst;
    repeat (case_match; try reflexivity).
Qed.

(** X4. The PostgreSQL generator: the four fixed fields in their order,
    then every parameter in the order the runtime visits them, each behind
    a space; nothing is quoted, escaped or trimmed, and the guard on the
    number of parameters changes nothing. *)
Theorem postgres_DSN_format (rt : Runtime) (h : Hooks) (cfg : Config) :
  range_visits_each_entry_once rt →
  DriverType cfg = "postgres" →
  DSNString cfg = EmptyString →
  DSNFn h = None →
  (DSN rt h cfg).2
  = ("user=" +:+ get (DSNData cfg) "user"
     +:+ " password=" +:+ get (DSNData cfg) "pass"
     +:+ " dbname=" +:+ get (DSNData cfg) "name"
     +:+ " host=" +:+ get (DSNData cfg) "host")
    +:+ concat_strings ((λ kv, " " +:+ kv.1 +:+ "=" +:+ kv.2)
                          <$> map_range rt (default ∅ (Params cfg))).
Proof.
  intros Hr Hty Hs Hfn.
  change (DSN rt h cfg).2 with (DSNString (DSN rt h cfg).1).
  rewrite DSN_builtin by done. rewrite Hty. cbn [String.eqb Ascii.eqb Bool.eqb].
  by rewrite pqGenerateDSN_string.
Qed.

(** X5. The Snowflake generator: user, pass, account, db and schema, then
    the warehouse and the role as the first two query parameters, then
    every parameter in the order the runtime visits them, each behind an
    ampersand; nothing is escaped or trimmed. *)
Theorem snowflake_DSN_format (rt : Runtime) (h : Hooks) (cfg : Config) :
  range_visits_each_entry_once rt →
  DriverType cfg = "snowflake" →
  DSNString cfg = EmptyString →
  DSNFn h = None →
  (DSN rt h cfg).2
  = (get (DSNData cfg) "user" +:+ ":" +:+ get (DSNData cfg) "pass"
     +:+ "@" +:+ get (DSNData cfg) "account"
     +:+ "/" +:+ get (DSNData cfg) "db"
     +:+ "/" +:+ get (DSNData cfg) "schema"
     +:+ "?warehouse=" +:+ get (DSNData cfg) "warehouse"
     +:+ "&role=" +:+ get (DSNData cfg) "role")
    +:+ concat_strings ((λ kv, "&" +:+ kv.1 +:+ "=" +:+ kv.2)
                          <$> map_range rt (default ∅ (Params cfg))).
Proof.
  intros Hr Hty Hs Hfn.
  change (DSN rt h cfg).2 with (DSNString (DSN rt h cfg).1).
  rewrite DSN_builtin by done. rewrite Hty. cbn [String.eqb Ascii.eqb Bool.eqb].
  by rewrite snowflakeGenerateDSN_string.
Qed.

Lemma postgres_DSN_format_witness :
  let cfg := config_of "postgres" EmptyString
               (Some (list_to_map [("host", "hostname"); ("user", "username");
                                   ("pass", "password"); ("name", "databasename")]))
               (Some {["dsnfn" := "package"]}) in
  (DSN ascii_rt no_hooks cfg).2
  = "user=username password=password dbname=databasename host=hostname dsnfn=package".
Proof.
  intros cfg.
  rewrite (postgres_DSN_format ascii_rt no_hooks cfg ascii_rt_range
             eq_refl eq_refl eq_refl).
  vm_compute. exact eq_refl.
Defined.

Lemma snowflake_DSN_format_witness :
  let cfg := config_of "snowflake" EmptyString
               (Some (list_to_map [("account", "account"); ("user", "username");
                                   ("pass", "password"); ("db", "database");
                                   ("schema", "schema"); ("warehouse", "warehouse");
                                   ("role", "role")]))
               (Some {["dsnfn" := "package"]}) in
  (DSN ascii_rt no_hooks cfg).2
  = "username:password@account/database/schema?warehouse=warehouse&role=role&dsnfn=package".
Proof.
  intros cfg.
  rewrite (snowflake_DSN_format ascii_rt no_hooks cfg ascii_rt_range
             eq_refl eq_refl eq_refl).
  vm_compute. exact eq_refl.
Defined.

(** The generators never leave an empty string. *)
Lemma TrimLeft_reaches (s : string) (a : ascii) (t : string) :
  a ≠ "&"%char →
  ∃ b u, b ≠ "&"%char ∧ strings.TrimLeft (s +:+ String a t) "&" = String b u.
Proof.
  intros Ha. induction s as [|c s IH].
  - exists a, t. split; [done|].
    change (EmptyString +:+ String a t) with (String a t).
    cbn [strings.TrimLeft].
    rewrite in_cutset_amp. by apply Ascii.eqb_neq in Ha as ->.
  - change (String c s +:+ String a t) with (String c (s +:+ String a t)).
    cbn [strings.TrimLeft]. rewrite in_cutset_amp.
    destruct (Ascii.eqb_spec c "&") as [->|Hc]; [exact IH|].
    by exists c, (s +:+ String a t).
Qed.

Lemma TrimRight_nonempty (b : ascii) (u : string) :
  b ≠ "&"%char → strings.TrimRight (String b u) "&" ≠ EmptyString.
Proof.
  intros Hb. cbn [strings.TrimRight]. rewrite in_cutset_amp.
  apply Ascii.eqb_neq in Hb as ->. by destruct (strings.TrimRight u "&").
Qed.

Lemma mysqlGenerateDSN_nonempty (rt : Runtime) (cfg : Config) :
  DSNString (mysqlGenerateDSN rt cfg) ≠ EmptyString.
Proof.
  rewrite mysqlGenerateDSN_string. unfold strings.Trim, mysql_base.
  rewrite !append_assoc.
  change (":" +:+ ?x) with (String ":" x).
  destruct (TrimLeft_reaches (get (DSNData cfg) "user") ":"
              (get (DSNData cfg) "pass" +:+ "@tcp(" +:+ get (DSNData cfg) "host"
               +:+ ":" +:+ default "3306" (default ∅ (DSNData cfg) !! "port")
               +:+ ")/" +:+ get (DSNData cfg) "name"
               +:+ (if 0 <? Z.of_nat (size (default ∅ (Params cfg)))
                    then "?" +:+ foldr (λ kv acc, (kv.1 +:+ "=" +:+ kv.2 +:+ "&") +:+ acc)
                                   EmptyString (map_range rt (default ∅ (Params cfg)))
                    else EmptyString)))
    as (b & u & Hb & Hu); [done|].
  rewrite Hu. by apply TrimRight_nonempty.
Qed.

Lemma foldl_append_nonempty (f : string * string → string)
    (l : list (string * string)) (cfg : Config) :
  DSNString cfg ≠ EmptyString →
  DSNString (foldl (λ cfg kv, set_DSNString (DSNString cfg +:+ f kv) cfg) cfg l)
  ≠ EmptyString.
Proof.
  intros Hne. rewrite DSNString_foldl. by destruct (DSNString cfg).
Qed.

Lemma generated_nonempty (rt : Runtime) (cfg : Config) :
  DSNString (oracleGenerateDSN cfg) ≠ EmptyString
  ∧ DSNString (pqGenerateDSN rt cfg) ≠ EmptyString
  ∧ DSNString (snowflakeGenerateDSN rt cfg) ≠ EmptyString.
Proof.
  split; [|split].
  - unfold oracleGenerateDSN. cbn [DSNString set_DSNString].
    apply append_cons_nonempty.
  - unfold pqGenerateDSN. cbn [Params set_DSNString].
    destruct (0 <? _); [apply foldl_append_nonempty|]; done.
  - unfold snowflakeGenerateDSN. cbn [Params set_DSNString].
    destruct (0 <? _); [apply foldl_append_nonempty|];
      cbn [DSNString set_DSNString]; apply append_cons_nonempty.
Qed.

Lemma DSN_keeps_a_string (rt : Runtime) (h : Hooks) (cfg : Config) :
  DSNString cfg ≠ EmptyString → DSN rt h cfg = (cfg, DSNString cfg).
Proof.
  intros Hne. unfold DSN. apply String.eqb_neq in Hne.
  rewrite String.eqb_sym in Hne. by rewrite Hne.
Qed.

(** X6. [DSN] keeps what it has made: a second call returns the same
    string and leaves the configuration as the first call left it, with
    the built-in generators always (each of them leaves a string that is
    not empty, and an unknown driver type leaves nothing to change), and
    with a [DSNFn] when the string it made is not empty. *)
Theorem DSN_twice (rt : Runtime) (h : Hooks) (cfg : Config) :
  DSNFn h = None ∨ (DSN rt h cfg).2 ≠ EmptyString →
  DSN rt h (DSN rt h cfg).1 = DSN rt h cfg.
Proof.
  intros Hh.
  destruct (decide (DSNString (DSN rt h cfg).1 = EmptyString)) as [He|Hne].
  - (* nothing was made: no string before, no [DSNFn], no engine *)
    destruct Hh as [Hfn|Hne]; [|done].
    destruct (decide (DSNString cfg = EmptyString)) as [Hs|Hs].
    + pose proof (DSN_builtin rt h cfg Hs Hfn) as Hb. cbv zeta in Hb.
      pose proof (mysqlGenerateDSN_nonempty rt
                    (set_DSNData (Some (default ∅ (DSNData cfg))) cfg)) as Hm.
      pose proof (generated_nonempty rt
                    (set_DSNData (Some (default ∅ (DSNData cfg))) cfg))
        as (Ho & Hp & Hsf).
      rewrite Hb in He.
      repeat (case_match; [congruence|]).
      rename Hb into Hc.
      assert (Hpair : DSN rt h cfg = ((DSN rt h cfg).1, DSNString (DSN rt h cfg).1))
        by reflexivity.
      rewrite Hpair at 2. rewrite Hc.
      unfold DSN, generateDSN. rewrite Hfn.
      cbn [DSNString set_DSNData DSNData DriverType]. rewrite Hs.
      cbn [String.eqb fst default].
      repeat (case_match; try congruence). cbn [fst]. by rewrite He.
    + rewrite (DSN_keeps_a_string rt h cfg Hs) in He. done.
  - rewrite (DSN_keeps_a_string rt h _ Hne). reflexivity.
Qed.

Lemma DSN_twice_witness :
  DSNFn no_hooks = None
  ∧ DSN ascii_rt no_hooks (DSN ascii_rt no_hooks mysql_test_config).1
    = DSN ascii_rt no_hooks mysql_test_config.
Proof.
  split; [exact eq_refl|].
  apply (DSN_twice ascii_rt no_hooks mysql_test_config (or_introl eq_refl)).
Defined.

(** ** What [ParseDSN] leaves alone *)

Lemma only_fills_refl (c : Config) : only_fills c c.
Proof. by repeat split. Qed.

Lemma only_fills_trans (a b c : Config) :
  only_fills a b → only_fills b c → only_fills a c.
Proof.
  intros ((? & ? & ? & ?) & ? & ?) ((? & ? & ? & ?) & ? & ?).
  repeat split; try congruence; auto.
Qed.

Lemma only_fills_put_data (k v : string) (c : Config) :
  only_fills c (put_data k v c).
Proof. repeat split; cbn; eauto. Qed.

Lemma only_fills_put_param (k v : string) (c : Config) :
  only_fills c (put_param k v c).
Proof. repeat split; cbn; eauto. Qed.

Lemma only_fills_set_Loc (l : option Location) (c : Config) :
  only_fills c (set_Loc l c).
Proof. repeat split; cbn; eauto. Qed.

Lemma only_fills_set_TLS (t : option tlsConfig) (c : Config) :
  only_fills c (set_TLS t c).
Proof. repeat split; cbn; eauto. Qed.

Lemma only_fills_foldl {A : Type} (f : Config → A → Config) (l : list A) :
  (∀ c x, only_fills c (f c x)) → ∀ c, only_fills c (foldl f c l).
Proof.
  intros Hf. induction l as [|x l IH]; intros c; simpl.
  - apply only_fills_refl.
  - eapply only_fills_trans; [apply Hf|apply IH].
Qed.

Lemma parseParam_only_fills (rt : Runtime) (v : string) (cfg : Config)
    (err : option error) :
  only_fills cfg (flow_cfg (parseParam rt v cfg err)).
Proof.
  unfold parseParam.
  repeat (case_match; cbn [flow_cfg];
          auto using only_fills_refl, only_fills_set_Loc, only_fills_set_TLS,
            only_fills_put_param).
Qed.

Lemma parseParams_only_fills (rt : Runtime) (vs : list string) :
  ∀ cfg err, only_fills cfg (flow_cfg (parseParams rt vs cfg err)).
Proof.
  induction vs as [|v vs IH]; intros cfg err; cbn [parseParams flow_cfg].
  - apply only_fills_refl.
  - pose proof (parseParam_only_fills rt v cfg err) as Hv.
    destruct (parseParam rt v cfg err) as [c e|c e]; [exact Hv|].
    eapply only_fills_trans; [exact Hv|apply IH].
Qed.

Lemma parseMatch_only_fills (rt : Runtime) (name match_ : string)
    (cfg : Config) (err : option error) :
  only_fills cfg (flow_cfg (parseMatch rt name match_ cfg err)).
Proof.
  unfold parseMatch.
  repeat (case_match; cbn [flow_cfg];
          auto using only_fills_refl, only_fills_put_data, parseParams_only_fills).
Qed.

Lemma parseMatches_only_fills (rt : Runtime) (named : list (string * string)) :
  ∀ cfg err, only_fills cfg (flow_cfg (parseMatches rt named cfg err)).
Proof.
  induction named as [|[name m] named IH]; intros cfg err;
    cbn [parseMatches flow_cfg].
  - apply only_fills_refl.
  - pose proof (parseMatch_only_fills rt name m cfg err) as Hv.
    destruct (parseMatch rt name m cfg err) as [c e|c e]; [exact Hv|].
    eapply only_fills_trans; [exact Hv|apply IH].
Qed.

Lemma oracleParseDSN_only_fills (cfg : Config) :
  only_fills cfg (oracleParseDSN cfg).1.
Proof.
  unfold oracleParseDSN. case_match; cbn [fst]; [|apply only_fills_refl].
  repeat (eapply only_fills_trans; [|apply only_fills_put_data]).
  apply only_fills_refl.
Qed.

Lemma postgresParseDSN_only_fills (rt : Runtime) (cfg : Config) :
  only_fills cfg (postgresParseDSN rt cfg).1.
Proof.
  unfold postgresParseDSN. destruct (pqParseDSN rt (DSNString cfg)) as [m [e|]];
    cbn [fst]; [apply only_fills_refl|].
  eapply only_fills_trans; [|apply only_fills_foldl].
  - repeat (eapply only_fills_trans; [|apply only_fills_put_data]).
    apply only_fills_refl.
  - intros c x. case_match; [apply only_fills_put_param|apply only_fills_refl].
Qed.

Lemma snowflakeParseDSN_only_fills (rt : Runtime) (cfg : Config) :
  only_fills cfg (snowflakeParseDSN rt cfg).1.
Proof.
  unfold snowflakeParseDSN.
  destruct (gosnowflake_ParseDSN rt (DSNString cfg)) as [p|e];
    cbn [fst]; [|apply only_fills_refl].
  eapply only_fills_trans; [|apply only_fills_foldl].
  - repeat (eapply only_fills_trans; [|apply only_fills_put_data]).
    apply only_fills_refl.
  - intros c x. apply only_fills_put_param.
Qed.

Lemma mysqlParseDSN_same_request (rt : Runtime) (cfg : Config) :
  same_request cfg (mysqlParseDSN rt cfg).1
  ∧ (is_Some (DSNData cfg) → is_Some (DSNData (mysqlParseDSN rt cfg).1)).
Proof.
  unfold mysqlParseDSN.
  destruct (mysql_ParseDSN rt (DSNString cfg)) as [p|e]; cbn; by eauto.
Qed.

Lemma with_maps_eq (cfg : Config) :
  (let cfg := match DSNData cfg with
              | None => set_DSNData (Some ∅) cfg
              | Some _ => cfg
              end in
   match Params cfg with
   | None => set_Params (Some ∅) cfg
   | Some _ => cfg
   end) = with_maps cfg.
Proof. by destruct cfg as [? ? ? [?|] ? ? [?|] ?]. Qed.

(** [ParseDSN] without a caller's parser, as a choice by driver type on
    the configuration with its maps made. *)
Lemma ParseDSN_builtin (rt : Runtime) (h : Hooks) (cfg : Config) :
  DSNParser h = None →
  ParseDSN rt h cfg
  = let c0 := with_maps cfg in
    if String.eqb EmptyString (DSNString cfg) then (c0, Some ErrDSNStringEmpty)
    else if String.eqb (DriverType cfg) "mysql" then mysqlParseDSN rt c0
    else if String.eqb (DriverType cfg) "oracle" then oracleParseDSN c0
    else if String.eqb (DriverType cfg) "postgres" then postgresParseDSN rt c0
    else if String.eqb (DriverType cfg) "snowflake" then snowflakeParseDSN rt c0
    else
      match parseMatches rt
              (zip dsnPattern_names
                 (regexp.FindStringSubmatch dsnPattern (DSNString cfg))) c0 None with
      | Return cfg err => (cfg, err)
      | Go cfg err =>
          (match Loc cfg with
           | None => set_Loc (Some UTC) cfg
           | Some _ => cfg
           end, err)
      end.
Proof.
  intros Hp. unfold ParseDSN. rewrite Hp. cbv zeta. rewrite with_maps_eq.
  reflexivity.
Qed.

(** X7. Without a caller's parser, [ParseDSN] never changes the DSN
    string, the driver type or the two names, whatever the engine and
    whether it fails or not; afterwards the data is a map, and so are the
    parameters unless the driver type is mysql (whose parser stores the
    driver's own parameters, which may be nil). *)
Theorem ParseDSN_keeps_the_request (rt : Runtime) (h : Hooks) (cfg : Config) :
  DSNParser h = None →
  same_request cfg (ParseDSN rt h cfg).1
  ∧ is_Some (DSNData (ParseDSN rt h cfg).1)
  ∧ (DriverType cfg ≠ "mysql" → is_Some (Params (ParseDSN rt h cfg).1)).
Proof.
  intros Hp. rewrite (ParseDSN_builtin rt h cfg Hp). cbv zeta.
  assert (H0 : only_fills (with_maps cfg) (with_maps cfg)) by apply only_fills_refl.
  assert (Hreq : same_request cfg (with_maps cfg)) by done.
  assert (Hd : is_Some (DSNData (with_maps cfg))) by (cbn; eauto).
  assert (Hq : is_Some (Params (with_maps cfg))) by (cbn; eauto).
  assert (Hfin : ∀ c, only_fills (with_maps cfg) c →
            same_request cfg c ∧ is_Some (DSNData c)
            ∧ (DriverType cfg ≠ "mysql" → is_Some (Params c))).
  { intros c ((? & ? & ? & ?) & Hd' & Hq').
    destruct Hreq as (? & ? & ? & ?).
    repeat split; try congruence; auto. }
  destruct (String.eqb EmptyString (DSNString cfg)); [by apply Hfin|].
  destruct (String.eqb_spec (DriverType cfg) "mysql") as [Hm|Hm].
  { destruct (mysqlParseDSN_same_request rt (with_maps cfg)) as [(? & ? & ? & ?) Hd'].
    destruct Hreq as (? & ? & ? & ?).
    repeat split; try congruence; auto. }
  destruct (String.eqb (DriverType cfg) "oracle");
    [apply Hfin, oracleParseDSN_only_fills|].
  destruct (String.eqb (DriverType cfg) "postgres");
    [apply Hfin, postgresParseDSN_only_fills|].
  destruct (String.eqb (DriverType cfg) "snowflake");
    [apply Hfin, snowflakeParseDSN_only_fills|].
  pose proof (parseMatches_only_fills rt
                (zip dsnPattern_names
                   (regexp.FindStringSubmatch dsnPattern (DSNString cfg)))
                (with_maps cfg) None) as Hm'.
  destruct (parseMatches rt _ (with_maps cfg) None) as [c e|c e];
    cbn [flow_cfg fst] in *; [by apply Hfin|].
  apply Hfin. destruct (Loc c); [exact Hm'|].
  eapply only_fills_trans; [exact Hm'|apply only_fills_set_Loc].
Qed.

Lemma ParseDSN_keeps_the_request_witness :
  let cfg := config_of "postgres" "user=u host=h sslmode=disable" None None in
  DSNParser no_hooks = None
  ∧ DSNString (ParseDSN ascii_rt no_hooks cfg).1 = "user=u host=h sslmode=disable"
  ∧ is_Some (Params (ParseDSN ascii_rt no_hooks cfg).1).
Proof.
  intros cfg.
  destruct (ParseDSN_keeps_the_request ascii_rt no_hooks cfg eq_refl)
    as ((Hs & _) & _ & Hq).
  split; [exact eq_refl|]. split; [exact Hs|]. apply Hq. discriminate.
Defined.

(** X8. An engine's parser that fails has written nothing: with one of
    the four driver types and no caller's parser, a [ParseDSN] that returns
    an error leaves the configuration as it was, but for the two maps,
    which are made when they were nil. *)
Theorem ParseDSN_engine_failure_writes_nothing (rt : Runtime) (h : Hooks)
    (cfg : Config) (e : error) :
  DSNParser h = None →
  DriverType cfg ∈ engines →
  (ParseDSN rt h cfg).2 = Some e →
  (ParseDSN rt h cfg).1 = with_maps cfg
  ∧ DSNData (ParseDSN rt h cfg).1 = Some (default ∅ (DSNData cfg))
  ∧ Params (ParseDSN rt h cfg).1 = Some (default ∅ (Params cfg))
  ∧ Loc (ParseDSN rt h cfg).1 = Loc cfg
  ∧ TLS (ParseDSN rt h cfg).1 = TLS cfg
  ∧ same_request cfg (ParseDSN rt h cfg).1.
Proof.
  intros Hp Hty Herr.
  assert (Heq : (ParseDSN rt h cfg).1 = with_maps cfg).
  { revert Herr. rewrite (ParseDSN_builtin rt h cfg Hp). cbv zeta.
    destruct (String.eqb EmptyString (DSNString cfg)); [done|].
    unfold engines in Hty. rewrite !elem_of_cons, elem_of_nil in Hty.
    destruct Hty as [Hty|[Hty|[Hty|[Hty|[]]]]]; rewrite Hty;
      cbn [String.eqb Ascii.eqb Bool.eqb].
    - unfold mysqlParseDSN. by destruct (mysql_ParseDSN rt _).
    - unfold oracleParseDSN. by case_match.
    - unfold postgresParseDSN. by destruct (pqParseDSN rt _) as [m [e'|]].
    - unfold snowflakeParseDSN. by destruct (gosnowflake_ParseDSN rt _). }
  rewrite Heq. by repeat split.
Qed.

Lemma ParseDSN_engine_failure_writes_nothing_witness :
  let cfg := config_of "postgres" "user=u host" (Some {["port" := "5432"]}) None in
  (ParseDSN ascii_rt no_hooks cfg).2 = Some (missing_eq "host")
  ∧ (ParseDSN ascii_rt no_hooks cfg).1 = with_maps cfg.
Proof.
  intros cfg.
  assert (He : (ParseDSN ascii_rt no_hooks cfg).2 = Some (missing_eq "host"))
    by (vm_compute; exact eq_refl).
  split; [exact He|].
  assert (Hty : DriverType cfg ∈ engines).
  { unfold engines. cbn [DriverType cfg config_of].
    do 2 apply list_elem_of_further. apply list_elem_of_here. }
  exact (proj1 (ParseDSN_engine_failure_writes_nothing ascii_rt no_hooks cfg
                  (missing_eq "host") eq_refl Hty He)).
Defined.

(** ** The fallback parser: its groups and its parameters *)

Lemma upto_until (c : ascii) (s : string) :
  strings.upto (String.length (until c s)) s = until c s.
Proof.
  induction s as [|a s IH]; simpl; [done|].
  destruct (Ascii.eqb a c); simpl; [done|]. by rewrite IH.
Qed.

(** [strings.SplitN(v, "=", 2)]: the text before the first equals sign
    and the text after it, or [v] alone when it has none. *)
Lemma SplitN_eq_2 (v : string) :
  strings.SplitN v "=" 2
  = if occurs "=" v then [until "=" v; past "=" v] else [v].
Proof.
  cbn [strings.SplitN]. rewrite Index_char.
  destruct (occurs "=" v) eqn:Ho; [|done].
  assert (H : (Z.of_nat (String.length (until "=" v)) <? 0) = false)
    by (apply Z.ltb_ge; lia).
  rewrite H, Nat2Z.id, upto_until. cbn [String.length].
  by rewrite from_past.
Qed.

Lemma parseParams_app (rt : Runtime) (vs ws : list string) :
  ∀ cfg err,
    parseParams rt (vs ++ ws) cfg err
    = match parseParams rt vs cfg err with
      | Return c e => Return c e
      | Go c e => parseParams rt ws c e
      end.
Proof.
  induction vs as [|v vs IH]; intros cfg err; cbn [app parseParams]; [done|].
  destruct (parseParam rt v cfg err); [done|apply IH].
Qed.

Lemma parseParam_loc (rt : Runtime) (name : string) (cfg : Config)
    (err : option error) :
  parseParam rt ("loc=" +:+ name) cfg err
  = match time_LoadLocation rt name with
    | inl l => Go (set_Loc (Some l) cfg) None
    | inr e => Return (set_Loc None cfg) (Some e)
    end.
Proof.
  unfold parseParam. rewrite SplitN_eq_2.
  change ("loc=" +:+ name) with (String "l" (String "o" (String "c" (String "=" name)))).
  reflexivity.
Qed.

(** An entry, by the text before and after its first equals sign. *)
Lemma parseParam_unfold (rt : Runtime) (v : string) (cfg : Config)
    (err : option error) :
  parseParam rt v cfg err
  = if occurs "=" v then
      if String.eqb (until "=" v) "loc" then
        match time_LoadLocation rt (past "=" v) with
        | inl l => Go (set_Loc (Some l) cfg) None
        | inr e => Return (set_Loc None cfg) (Some e)
        end
      else if String.eqb (until "=" v) "tls" then
        let '(boolValue, isBool) := readBool (past "=" v) in
        if isBool then
          if boolValue
          then Go (set_TLS (Some {| InsecureSkipVerify := false |}) cfg) err
          else Go cfg err
        else if String.eqb (strings_ToLower rt (past "=" v)) "skip-verify"
        then Go (set_TLS (Some {| InsecureSkipVerify := true |}) cfg) err
        else match tlsConfigRegister !! past "=" v with
             | Some tlsConfig => Go (set_TLS (Some tlsConfig) cfg) err
             | None => Go cfg (Some ErrInvalidTLSConfig)
             end
      else Go (put_param (until "=" v) (past "=" v) cfg) err
    else Go cfg err.
Proof.
  unfold parseParam. rewrite SplitN_eq_2.
  destruct (occurs "=" v); reflexivity.
Qed.

(** [Loc] after an entry that does not end the parse. *)
Lemma parseParam_Loc (rt : Runtime) (v : string) (c c' : Config)
    (err e' : option error) :
  parseParam rt v c err = Go c' e' →
  Loc c' = match loc_entry v with
           | Some name => match time_LoadLocation rt name with
                          | inl l => Some l
                          | inr _ => None
                          end
           | None => Loc c
           end.
Proof.
  rewrite parseParam_unfold. unfold loc_entry.
  destruct (occurs "=" v); cbn [andb]; [|by intros [= <- _]].
  destruct (String.eqb (until "=" v) "loc").
  - destruct (time_LoadLocation rt (past "=" v)); [by intros [= <- _]|done].
  - repeat (case_match; try discriminate); by intros [= <- _].
Qed.

Lemma parseParams_loc_after (rt : Runtime) (vs : list string) :
  ∀ (c c' : Config) (err e' : option error),
    parseParams rt vs c err = Go c' e' → Loc c' = loc_after rt vs (Loc c).
Proof.
  induction vs as [|v vs IH]; intros c c' err e'; cbn [parseParams loc_after].
  - by intros [= <- _].
  - destruct (parseParam rt v c err) as [c1 e1|c1 e1] eqn:Hv; [done|].
    intros H. rewrite (IH _ _ _ _ H). by rewrite (parseParam_Loc _ _ _ _ _ _ Hv).
Qed.

Lemma loc_after_none (rt : Runtime) (vs : list string) (loc : option Location) :
  Forall (λ v, loc_entry v = None) vs → loc_after rt vs loc = loc.
Proof.
  induction 1 as [|v vs Hv _ IH]; cbn [loc_after]; [done|]. by rewrite Hv.
Qed.

(** The loop over the groups of [dsnPattern]: seven writes to the data,
    then the parameters. *)
Lemma parseMatches_groups (rt : Runtime) (m0 m1 m2 m3 m4 m5 m6 m7 m8 : string)
    (cfg : Config) (err : option error) :
  parseMatches rt (zip dsnPattern_names [m0; m1; m2; m3; m4; m5; m6; m7; m8]) cfg err
  = match parseParams rt (strings.Split m8 "&")
            (put_data "name" m7
               (put_data "addr" m6
                  (put_data "net" m5
                     (put_data "pass" m4
                        (put_data "user" m3
                           (put_data "pass" m2
                              (put_data "user" m1 cfg)))))))
            err with
    | Return c e => Return c e
    | Go c e => Go c e
    end.
Proof. reflexivity. Qed.

(** [ParseDSN] on the fallback path: the parameters are read on a
    configuration that differs from the given one in its data only. *)
Lemma ParseDSN_fallback (rt : Runtime) (h : Hooks) (cfg : Config) :
  DSNParser h = None →
  DriverType cfg ∉ engines →
  DSNString cfg ≠ EmptyString →
  ∃ c0, Loc c0 = Loc cfg ∧ TLS c0 = TLS cfg
        ∧ Params c0 = Some (default ∅ (Params cfg))
        ∧ ParseDSN rt h cfg
          = match parseParams rt (dsn_params (DSNString cfg)) c0 None with
            | Return c e => (c, e)
            | Go c e => (match Loc c with
                         | None => set_Loc (Some UTC) c
                         | Some _ => c
                         end, e)
            end.
Proof.
  intros Hp Hty Hs. rewrite (ParseDSN_builtin rt h cfg Hp). cbv zeta.
  apply String.eqb_neq in Hs. rewrite String.eqb_sym in Hs. rewrite Hs.
  unfold engines in Hty. rewrite !elem_of_cons, elem_of_nil in Hty.
  destruct (String.eqb_spec (DriverType cfg) "mysql"); [tauto|].
  destruct (String.eqb_spec (DriverType cfg) "oracle"); [tauto|].
  destruct (String.eqb_spec (DriverType cfg) "postgres"); [tauto|].
  destruct (String.eqb_spec (DriverType cfg) "snowflake"); [tauto|].
  unfold dsn_params, regexp.FindStringSubmatch.
  destruct (regexp.find_from dsnPattern 0 (DSNString cfg)) as [[[b e] cs]|].
  - change (regexp.NumSubexp dsnPattern) with 8%nat.
    cbn [seq fmap list_fmap]. rewrite parseMatches_groups.
    change (at_index (?m0 :: ?m1 :: ?m2 :: ?m3 :: ?m4 :: ?m5 :: ?m6 :: ?m7 :: ?m8 :: []) 8)
      with m8.
    match goal with
    | |- context [parseParams rt ?vs ?c None] =>
        exists c; split; [reflexivity|]; split; [reflexivity|];
        split; [reflexivity|]; by destruct (parseParams rt vs c None)
    end.
  - exists (with_maps cfg). by repeat split.
Qed.

Lemma ParseDSN_fallback_Loc (rt : Runtime) (h : Hooks) (cfg cfg' : Config) :
  DSNParser h = None →
  DriverType cfg ∉ engines →
  ParseDSN rt h cfg = (cfg', None) →
  Loc cfg'
  = Some (default UTC (loc_after rt (dsn_params (DSNString cfg)) (Loc cfg))).
Proof.
  intros Hp Hty Hres.
  assert (Hs : DSNString cfg ≠ EmptyString).
  { intros Hs. rewrite (ParseDSN_builtin rt h cfg Hp) in Hres. cbv zeta in Hres.
    rewrite Hs in Hres. cbn [String.eqb] in Hres. discriminate. }
  destruct (ParseDSN_fallback rt h cfg Hp Hty Hs) as (c0 & Hl0 & _ & _ & Heq).
  rewrite Heq in Hres.
  destruct (parseParams rt (dsn_params (DSNString cfg)) c0 None)
    as [c e|c e] eqn:Hm.
  - injection Hres as <- ->. apply parseParams_Return in Hm. by destruct Hm.
  - apply parseParams_loc_after in Hm. rewrite Hl0 in Hm. rewrite <- Hm.
    injection Hres as <- _.
    destruct (Loc c) eqn:Hl; cbn [Loc set_Loc default]; by rewrite ?Hl.
Qed.

(** C2, as the code has it.  When [ParseDSN] takes the fallback parser
    (no custom parser, a driver type that is none of the four engines')
    and returns no error, [Loc] is set afterwards: it is what the
    parameter loop left, the location of the last [loc] parameter of the
    DSN or without one what [Loc] was, and UTC when that is nil.  On the
    other paths no default is applied: an engine's parser leaves [Loc] as
    it was, and a custom parser is handed the configuration with its maps
    made and has the last word. *)
Theorem ParseDSN_fallback_sets_Loc (rt : Runtime) (h : Hooks) (cfg : Config) :
  (DSNParser h = None →
   DriverType cfg ∉ engines →
   ∀ cfg', ParseDSN rt h cfg = (cfg', None) →
           is_Some (Loc cfg')
           ∧ Loc cfg'
             = Some (default UTC
                       (loc_after rt (dsn_params (DSNString cfg)) (Loc cfg)))
           ∧ (Loc cfg = None →
              Forall (λ v, loc_entry v = None) (dsn_params (DSNString cfg)) →
              Loc cfg' = Some UTC))
  ∧ (DSNParser h = None →
     DriverType cfg ∈ engines →
     Loc (ParseDSN rt h cfg).1 = Loc cfg)
  ∧ (∀ parser, DSNParser h = Some parser →
               DSNString cfg ≠ EmptyString →
               ∃ c, ParseDSN rt h cfg = parser c
                    ∧ DSNData c = Some (default ∅ (DSNData cfg))
                    ∧ Params c = Some (default ∅ (Params cfg))
                    ∧ Loc c = Loc cfg ∧ TLS c = TLS cfg
                    ∧ DSNString c = DSNString cfg
                    ∧ DriverType c = DriverType cfg
                    ∧ DatabaseName c = DatabaseName cfg
                    ∧ DriverName c = DriverName cfg).
Proof.
  split; [|split].
  - intros Hp Hty cfg' Hres.
    pose proof (ParseDSN_fallback_Loc rt h cfg cfg' Hp Hty Hres) as Hloc.
    split; [rewrite Hloc; eauto|]. split; [exact Hloc|].
    intros Hnil Hno. rewrite Hloc, (loc_after_none rt _ _ Hno), Hnil. reflexivity.
  - apply ParseDSN_engine_keeps_Loc.
  - intros parser Hp Hs.
    exists (set_Params (Some (default ∅ (Params cfg)))
              (set_DSNData (Some (default ∅ (DSNData cfg))) cfg)).
    split; [by apply ParseDSN_custom_parser|]. repeat split; reflexivity.
Qed.

Lemma ParseDSN_fallback_sets_Loc_witness :
  let cfg := config_of "" "user:secret@tcp(localhost:3306)/shop?charset=utf8" None None in
  (DSNParser no_hooks = None
   ∧ (DriverType cfg ∉ engines)
   ∧ ParseDSN ascii_rt no_hooks cfg = ((ParseDSN ascii_rt no_hooks cfg).1, None))
  ∧ Loc (ParseDSN ascii_rt no_hooks cfg).1 = Some UTC.
Proof.
  intros cfg.
  assert (H1 : DSNParser no_hooks = None) by exact eq_refl.
  assert (H2 : DriverType cfg ∉ engines)
    by (apply (bool_decide_unpack _); vm_compute; exact I).
  assert (H3 : ParseDSN ascii_rt no_hooks cfg = ((ParseDSN ascii_rt no_hooks cfg).1, None))
    by (vm_compute; exact eq_refl).
  assert (H4 : Forall (λ v, loc_entry v = None) (dsn_params (DSNString cfg))).
  { assert (Hd : dsn_params (DSNString cfg) = ["charset=utf8"])
      by (vm_compute; exact eq_refl).
    rewrite Hd. apply Forall_cons. split; [vm_compute; exact eq_refl|].
    apply Forall_nil_2. }
  exact (conj (conj H1 (conj H2 H3))
           (proj2 (proj2 (proj1 (ParseDSN_fallback_sets_Loc ascii_rt no_hooks cfg)
                            H1 H2 _ H3))
              eq_refl H4)).
Defined.

(** A [loc] parameter that resolves is what [Loc] holds afterwards. *)
Example ParseDSN_fallback_takes_the_loc_parameter :
  let cfg := config_of "" "/shop?charset=utf8&loc=Local" None None in
  ParseDSN ascii_rt no_hooks cfg = ((ParseDSN ascii_rt no_hooks cfg).1, None)
  ∧ Loc (ParseDSN ascii_rt no_hooks cfg).1 = Some (Zone "Local").
Proof. split; vm_compute; exact eq_refl. Qed.

(** ** What the engines' parsers store *)

(** A loop that stores the entries of a list whose keys pass [keep]:
    what a key holds afterwards. *)
Lemma foldl_put_param_lookup (keep : string → bool) (l : list (string * string)) :
  NoDup l.*1 →
  ∀ (cfg : Config) (k : string),
    default ∅ (Params (foldl (λ cfg kv, if keep kv.1 then put_param kv.1 kv.2 cfg
                                         else cfg) cfg l)) !! k
    = if keep k
      then match (list_to_map l : gmap string string) !! k with
           | Some v => Some v
           | None => default ∅ (Params cfg) !! k
           end
      else default ∅ (Params cfg) !! k.
Proof.
  induction l as [|[k0 v0] l IH]; intros Hnd cfg k.
  - cbn [foldl list_to_map foldr]. rewrite lookup_empty. by destruct (keep k).
  - cbn [fmap list_fmap fst] in Hnd. apply NoDup_cons in Hnd as [Hk0 Hnd].
    cbn [foldl fst snd]. rewrite (IH Hnd).
    change (list_to_map ((k0, v0) :: l) : gmap string string)
      with (<[k0 := v0]> (list_to_map l : gmap string string)).
    destruct (decide (k = k0)) as [->|Hne].
    + rewrite lookup_insert_eq.
      rewrite (not_elem_of_list_to_map_1 (M := gmap string) l k0 Hk0).
      destruct (keep k0); [|done].
      unfold put_param. cbn [Params set_Params default]. unfold id.
      by rewrite lookup_insert_eq.
    + rewrite lookup_insert_ne by done.
      destruct (keep k0); [|done].
      unfold put_param. cbn [Params set_Params default]. unfold id.
      by rewrite lookup_insert_ne.
Qed.

Lemma foldl_put_param_DSNData (keep : string → bool) (l : list (string * string)) :
  ∀ cfg : Config,
    DSNData (foldl (λ cfg kv, if keep kv.1 then put_param kv.1 kv.2 cfg else cfg)
               cfg l) = DSNData cfg.
Proof.
  induction l as [|x l IH]; intros cfg; cbn [foldl]; [done|].
  rewrite IH. by destruct (keep x.1).
Qed.

Lemma range_list_to_map (rt : Runtime) (m : gmap string string) :
  range_visits_each_entry_once rt →
  NoDup (map_range rt m).*1 ∧ list_to_map (map_range rt m) = m.
Proof.
  intros Hr. pose proof (Hr m) as Hp.
  assert (Hnd : NoDup (map_range rt m).*1).
  { rewrite Hp. apply NoDup_fst_map_to_list. }
  split; [exact Hnd|].
  rewrite (list_to_map_proper (M := gmap string) _ _ Hnd Hp).
  apply list_to_map_to_list.
Qed.

Lemma keep_not_reserved (k : string) :
  (negb (String.eqb k "host") && negb (String.eqb k "dbname")
   && negb (String.eqb k "password") && negb (String.eqb k "user"))
  = negb (bool_decide (k ∈ pq_reserved)).
Proof.
  unfold pq_reserved.
  destruct (String.eqb_spec k "host") as [->|H1]; [done|].
  destruct (String.eqb_spec k "dbname") as [->|H2]; [done|].
  destruct (String.eqb_spec k "password") as [->|H3]; [done|].
  destruct (String.eqb_spec k "user") as [->|H4]; [done|].
  symmetry. cbn [negb andb]. apply negb_true_iff, bool_decide_eq_false.
  rewrite !elem_of_cons, elem_of_nil. tauto.
Qed.

(** What [postgresParseDSN] stores when the tokenizer accepts the string. *)
Lemma postgresParseDSN_sorted (rt : Runtime) (c : Config)
    (parsed : gmap string string) :
  range_visits_each_entry_once rt →
  pqParseDSN rt (DSNString c) = (parsed, None) →
  (postgresParseDSN rt c).2 = None
  ∧ DSNData (postgresParseDSN rt c).1
    = Some (<["user" := get (Some parsed) "user"]>
              (<["pass" := get (Some parsed) "password"]>
                 (<["name" := get (Some parsed) "dbname"]>
                    (<["host" := get (Some parsed) "host"]>
                       (default ∅ (DSNData c))))))
  ∧ ∀ k, default ∅ (Params (postgresParseDSN rt c).1) !! k
         = if bool_decide (k ∈ pq_reserved) then default ∅ (Params c) !! k
           else match parsed !! k with
                | Some v => Some v
                | None => default ∅ (Params c) !! k
                end.
Proof.
  intros Hr Hparsed. unfold postgresParseDSN. rewrite Hparsed.
  cbn [fst snd]. split; [done|].
  set (keep := λ k : string,
         negb (String.eqb k "host") && negb (String.eqb k "dbname")
         && negb (String.eqb k "password") && negb (String.eqb k "user")).
  destruct (range_list_to_map rt parsed Hr) as [Hnd Hl].
  split.
  - exact (foldl_put_param_DSNData keep (map_range rt parsed) _).
  - intros k.
    rewrite (foldl_put_param_lookup keep (map_range rt parsed) Hnd).
    rewrite Hl. unfold keep. rewrite keep_not_reserved.
    by destruct (bool_decide (k ∈ pq_reserved)).
Qed.

(** X9. A PostgreSQL connection string that the tokenizer accepts: the
    four keys host, dbname, password and user go to the data under host,
    name, pass and user, a key that is missing as the empty string, and
    they never reach the parameters; every other key of the string
    becomes a parameter, over what the parameters held before. *)
Theorem postgres_ParseDSN_sorts_the_keys (rt : Runtime) (h : Hooks)
    (cfg : Config) (parsed : gmap string string) :
  range_visits_each_entry_once rt →
  DSNParser h = None →
  DriverType cfg = "postgres" →
  DSNString cfg ≠ EmptyString →
  pqParseDSN rt (DSNString cfg) = (parsed, None) →
  (ParseDSN rt h cfg).2 = None
  ∧ DSNData (ParseDSN rt h cfg).1
    = Some (<["user" := get (Some parsed) "user"]>
              (<["pass" := get (Some parsed) "password"]>
                 (<["name" := get (Some parsed) "dbname"]>
                    (<["host" := get (Some parsed) "host"]>
                       (default ∅ (DSNData cfg))))))
  ∧ ∀ k, default ∅ (Params (ParseDSN rt h cfg).1) !! k
         = if bool_decide (k ∈ pq_reserved) then default ∅ (Params cfg) !! k
           else (parsed ∪ default ∅ (Params cfg)) !! k.
Proof.
  intros Hr Hp Hty Hs Hparsed.
  rewrite (ParseDSN_builtin rt h cfg Hp). cbv zeta.
  apply String.eqb_neq in Hs. rewrite String.eqb_sym in Hs. rewrite Hs, Hty.
  cbn [String.eqb Ascii.eqb Bool.eqb].
  destruct (postgresParseDSN_sorted rt (with_maps cfg) parsed Hr Hparsed)
    as (He & Hd & Hq).
  split; [exact He|]. split; [exact Hd|].
  intros k. rewrite Hq.
  change (default ∅ (Params (with_maps cfg))) with (default ∅ (Params cfg)).
  destruct (bool_decide (k ∈ pq_reserved)); [done|].
  rewrite lookup_union.
  destruct (parsed !! k); by destruct (default ∅ (Params cfg) !! k).
Qed.

Lemma postgres_ParseDSN_sorts_the_keys_witness :
  let cfg := config_of "postgres" "user=u host=h sslmode=disable" None
               (Some {["user" := "kept"]}) in
  DSNData (ParseDSN ascii_rt no_hooks cfg).1
  = Some (list_to_map [("user", "u"); ("pass", EmptyString);
                       ("name", EmptyString); ("host", "h")])
  ∧ default ∅ (Params (ParseDSN ascii_rt no_hooks cfg).1) !! "sslmode" = Some "disable"
  ∧ default ∅ (Params (ParseDSN ascii_rt no_hooks cfg).1) !! "user" = Some "kept".
Proof.
  intros cfg.
  destruct (postgres_ParseDSN_sorts_the_keys ascii_rt no_hooks cfg
              (list_to_map [("user", "u"); ("host", "h"); ("sslmode", "disable")])
              ascii_rt_range eq_refl eq_refl)
    as (_ & Hd & Hq).
  - discriminate.
  - vm_compute. exact eq_refl.
  - split; [rewrite Hd; vm_compute; exact eq_refl|].
    split; rewrite Hq; vm_compute; exact eq_refl.
Defined.

(** X10. A Snowflake DSN that the driver accepts: the seven fields go to
    the data, and the driver's parameters are added to the parameters the
    configuration had, an old entry staying unless the DSN has its key. *)
Theorem snowflake_ParseDSN_merges_the_parameters (rt : Runtime) (h : Hooks)
    (cfg : Config) (parsed : snowflakeConfig) :
  range_visits_each_entry_once rt →
  DSNParser h = None →
  DriverType cfg = "snowflake" →
  DSNString cfg ≠ EmptyString →
  gosnowflake_ParseDSN rt (DSNString cfg) = inl parsed →
  (ParseDSN rt h cfg).2 = None
  ∧ DSNData (ParseDSN rt h cfg).1
    = Some (<["role" := sf_Role parsed]>
              (<["warehouse" := sf_Warehouse parsed]>
                 (<["schema" := sf_Schema parsed]>
                    (<["db" := sf_Database parsed]>
                       (<["account" := sf_Account parsed]>
                          (<["pass" := sf_Password parsed]>
                             (<["user" := sf_User parsed]>
                                (default ∅ (DSNData cfg)))))))))
  ∧ Params (ParseDSN rt h cfg).1
    = Some (sf_Params parsed ∪ default ∅ (Params cfg)).
Proof.
  intros Hr Hp Hty Hs Hparsed.
  rewrite (ParseDSN_builtin rt h cfg Hp). cbv zeta.
  apply String.eqb_neq in Hs. rewrite String.eqb_sym in Hs. rewrite Hs, Hty.
  cbn [String.eqb Ascii.eqb Bool.eqb].
  unfold snowflakeParseDSN.
  change (DSNString (with_maps cfg)) with (DSNString cfg). rewrite Hparsed.
  cbn [fst snd]. split; [done|].
  destruct (range_list_to_map rt (sf_Params parsed) Hr) as [Hnd Hl].
  split.
  - exact (foldl_put_param_DSNData (λ _, true) (map_range rt (sf_Params parsed)) _).
  - pose proof (foldl_put_param_lookup (λ _, true)
                  (map_range rt (sf_Params parsed)) Hnd) as Hlk.
    cbv beta iota in Hlk.
    pose proof (only_fills_foldl (λ cfg kv, put_param kv.1 kv.2 cfg)
                  (map_range rt (sf_Params parsed))
                  (λ c x, only_fills_put_param x.1 x.2 c)) as Hfill.
    match goal with |- Params ?c = _ => set (r := c) in * end.
    assert (Hsome : is_Some (Params r)).
    { subst r. eapply Hfill. cbn. eauto. }
    destruct Hsome as [q Hq]. rewrite Hq. f_equal.
    apply map_eq. intros k.
    assert (Hk : default ∅ (Params r) !! k
                 = match sf_Params parsed !! k with
                   | Some v => Some v
                   | None => default ∅ (Params cfg) !! k
                   end).
    { subst r. rewrite Hlk, Hl. reflexivity. }
    rewrite Hq in Hk. change (default ∅ (Some q)) with q in Hk.
    rewrite Hk, lookup_union.
    destruct (sf_Params parsed !! k); by destruct (default ∅ (Params cfg) !! k).
Qed.

Lemma snowflake_ParseDSN_merges_the_parameters_witness :
  let cfg := config_of "snowflake" "ann:secret@acme/sales/public" None
               (Some {["timezone" := "CET"; "retries" := "3"]}) in
  Params (ParseDSN (driver_rt my_example sf_example) no_hooks cfg).1
  = Some {["timezone" := "UTC"; "retries" := "3"]}.
Proof.
  intros cfg.
  destruct (snowflake_ParseDSN_merges_the_parameters
              (driver_rt my_example sf_example) no_hooks cfg sf_example
              ascii_rt_range eq_refl eq_refl)
    as (_ & _ & Hq).
  - discriminate.
  - exact eq_refl.
  - rewrite Hq. vm_compute. exact eq_refl.
Defined.

(** X11. A MySQL DSN that the driver accepts: the parameters the
    configuration had play no part, the result has the driver's
    parameters alone, nil when the driver gives none. *)
Theorem mysql_ParseDSN_replaces_the_parameters (rt : Runtime) (h : Hooks)
    (cfg : Config) (parsed : mysqlConfig) (before : option (gmap string string)) :
  DSNParser h = None →
  DriverType cfg = "mysql" →
  DSNString cfg ≠ EmptyString →
  mysql_ParseDSN rt (DSNString cfg) = inl parsed →
  ParseDSN rt h (set_Params before cfg) = ParseDSN rt h cfg
  ∧ (ParseDSN rt h cfg).2 = None
  ∧ Params (ParseDSN rt h cfg).1 = my_Params parsed.
Proof.
  intros Hp Hty Hs Hparsed.
  rewrite !(ParseDSN_builtin rt h _ Hp). cbv zeta.
  cbn [DSNString DriverType set_Params].
  apply String.eqb_neq in Hs. rewrite String.eqb_sym in Hs. rewrite Hs, Hty.
  cbn [String.eqb Ascii.eqb Bool.eqb].
  unfold mysqlParseDSN.
  change (DSNString (with_maps (set_Params before cfg))) with (DSNString cfg).
  change (DSNString (with_maps cfg)) with (DSNString cfg). rewrite Hparsed.
  by repeat split.
Qed.

Lemma mysql_ParseDSN_replaces_the_parameters_witness :
  let cfg := config_of "mysql" "root:secret@tcp(db1:3306)/shop" None
               (Some {["charset" := "utf8"]}) in
  Params (ParseDSN (driver_rt my_example sf_example) no_hooks cfg).1 = None.
Proof.
  intros cfg.
  destruct (mysql_ParseDSN_replaces_the_parameters
              (driver_rt my_example sf_example) no_hooks cfg my_example None
              eq_refl eq_refl)
    as (_ & _ & Hq).
  - discriminate.
  - exact eq_refl.
  - exact Hq.
Defined.

(** ** The fallback parser *)

Lemma parseParam_plain_entry (rt : Runtime) (v : string) (c : Config)
    (err : option error) :
  until "=" v ≠ "loc" → until "=" v ≠ "tls" →
  ∃ c', parseParam rt v c err = Go c' err ∧ Loc c' = Loc c.
Proof.
  intros Hl Ht. rewrite parseParam_unfold.
  apply String.eqb_neq in Hl, Ht. rewrite Hl, Ht.
  destruct (occurs "=" v); eexists; split; reflexivity.
Qed.

Lemma parseParams_plain_entries (rt : Runtime) (vs : list string) :
  Forall (λ v, until "=" v ≠ "loc" ∧ until "=" v ≠ "tls") vs →
  ∀ (c : Config) (err : option error),
    ∃ c', parseParams rt vs c err = Go c' err ∧ Loc c' = Loc c.
Proof.
  induction 1 as [|v vs [Hl Ht] _ IH]; intros c err; cbn [parseParams].
  - by exists c.
  - destruct (parseParam_plain_entry rt v c err Hl Ht) as (c1 & -> & Hc1).
    destruct (IH c1 err) as (c2 & -> & Hc2). exists c2. split; [done|].
    by rewrite Hc2.
Qed.

(** An entry stores nothing under a key other than the text before its
    first equals sign. *)
Lemma parseParam_other_key (rt : Runtime) (v : string) (c : Config)
    (err : option error) (k : string) :
  until "=" v ≠ k →
  default ∅ (Params (flow_cfg (parseParam rt v c err))) !! k
  = default ∅ (Params c) !! k.
Proof.
  intros Hk. rewrite parseParam_unfold.
  repeat (case_match; cbn [flow_cfg]; try reflexivity).
  unfold put_param. cbn [Params set_Params].
  change (default ∅ (Some ?m)) with m. by rewrite lookup_insert_ne.
Qed.

(** Entries whose [loc] entries all resolve do not end the parse. *)
Lemma parseParams_resolving (rt : Runtime) (vs : list string) :
  Forall (λ v, ∀ name, loc_entry v = Some name →
                       ∃ l, time_LoadLocation rt name = inl l) vs →
  ∀ (c : Config) (err : option error),
    ∃ c' e', parseParams rt vs c err = Go c' e'
             ∧ ∀ k, Forall (λ v, until "=" v ≠ k) vs →
                    default ∅ (Params c') !! k = default ∅ (Params c) !! k.
Proof.
  induction 1 as [|v vs Hv _ IH]; intros c err; cbn [parseParams].
  - by exists c, err.
  - pose proof (λ k, parseParam_other_key rt v c err k) as Hk.
    destruct (parseParam rt v c err) as [c1 e1|c1 e1] eqn:Hp.
    + exfalso. rewrite parseParam_unfold in Hp. unfold loc_entry in Hv.
      destruct (occurs "=" v); [|done]. cbn [andb] in Hv.
      destruct (String.eqb (until "=" v) "loc").
      * destruct (Hv _ eq_refl) as [l Hl]. by rewrite Hl in Hp.
      * repeat (case_match; try discriminate).
    + destruct (IH c1 e1) as (c2 & e2 & -> & Hc2). exists c2, e2.
      split; [done|]. intros k [Hk1 Hk2]%Forall_cons.
      rewrite (Hc2 k Hk2). exact (Hk k Hk1).
Qed.

(** X12. A [loc] parameter of a DSN that the fallback parser reads
    overwrites the function's error.  When the location resolves, and
    the entries after it are neither [loc] nor [tls] entries, [ParseDSN]
    returns no error and [Loc] is that location, also when a [tls] entry
    before it had left ErrInvalidTLSConfig.  When it does not resolve,
    [ParseDSN] returns the error of [time.LoadLocation] with [Loc] nil,
    and the entries after it are not read: a key that no entry before it
    has holds in [Params] what it held.  The entries before it may be
    any whose [loc] entries resolve. *)
Theorem loc_forgets_the_error_before_it (rt : Runtime) (h : Hooks) (cfg : Config)
    (pre rest : list string) (name : string) :
  DSNParser h = None →
  DriverType cfg ∉ engines →
  DSNString cfg ≠ EmptyString →
  dsn_params (DSNString cfg) = pre ++ ("loc=" +:+ name) :: rest →
  Forall (λ v, ∀ name, loc_entry v = Some name →
                       ∃ l, time_LoadLocation rt name = inl l) pre →
  match time_LoadLocation rt name with
  | inl l =>
      Forall (λ v, until "=" v ≠ "loc" ∧ until "=" v ≠ "tls") rest →
      (ParseDSN rt h cfg).2 = None ∧ Loc (ParseDSN rt h cfg).1 = Some l
  | inr e =>
      (ParseDSN rt h cfg).2 = Some e
      ∧ Loc (ParseDSN rt h cfg).1 = None
      ∧ ∀ k, Forall (λ v, until "=" v ≠ k) pre →
             default ∅ (Params (ParseDSN rt h cfg).1) !! k
             = default ∅ (Params cfg) !! k
  end.
Proof.
  intros Hp Hty Hs Hvs Hpre.
  destruct (ParseDSN_fallback rt h cfg Hp Hty Hs) as (c0 & _ & _ & Hq0 & Heq).
  rewrite Heq, Hvs, parseParams_app.
  destruct (parseParams_resolving rt pre Hpre c0 None) as (c1 & e1 & -> & Hkeys).
  cbn [parseParams]. rewrite parseParam_loc.
  destruct (time_LoadLocation rt name) as [l|e].
  - intros Hrest.
    destruct (parseParams_plain_entries rt rest Hrest (set_Loc (Some l) c1) None)
      as (c2 & -> & Hc2).
    cbn [Loc set_Loc] in Hc2. rewrite Hc2. by split.
  - split; [done|]. split; [done|]. intros k Hk. cbn [fst Params set_Loc].
    rewrite (Hkeys k Hk), Hq0. reflexivity.
Qed.

Lemma loc_forgets_the_error_before_it_witness :
  let cfg := config_of "sqlite" "/db?tls=bogus&loc=Local&charset=utf8" None None in
  dsn_params (DSNString cfg) = ["tls=bogus"] ++ ("loc=" +:+ "Local") :: ["charset=utf8"]
  ∧ parseParams ascii_rt ["tls=bogus"] cfg None = Go cfg (Some ErrInvalidTLSConfig)
  ∧ (ParseDSN ascii_rt no_hooks cfg).2 = None
  ∧ Loc (ParseDSN ascii_rt no_hooks cfg).1 = Some (Zone "Local").
Proof.
  intros cfg.
  assert (Hvs : dsn_params (DSNString cfg)
                = ["tls=bogus"] ++ ("loc=" +:+ "Local") :: ["charset=utf8"])
    by (vm_compute; exact eq_refl).
  split; [exact Hvs|]. split; [vm_compute; exact eq_refl|].
  assert (Hty : DriverType cfg ∉ engines)
    by (apply (bool_decide_unpack _); vm_compute; exact I).
  assert (Hs : DSNString cfg ≠ EmptyString) by discriminate.
  assert (Hpre : Forall (λ v, ∀ name, loc_entry v = Some name →
                   ∃ l, time_LoadLocation ascii_rt name = inl l) ["tls=bogus"]).
  { apply Forall_cons. split; [|apply Forall_nil_2]. intros name Hn.
    vm_compute in Hn. discriminate. }
  assert (Hrest : Forall (λ v, until "=" v ≠ "loc" ∧ until "=" v ≠ "tls")
                    ["charset=utf8"]).
  { apply Forall_cons. split; [|apply Forall_nil_2]. split; vm_compute; discriminate. }
  exact (loc_forgets_the_error_before_it ascii_rt no_hooks cfg ["tls=bogus"]
           ["charset=utf8"] "Local" eq_refl Hty Hs Hvs Hpre Hrest).
Defined.

(** The other case: a [loc] parameter that does not resolve ends the
    parse; the parameter after it is not stored, the one before it is. *)
Example ParseDSN_stops_at_a_failing_loc :
  let cfg := config_of "sqlite" "/db?a=1&loc=Nowhere&b=2" None None in
  (ParseDSN ascii_rt no_hooks cfg).2 = Some (Foreign "time" 0)
  ∧ Loc (ParseDSN ascii_rt no_hooks cfg).1 = None
  ∧ Params (ParseDSN ascii_rt no_hooks cfg).1 = Some {["a" := "1"]}.
Proof. repeat split; vm_compute; exact eq_refl. Qed.



(** The fallback parser writes the data under five keys only. *)
Lemma put_data_other (k v k' : string) (cfg : Config) :
  k' ≠ k →
  default ∅ (DSNData (put_data k v cfg)) !! k' = default ∅ (DSNData cfg) !! k'.
Proof.
  intros Hne. unfold put_data. cbn [DSNData set_DSNData].
  change (default ∅ (Some ?m)) with m. by rewrite lookup_insert_ne.
Qed.

Lemma parseParam_DSNData (rt : Runtime) (v : string) (cfg : Config)
    (err : option error) :
  DSNData (flow_cfg (parseParam rt v cfg err)) = DSNData cfg.
Proof. unfold parseParam. by repeat (case_match; cbn [flow_cfg]). Qed.

Lemma parseParams_DSNData (rt : Runtime) (vs : list string) :
  ∀ cfg err, DSNData (flow_cfg (parseParams rt vs cfg err)) = DSNData cfg.
Proof.
  induction vs as [|v vs IH]; intros cfg err; cbn [parseParams flow_cfg]; [done|].
  pose proof (parseParam_DSNData rt v cfg err) as Hv.
  destruct (parseParam rt v cfg err) as [c e|c e]; [exact Hv|].
  cbn [flow_cfg] in Hv. by rewrite IH.
Qed.

Lemma parseMatch_other_keys (rt : Runtime) (name match_ : string)
    (cfg : Config) (err : option error) (k : string) :
  k ∉ fallback_keys →
  default ∅ (DSNData (flow_cfg (parseMatch rt name match_ cfg err))) !! k
  = default ∅ (DSNData cfg) !! k.
Proof.
  unfold fallback_keys. rewrite !elem_of_cons, elem_of_nil. intros Hk.
  unfold parseMatch.
  repeat (case_match; cbn [flow_cfg]; try reflexivity;
          try (apply put_data_other; intros ->; tauto)).
  by rewrite parseParams_DSNData.
Qed.

Lemma parseMatches_other_keys (rt : Runtime) (named : list (string * string))
    (k : string) :
  k ∉ fallback_keys →
  ∀ cfg err,
    default ∅ (DSNData (flow_cfg (parseMatches rt named cfg err))) !! k
    = default ∅ (DSNData cfg) !! k.
Proof.
  intros Hk. induction named as [|[name m] named IH]; intros cfg err;
    cbn [parseMatches flow_cfg]; [done|].
  pose proof (parseMatch_other_keys rt name m cfg err k Hk) as Hv.
  destruct (parseMatch rt name m cfg err) as [c e|c e]; [exact Hv|].
  cbn [flow_cfg] in Hv. by rewrite IH.
Qed.

Lemma ParseDSN_fallback_other_keys (rt : Runtime) (h : Hooks) (cfg : Config)
    (k : string) :
  DSNParser h = None →
  DriverType cfg ∉ engines →
  k ∉ fallback_keys →
  default ∅ (DSNData (ParseDSN rt h cfg).1) !! k = default ∅ (DSNData cfg) !! k.
Proof.
  intros Hp Hty Hk. rewrite (ParseDSN_builtin rt h cfg Hp). cbv zeta.
  unfold engines in Hty. rewrite !elem_of_cons, elem_of_nil in Hty.
  assert (H0 : default ∅ (DSNData (with_maps cfg)) !! k
               = default ∅ (DSNData cfg) !! k) by reflexivity.
  destruct (String.eqb EmptyString (DSNString cfg)); [exact H0|].
  destruct (String.eqb_spec (DriverType cfg) "mysql"); [tauto|].
  destruct (String.eqb_spec (DriverType cfg) "oracle"); [tauto|].
  destruct (String.eqb_spec (DriverType cfg) "postgres"); [tauto|].
  destruct (String.eqb_spec (DriverType cfg) "snowflake"); [tauto|].
  pose proof (parseMatches_other_keys rt
                (zip dsnPattern_names
                   (regexp.FindStringSubmatch dsnPattern (DSNString cfg)))
                k Hk (with_maps cfg) None) as Hm.
  destruct (parseMatches rt _ (with_maps cfg) None) as [c e|c e];
    cbn [flow_cfg fst] in *; rewrite <- H0, <- Hm; [done|].
  by destruct (Loc c).
Qed.

(** X14. With a driver type that is none of the four engines, and no
    caller's parser, [ParseDSN] writes the data under the keys user, pass,
    net, addr and name only: every other key, host and port among them,
    holds what it held before, whatever the DSN string is. *)
Theorem ParseDSN_fallback_writes_five_keys (rt : Runtime) (h : Hooks)
    (cfg : Config) (k : string) :
  DSNParser h = None →
  DriverType cfg ∉ engines →
  k ∉ fallback_keys →
  get (DSNData (ParseDSN rt h cfg).1) k = get (DSNData cfg) k.
Proof.
  intros Hp Hty Hk. unfold get.
  by rewrite (ParseDSN_fallback_other_keys rt h cfg k Hp Hty Hk).
Qed.

Lemma ParseDSN_fallback_writes_five_keys_witness :
  let cfg := config_of "sqlite" "root:pw@tcp(db1:3306)/shop" None None in
  get (DSNData (ParseDSN ascii_rt no_hooks cfg).1) "addr" = "db1:3306"
  ∧ get (DSNData (ParseDSN ascii_rt no_hooks cfg).1) "host" = EmptyString.
Proof.
  intros cfg. split; [vm_compute; exact eq_refl|].
  rewrite (ParseDSN_fallback_writes_five_keys ascii_rt no_hooks cfg "host" eq_refl).
  - reflexivity.
  - apply (bool_decide_unpack _). vm_compute. exact I.
  - apply (bool_decide_unpack _). vm_compute. exact I.
Defined.

(** X15. The DSN callback of the instrumentation parses with an empty
    driver type, so without a caller's parser it takes the fallback
    parser, which stores the address under addr and never under host: the
    segment's host and its port are always set to the empty string. *)
Theorem parseDsnFn_host_is_empty (rt : Runtime) (h : Hooks)
    (segment : DatastoreSegment) (dsn : string) :
  DSNParser h = None →
  Host (parseDsnFn rt h segment dsn) = EmptyString
  ∧ PortPathOrID (parseDsnFn rt h segment dsn) = EmptyString
  ∧ Operation (parseDsnFn rt h segment dsn) = Operation segment
  ∧ Collection (parseDsnFn rt h segment dsn) = Collection segment
  ∧ ParameterizedQuery (parseDsnFn rt h segment dsn) = ParameterizedQuery segment
  ∧ seg_DatabaseName (parseDsnFn rt h segment dsn) = seg_DatabaseName segment.
Proof.
  intros Hp. unfold parseDsnFn. cbn [Host PortPathOrID Operation Collection
                                      ParameterizedQuery seg_DatabaseName].
  assert (Hh : ∀ cfg, DriverType cfg = EmptyString → DSNData cfg = None →
            get (DSNData (ParseDSN rt {| DSNFn := None; DSNParser := DSNParser h |}
                            cfg).1) "host" = EmptyString).
  { intros cfg Hty Hd. unfold get.
    rewrite ParseDSN_fallback_other_keys.
    - by rewrite Hd.
    - exact Hp.
    - rewrite Hty. apply (bool_decide_unpack _). vm_compute. exact I.
    - apply (bool_decide_unpack _). vm_compute. exact I. }
  rewrite Hh by done. by repeat split.
Qed.

Lemma parseDsnFn_host_is_empty_witness :
  let segment := {| seg_DatabaseName := "shop"; Host := "earlier";
                    PortPathOrID := "earlier"; ParameterizedQuery := EmptyString;
                    Operation := EmptyString; Collection := EmptyString |} in
  Host (parseDsnFn ascii_rt no_hooks segment "root:pw@tcp(db1:3306)/shop")
  = EmptyString.
Proof.
  intros segment.
  exact (proj1 (parseDsnFn_host_is_empty ascii_rt no_hooks segment
                  "root:pw@tcp(db1:3306)/shop" eq_refl)).
Defined.

(** X16. A [tls] entry of the fallback parser's parameters.  The four
    spellings of true set an empty TLS configuration, the four spellings
    of false change nothing, a value that [strings.ToLower] turns into
    skip-verify sets a configuration that skips verification, and, since
    nothing ever fills the register of named configurations, every other
    value leaves ErrInvalidTLSConfig as the function's error.  The loop
    goes on in every case, and no value switches TLS off once it is set. *)
Theorem tls_entry_only_sets (rt : Runtime) (value : string) (cfg : Config)
    (err : option error) :
  parseParam rt ("tls=" +:+ value) cfg err
  = (if bool_decide (value ∈ ["1"; "true"; "TRUE"; "True"])
     then Go (set_TLS (Some {| InsecureSkipVerify := false |}) cfg) err
     else if bool_decide (value ∈ ["0"; "false"; "FALSE"; "False"])
     then Go cfg err
     else if String.eqb (strings_ToLower rt value) "skip-verify"
     then Go (set_TLS (Some {| InsecureSkipVerify := true |}) cfg) err
     else Go cfg (Some ErrInvalidTLSConfig))
  ∧ (is_Some (TLS cfg) →
     is_Some (TLS (flow_cfg (parseParam rt ("tls=" +:+ value) cfg err)))).
Proof.
  assert (Heq : parseParam rt ("tls=" +:+ value) cfg err
                = (if bool_decide (value ∈ ["1"; "true"; "TRUE"; "True"])
                   then Go (set_TLS (Some {| InsecureSkipVerify := false |}) cfg) err
                   else if bool_decide (value ∈ ["0"; "false"; "FALSE"; "False"])
                   then Go cfg err
                   else if String.eqb (strings_ToLower rt value) "skip-verify"
                   then Go (set_TLS (Some {| InsecureSkipVerify := true |}) cfg) err
                   else Go cfg (Some ErrInvalidTLSConfig))).
  { unfold parseParam. rewrite SplitN_eq_2.
    change ("tls=" +:+ value)
      with (String "t" (String "l" (String "s" (String "=" value)))).
    cbn [occurs until past Ascii.eqb Bool.eqb orb length Nat.eqb negb at_index
         lookup list_lookup].
    change (at_index ["tls"; value] 0) with "tls".
    change (at_index ["tls"; value] 1) with value.
    cbn [String.eqb Ascii.eqb Bool.eqb]. unfold readBool.
    destruct (bool_decide (value ∈ ["1"; "true"; "TRUE"; "True"])); [done|].
    destruct (bool_decide (value ∈ ["0"; "false"; "FALSE"; "False"])); [done|].
    destruct (String.eqb (strings_ToLower rt value) "skip-verify"); [done|].
    unfold tlsConfigRegister. by rewrite lookup_empty. }
  split; [exact Heq|]. rewrite Heq. intros Hset.
  repeat (case_match; cbn [flow_cfg TLS set_TLS]; eauto).
Qed.

Lemma tls_entry_only_sets_witness :
  let cfg := set_TLS (Some {| InsecureSkipVerify := true |})
               (config_of EmptyString EmptyString (Some ∅) (Some ∅)) in
  parseParam ascii_rt "tls=false" cfg None = Go cfg None
  ∧ is_Some (TLS (flow_cfg (parseParam ascii_rt "tls=false" cfg None))).
Proof.
  intros cfg.
  destruct (tls_entry_only_sets ascii_rt "false" cfg None) as [Heq Hset].
  split; [exact Heq|]. apply Hset. cbn. eauto.
Defined.

(** ** The tokenizer, further *)

Section tokenizer_more.

Variable rt : Runtime.

Lemma SkipSpaces_stop (r : rune) (s : pqscanner) :
  IsSpace r = false → SkipSpaces (r :: s) = (r, true, s).
Proof. intros H. cbn [SkipSpaces]. by rewrite H. Qed.

Lemma SkipSpaces_blank (ws : pqscanner) :
  forallb IsSpace ws = true → SkipSpaces ws = (0, false, []).
Proof.
  induction ws as [|w ws IH]; cbn [forallb SkipSpaces]; [done|].
  intros [Hw Hws]%andb_prop. rewrite Hw. by apply IH.
Qed.

Lemma pqLoop_fuel_agree (f1 : nat) :
  ∀ (f2 : nat) (o : gmap string string) (s : pqscanner) r1 r2,
    pqLoop rt f1 o s = Some r1 → pqLoop rt f2 o s = Some r2 → r1 = r2.
Proof.
  induction f1 as [|f1 IH]; intros f2 o s r1 r2; [done|].
  destruct f2 as [|f2]; [done|]. cbn [pqLoop].
  destruct (pqTurnOf rt s) as [|e|k|k v s']; try congruence.
  apply IH.
Qed.

(** The result of [pqParseDSN], from the place its first pairs lead to. *)
Lemma pqParseDSN_from (dsn : string) (n fuel : nat) (o : gmap string string)
    (s : pqscanner) (res : gmap string string * option error) :
  pqPairs rt n ∅ (runes_of_string rt dsn) = Some (o, s) →
  pqLoop rt fuel o s = Some res →
  pqParseDSN rt dsn = res.
Proof.
  intros Hp Hres. pose proof (pqParseDSN_pqLoop rt dsn) as Hl.
  rewrite <- (pqLoop_pqPairs rt _ _ _ _ _ Hp fuel) in Hres.
  symmetry. exact (pqLoop_fuel_agree _ _ _ _ _ _ Hres Hl).
Qed.

Lemma eq_not_space : IsSpace rune_eq = false.
Proof. vm_compute. reflexivity. Qed.

(** One turn of the tokenizer up to the value: white space before the
    key, around the equals sign and before the value is skipped. *)
Lemma pqTurnOf_to_value (lead key ws1 ws2 rest : list rune) :
  forallb IsSpace lead = true →
  pq_key key = true →
  forallb IsSpace ws1 = true →
  forallb IsSpace ws2 = true →
  pqTurnOf rt (lead ++ key ++ ws1 ++ rune_eq :: ws2 ++ rest)
  = match SkipSpaces rest with
    | (r, true, s) =>
        match (if negb (r =? rune_quote) then scanValue [] r s
               else scanQuoted [] s) with
        | inl err => TurnFail err
        | inr (v, s') => TurnPair key v s'
        end
    | (_, false, _) => TurnLast key
    end.
Proof.
  intros Hlead Hkey Hws1 Hws2.
  destruct key as [|r more]; [done|]. cbn [pq_key forallb] in Hkey.
  apply andb_prop in Hkey as [Hr Hmore].
  assert (Hr' := Hr). unfold key_rune in Hr'.
  apply andb_prop in Hr' as [Hrs _]. apply negb_true_iff in Hrs.
  unfold pqTurnOf. rewrite SkipSpaces_app by done.
  cbn [app SkipSpaces]. rewrite Hrs. cbn [negb].
  assert (Ht : match ws1 ++ rune_eq :: ws2 ++ rest with
               | [] => True
               | x :: _ => key_rune x = false
               end).
  { destruct ws1 as [|w ws1]; cbn [app].
    - unfold key_rune. by rewrite Z.eqb_refl, andb_false_r.
    - cbn [forallb] in Hws1. apply andb_prop in Hws1 as [Hw _].
      by apply space_not_key. }
  rewrite scanKey_key by done.
  destruct ws1 as [|w ws1]; cbn [app].
  - rewrite Z.eqb_refl. cbn [negb]. rewrite Z.eqb_refl. cbn [negb orb].
    rewrite SkipSpaces_app by done.
    destruct (SkipSpaces rest) as [[r4 [|]] s4]; reflexivity.
  - cbn [forallb] in Hws1. apply andb_prop in Hws1 as [Hw Hws1].
    rewrite (space_not_eq w Hw). cbn [negb].
    rewrite SkipSpaces_app by done.
    rewrite (SkipSpaces_stop rune_eq _ eq_not_space).
    rewrite Z.eqb_refl. cbn [negb orb].
    rewrite SkipSpaces_app by done.
    destruct (SkipSpaces rest) as [[r4 [|]] s4]; reflexivity.
Qed.

Lemma scanValue_stop (acc : list rune) (r : rune) (s : pqscanner) :
  IsSpace r = true → scanValue acc r s = inr (acc, s).
Proof. intros H. destruct s; cbn [scanValue]; by rewrite H. Qed.

(** An unquoted value runs to the next white space, which is consumed,
    or to the end of the text. *)
Lemma scanValue_plain (more : list rune) :
  ∀ (acc : list rune) (r : rune) (t : list rune),
    plain_rune r = true →
    forallb plain_rune more = true →
    match t with [] => True | x :: _ => IsSpace x = true end →
    scanValue acc r (more ++ t)
    = inr (acc ++ r :: more, match t with [] => [] | _ :: t' => t' end).
Proof.
  induction more as [|y more IH]; intros acc r t Hr Hmore Ht.
  - unfold plain_rune in Hr. apply andb_prop in Hr as [Hs Hb].
    apply negb_true_iff in Hb.
    destruct t as [|x t]; cbn [app scanValue]; rewrite Hs, Hb; [done|].
    by rewrite scanValue_stop.
  - cbn [forallb] in Hmore. apply andb_prop in Hmore as [Hy Hmore].
    unfold plain_rune in Hr. apply andb_prop in Hr as [Hs Hb].
    apply negb_true_iff in Hb.
    cbn [app scanValue]. rewrite Hs, Hb.
    rewrite IH by done. by rewrite <- app_assoc.
Qed.

(** A quoted value is read back as it was before it was escaped. *)
Lemma scanQuoted_escape (v : list rune) :
  ∀ (acc : list rune) (t : list rune),
    scanQuoted acc (pq_escape v ++ rune_quote :: t) = inr (acc ++ v, t).
Proof.
  induction v as [|r v IH]; intros acc t.
  - cbn [pq_escape flat_map app scanQuoted]. rewrite Z.eqb_refl.
    by rewrite app_nil_r.
  - change (pq_escape (r :: v))
      with ((if (r =? rune_quote) || (r =? rune_backslash)
             then [rune_backslash; r] else [r]) ++ pq_escape v).
    destruct (Z.eqb_spec r rune_quote) as [->|Hq].
    + cbn [orb app scanQuoted].
      change (rune_backslash =? rune_quote) with false.
      rewrite Z.eqb_refl. cbv iota. rewrite IH. by rewrite <- app_assoc.
    + destruct (Z.eqb_spec r rune_backslash) as [->|Hb].
      * cbn [orb app scanQuoted].
        change (rune_backslash =? rune_quote) with false.
        rewrite Z.eqb_refl. cbv iota. rewrite IH. by rewrite <- app_assoc.
      * cbn [orb app scanQuoted].
        apply Z.eqb_neq in Hq, Hb. rewrite Hq, Hb.
        rewrite IH. by rewrite <- app_assoc.
Qed.

(** Without a closing quote the quoted value never ends well. *)
Lemma scanQuoted_open (n : nat) :
  ∀ (s : pqscanner) (acc : list rune),
    (length s ≤ n)%nat →
    forallb (λ r, negb (r =? rune_quote)) s = true →
    scanQuoted acc s = inl unterminated_quote.
Proof.
  induction n as [|n IH]; intros s acc Hn Hs.
  - destruct s; [reflexivity|simpl in Hn; lia].
  - destruct s as [|x s]; [reflexivity|].
    cbn [forallb] in Hs. apply andb_prop in Hs as [Hx Hs].
    apply negb_true_iff in Hx. cbn [scanQuoted]. rewrite Hx.
    destruct (x =? rune_backslash).
    + destruct s as [|y s]; [reflexivity|].
      cbn [forallb] in Hs. apply andb_prop in Hs as [_ Hs].
      apply IH; [simpl in Hn |- *; lia|done].
    + apply IH; [simpl in Hn; lia|done].
Qed.

(** An unquoted value whose last rune is a backslash that ends the text. *)
Lemma scanValue_dangling (v : list rune) :
  ∀ acc : list rune,
    forallb plain_rune v = true →
    match v ++ [rune_backslash] with
    | r :: s => scanValue acc r s = inl missing_after_backslash
    | [] => True
    end.
Proof.
  induction v as [|r v IH]; intros acc Hv.
  - reflexivity.
  - cbn [forallb] in Hv. apply andb_prop in Hv as [Hr Hv].
    unfold plain_rune in Hr. apply andb_prop in Hr as [Hs Hb].
    apply negb_true_iff in Hb.
    specialize (IH (acc ++ [r]) Hv). cbn [app].
    destruct (v ++ [rune_backslash]) as [|r' s'] eqn:Hvs.
    + by destruct v.
    + cbn [scanValue]. rewrite Hs, Hb. exact IH.
Qed.

Lemma pqLoop_error (fuel : nat) :
  ∀ (o : gmap string string) (s : pqscanner) m e,
    pqLoop rt fuel o s = Some (m, Some e) → m = ∅.
Proof.
  induction fuel as [|fuel IH]; intros o s m e; [done|]. cbn [pqLoop].
  destruct (pqTurnOf rt s) as [|e'|k|k v s']; try congruence.
  apply IH.
Qed.

Lemma plain_value_head (v : list rune) :
  plain_value v = true →
  ∃ r more, v = r :: more ∧ (r =? rune_quote) = false ∧ IsSpace r = false
            ∧ plain_rune r = true ∧ forallb plain_rune more = true.
Proof.
  destruct v as [|r more]; [done|]. cbn [plain_value forallb].
  intros [Hq [Hr Hm]%andb_prop]%andb_prop. exists r, more.
  apply negb_true_iff in Hq. assert (Hr' := Hr). unfold plain_rune in Hr'.
  apply andb_prop in Hr' as [Hs _]. apply negb_true_iff in Hs. done.
Qed.

(** One turn on a pair whose value stands without quotes. *)
Lemma pqTurnOf_plain (lead key ws1 ws2 v t : list rune) :
  forallb IsSpace lead = true →
  pq_key key = true →
  forallb IsSpace ws1 = true →
  forallb IsSpace ws2 = true →
  plain_value v = true →
  match t with [] => True | x :: _ => IsSpace x = true end →
  pqTurnOf rt (lead ++ key ++ ws1 ++ rune_eq :: ws2 ++ v ++ t)
  = TurnPair key v (match t with [] => [] | _ :: t' => t' end).
Proof.
  intros Hlead Hkey Hws1 Hws2 Hv Ht.
  rewrite pqTurnOf_to_value by done.
  destruct (plain_value_head v Hv) as (r & more & -> & Hq & Hs & Hr & Hm).
  cbn [app]. rewrite SkipSpaces_stop by done. rewrite Hq. cbn [negb].
  by rewrite scanValue_plain.
Qed.

(** One turn on a pair whose value stands in quotes. *)
Lemma pqTurnOf_quoted (lead key ws1 ws2 v t : list rune) :
  forallb IsSpace lead = true →
  pq_key key = true →
  forallb IsSpace ws1 = true →
  forallb IsSpace ws2 = true →
  pqTurnOf rt (lead ++ key ++ ws1 ++ rune_eq :: ws2 ++ pq_quote v ++ t)
  = TurnPair key v t.
Proof.
  intros Hlead Hkey Hws1 Hws2.
  rewrite pqTurnOf_to_value by done.
  unfold pq_quote. cbn [app]. rewrite SkipSpaces_stop by (vm_compute; reflexivity).
  rewrite Z.eqb_refl. cbn [negb].
  rewrite <- app_assoc. cbn [app]. by rewrite scanQuoted_escape.
Qed.

Lemma pqTurnOf_blank (ws : list rune) :
  forallb IsSpace ws = true → pqTurnOf rt ws = TurnBreak.
Proof. intros H. unfold pqTurnOf. by rewrite SkipSpaces_blank. Qed.

Lemma pqLoop_pair (fuel : nat) (o : gmap string string) (s : pqscanner)
    (k v : list rune) (s' : pqscanner) :
  pqTurnOf rt s = TurnPair k v s' →
  pqLoop rt (S fuel) o s
  = pqLoop rt fuel (<[string_of_runes rt k := string_of_runes rt v]> o) s'.
Proof. intros H. cbn [pqLoop]. by rewrite H. Qed.

Lemma pqLoop_render (ps : list (list rune * list rune)) :
  Forall (λ kv, pq_key kv.1 = true ∧ plain_value kv.2 = true) ps →
  ∀ o, pqLoop rt (S (length ps)) o (pq_render ps) = Some (pq_store rt o ps, None).
Proof.
  induction ps as [|[k v] ps IH]; intros Hps o.
  - reflexivity.
  - apply Forall_cons in Hps as [[Hk Hv] Hps]. cbn [fst snd] in Hk, Hv.
    cbn [length pq_render].
    assert (Ht : pqTurnOf rt
                   (k ++ rune_eq :: v ++ match ps with
                                         | [] => []
                                         | _ => 32 :: pq_render ps
                                         end)
                 = TurnPair k v (pq_render ps)).
    { pose proof (pqTurnOf_plain [] k [] [] v
                    (match ps with [] => [] | _ => 32 :: pq_render ps end)) as H.
      cbn [app] in H. rewrite H; try done.
      - by destruct ps.
      - by destruct ps. }
    rewrite (pqLoop_pair _ _ _ _ _ _ Ht). rewrite (IH Hps). reflexivity.
Qed.

End tokenizer_more.

(** X17. When [pqParseDSN] returns an error, the mapping it returns is
    empty: the pairs read before the error are dropped. *)
Theorem pqParseDSN_error_drops_the_pairs (rt : Runtime) (dsn : string) (e : error) :
  (pqParseDSN rt dsn).2 = Some e → (pqParseDSN rt dsn).1 = ∅.
Proof.
  pose proof (pqParseDSN_pqLoop rt dsn) as Hl.
  destruct (pqParseDSN rt dsn) as [m err]. cbn [fst snd]. intros ->.
  exact (pqLoop_error rt _ _ _ _ _ Hl).
Qed.

Lemma pqParseDSN_error_drops_the_pairs_witness :
  (pqParseDSN ascii_rt "host=db1 user='ann").2 = Some unterminated_quote
  ∧ (pqParseDSN ascii_rt "host=db1 user='ann").1 = ∅.
Proof.
  assert (H : (pqParseDSN ascii_rt "host=db1 user='ann").2 = Some unterminated_quote)
    by (vm_compute; exact eq_refl).
  split; [exact H|].
  exact (pqParseDSN_error_drops_the_pairs ascii_rt "host=db1 user='ann" _ H).
Defined.

(** X18. A connection string of white space alone, the empty one
    included, is accepted and gives no pair. *)
Theorem pqParseDSN_blank (rt : Runtime) (dsn : string) :
  forallb IsSpace (runes_of_string rt dsn) = true →
  pqParseDSN rt dsn = (∅, None).
Proof.
  intros H. apply (pqParseDSN_from rt dsn 0 1 ∅ (runes_of_string rt dsn));
    [reflexivity|].
  cbn [pqLoop]. by rewrite pqTurnOf_blank.
Qed.

Lemma pqParseDSN_blank_witness :
  pqParseDSN ascii_rt "   " = (∅, None).
Proof.
  apply (pqParseDSN_blank ascii_rt "   "). vm_compute. exact eq_refl.
Defined.

(** X19. Any value at all, written between single quotes with a
    backslash before each of its quotes and backslashes, is read back as
    it was: after any number of pairs, with white space allowed before the
    key, around the equals sign and after the closing quote. *)
Theorem pqParseDSN_reads_back_a_quoted_value (rt : Runtime) (dsn : string)
    (n : nat) (o : gmap string string) (lead key ws1 ws2 v trail : list rune) :
  pqPairs rt n ∅ (runes_of_string rt dsn)
  = Some (o, lead ++ key ++ ws1 ++ rune_eq :: ws2 ++ pq_quote v ++ trail) →
  forallb IsSpace lead = true →
  pq_key key = true →
  forallb IsSpace ws1 = true →
  forallb IsSpace ws2 = true →
  forallb IsSpace trail = true →
  pqParseDSN rt dsn
  = (<[string_of_runes rt key := string_of_runes rt v]> o, None).
Proof.
  intros Hp Hlead Hkey Hws1 Hws2 Htrail.
  apply (pqParseDSN_from rt dsn n 2 o _ _ Hp).
  cbn [pqLoop]. rewrite pqTurnOf_quoted by done.
  by rewrite pqTurnOf_blank.
Qed.

Lemma pqParseDSN_reads_back_a_quoted_value_witness :
  pqParseDSN ascii_rt "a=1 msg = 'it\'s \\ here' "
  = ({["a" := "1"; "msg" := "it's \ here"]}, None).
Proof.
  rewrite (pqParseDSN_reads_back_a_quoted_value ascii_rt
             "a=1 msg = 'it\'s \\ here' " 1 {["a" := "1"]}
             [] [109; 115; 103] [32] [32]
             [105; 116; 39; 115; 32; 92; 32; 104; 101; 114; 101] [32]).
  - vm_compute. exact eq_refl.
  - vm_compute. exact eq_refl.
  - reflexivity.
  - vm_compute. exact eq_refl.
  - vm_compute. exact eq_refl.
  - vm_compute. exact eq_refl.
  - vm_compute. exact eq_refl.
Defined.

(** X20. White space after the equals sign is skipped before the value
    is read, so an unquoted value is the next run of runes up to white
    space or the end, equals signs included: a pair whose value was left
    empty takes the pair that follows as its value. *)
Theorem pqParseDSN_skips_to_the_value (rt : Runtime) (dsn : string)
    (n : nat) (o : gmap string string) (lead key ws1 ws2 v trail : list rune) :
  pqPairs rt n ∅ (runes_of_string rt dsn)
  = Some (o, lead ++ key ++ ws1 ++ rune_eq :: ws2 ++ v ++ trail) →
  forallb IsSpace lead = true →
  pq_key key = true →
  forallb IsSpace ws1 = true →
  forallb IsSpace ws2 = true →
  plain_value v = true →
  forallb IsSpace trail = true →
  pqParseDSN rt dsn
  = (<[string_of_runes rt key := string_of_runes rt v]> o, None).
Proof.
  intros Hp Hlead Hkey Hws1 Hws2 Hv Htrail.
  apply (pqParseDSN_from rt dsn n 2 o _ _ Hp).
  cbn [pqLoop]. rewrite pqTurnOf_plain; try done.
  - rewrite pqTurnOf_blank; [done|].
    destruct trail as [|x trail]; [done|].
    cbn [forallb] in Htrail. by apply andb_prop in Htrail as [_ ?].
  - destruct trail as [|x trail]; [done|].
    cbn [forallb] in Htrail. by apply andb_prop in Htrail as [? _].
Qed.

Lemma pqParseDSN_skips_to_the_value_witness :
  pqParseDSN ascii_rt "user= password=secret"
  = ({["user" := "password=secret"]}, None).
Proof.
  rewrite (pqParseDSN_skips_to_the_value ascii_rt "user= password=secret" 0 ∅
             [] [117; 115; 101; 114] [] [32]
             [112; 97; 115; 115; 119; 111; 114; 100; 61; 115; 101; 99; 114; 101; 116]
             []).
  - vm_compute. exact eq_refl.
  - vm_compute. exact eq_refl.
  - reflexivity.
  - vm_compute. exact eq_refl.
  - reflexivity.
  - vm_compute. exact eq_refl.
  - vm_compute. exact eq_refl.
  - reflexivity.
Defined.

(** X21. A key whose equals sign is followed by nothing but white space,
    up to the end of the text, is stored with the empty value, and the
    pairs read before it are kept. *)
Theorem pqParseDSN_last_key_without_value (rt : Runtime) (dsn : string)
    (n : nat) (o : gmap string string) (lead key ws1 ws2 : list rune) :
  pqPairs rt n ∅ (runes_of_string rt dsn)
  = Some (o, lead ++ key ++ ws1 ++ rune_eq :: ws2) →
  forallb IsSpace lead = true →
  pq_key key = true →
  forallb IsSpace ws1 = true →
  forallb IsSpace ws2 = true →
  pqParseDSN rt dsn = (<[string_of_runes rt key := EmptyString]> o, None).
Proof.
  intros Hp Hlead Hkey Hws1 Hws2.
  apply (pqParseDSN_from rt dsn n 1 o _ _ Hp).
  cbn [pqLoop].
  pose proof (pqTurnOf_to_value rt lead key ws1 ws2 [] Hlead Hkey Hws1 Hws2) as Ht.
  rewrite app_nil_r in Ht. rewrite Ht. reflexivity.
Qed.

Lemma pqParseDSN_last_key_without_value_witness :
  pqParseDSN ascii_rt "host=db1 user = "
  = ({["host" := "db1"; "user" := EmptyString]}, None).
Proof.
  rewrite (pqParseDSN_last_key_without_value ascii_rt "host=db1 user = " 1
             {["host" := "db1"]} [] [117; 115; 101; 114] [32] [32]).
  - vm_compute. exact eq_refl.
  - vm_compute. exact eq_refl.
  - reflexivity.
  - vm_compute. exact eq_refl.
  - vm_compute. exact eq_refl.
  - vm_compute. exact eq_refl.
Defined.

(** X22. A value that opens with a quote and has no quote after it is an
    error, whatever else follows, backslashes included: the tokenizer
    returns the empty mapping and the error of the unterminated literal. *)
Theorem pqParseDSN_unterminated_quote (rt : Runtime) (dsn : string)
    (n : nat) (o : gmap string string) (lead key ws1 ws2 rest : list rune) :
  pqPairs rt n ∅ (runes_of_string rt dsn)
  = Some (o, lead ++ key ++ ws1 ++ rune_eq :: ws2 ++ rune_quote :: rest) →
  forallb IsSpace lead = true →
  pq_key key = true →
  forallb IsSpace ws1 = true →
  forallb IsSpace ws2 = true →
  forallb (λ r, negb (r =? rune_quote)) rest = true →
  pqParseDSN rt dsn = (∅, Some unterminated_quote).
Proof.
  intros Hp Hlead Hkey Hws1 Hws2 Hrest.
  apply (pqParseDSN_from rt dsn n 1 o _ _ Hp).
  cbn [pqLoop]. rewrite pqTurnOf_to_value by done.
  rewrite SkipSpaces_stop by (vm_compute; reflexivity).
  rewrite Z.eqb_refl. cbn [negb].
  by rewrite (scanQuoted_open (length rest) rest [] (Nat.le_refl _) Hrest).
Qed.

Lemma pqParseDSN_unterminated_quote_witness :
  pqParseDSN ascii_rt ("host=db1 user='ann" +:+ String "092" EmptyString) = (∅, Some unterminated_quote).
Proof.
  apply (pqParseDSN_unterminated_quote ascii_rt ("host=db1 user='ann" +:+ String "092" EmptyString) 1
           {["host" := "db1"]} [] [117; 115; 101; 114] [] [] [97; 110; 110; 92]).
  - vm_compute. exact eq_refl.
  - vm_compute. exact eq_refl.
  - vm_compute. exact eq_refl.
  - reflexivity.
  - reflexivity.
  - vm_compute. exact eq_refl.
Defined.

(** X23. An unquoted value that ends the text with a backslash is an
    error: the tokenizer returns the empty mapping and the error of the
    missing character. *)
Theorem pqParseDSN_dangling_backslash (rt : Runtime) (dsn : string)
    (n : nat) (o : gmap string string) (lead key ws1 ws2 v : list rune) :
  pqPairs rt n ∅ (runes_of_string rt dsn)
  = Some (o, lead ++ key ++ ws1 ++ rune_eq :: ws2 ++ v ++ [rune_backslash]) →
  forallb IsSpace lead = true →
  pq_key key = true →
  forallb IsSpace ws1 = true →
  forallb IsSpace ws2 = true →
  forallb plain_rune v = true →
  head v ≠ Some rune_quote →
  pqParseDSN rt dsn = (∅, Some missing_after_backslash).
Proof.
  intros Hp Hlead Hkey Hws1 Hws2 Hv Hq.
  apply (pqParseDSN_from rt dsn n 1 o _ _ Hp).
  cbn [pqLoop]. rewrite pqTurnOf_to_value by done.
  pose proof (scanValue_dangling v [] Hv) as Hd.
  destruct (v ++ [rune_backslash]) as [|r s] eqn:Hvs; [by destruct v|].
  assert (Hrs : IsSpace r = false ∧ (r =? rune_quote) = false).
  { destruct v as [|x v'].
    - injection Hvs as <- _. split; vm_compute; reflexivity.
    - injection Hvs as <- _. cbn [forallb] in Hv.
      apply andb_prop in Hv as [Hx _]. unfold plain_rune in Hx.
      apply andb_prop in Hx as [Hs _]. apply negb_true_iff in Hs.
      split; [done|]. apply Z.eqb_neq. intros ->. by apply Hq. }
  destruct Hrs as [Hs Hnq].
  rewrite SkipSpaces_stop by done. rewrite Hnq. cbn [negb]. by rewrite Hd.
Qed.

Lemma pqParseDSN_dangling_backslash_witness :
  pqParseDSN ascii_rt ("host=db1 user=ann" +:+ String "092" EmptyString) = (∅, Some missing_after_backslash).
Proof.
  apply (pqParseDSN_dangling_backslash ascii_rt ("host=db1 user=ann" +:+ String "092" EmptyString) 1
           {["host" := "db1"]} [] [117; 115; 101; 114] [] [] [97; 110; 110]).
  - vm_compute. exact eq_refl.
  - vm_compute. exact eq_refl.
  - vm_compute. exact eq_refl.
  - reflexivity.
  - reflexivity.
  - vm_compute. exact eq_refl.
  - discriminate.
Defined.

(** X24. Pairs written as key=value with one space between them, the
    keys without white space and equals sign, the values not empty,
    without white space and backslash and not opening with a quote, are
    read back in full: the mapping holds each key with its value, a later
    pair over an earlier one with the same key, and there is no error. *)
Theorem pqParseDSN_reads_back_plain_pairs (rt : Runtime) (dsn : string)
    (ps : list (list rune * list rune)) :
  runes_of_string rt dsn = pq_render ps →
  Forall (λ kv, pq_key kv.1 = true ∧ plain_value kv.2 = true) ps →
  pqParseDSN rt dsn = (pq_store rt ∅ ps, None).
Proof.
  intros Hr Hps.
  apply (pqParseDSN_from rt dsn 0 (S (length ps)) ∅ (runes_of_string rt dsn));
    [reflexivity|].
  rewrite Hr. by apply pqLoop_render.
Qed.

Lemma pqParseDSN_reads_back_plain_pairs_witness :
  pqParseDSN ascii_rt "user=ann host=db1 user=bob"
  = ({["host" := "db1"; "user" := "bob"]}, None).
Proof.
  rewrite (pqParseDSN_reads_back_plain_pairs ascii_rt "user=ann host=db1 user=bob"
             [([117; 115; 101; 114], [97; 110; 110]);
              ([104; 111; 115; 116], [100; 98; 49]);
              ([117; 115; 101; 114], [98; 111; 98])]).
  - vm_compute. exact eq_refl.
  - vm_compute. exact eq_refl.
  - repeat (apply Forall_cons; split; [split; vm_compute; exact eq_refl|]).
    apply Forall_nil_2.
Defined.

(** ** The instrumentation, further *)

Section anchored_class.

Variable p : ascii → bool.

Lemma run_anchored {R : Type} (a : regexp.regex) (pos : nat) (s : string)
    (cs : regexp.caps) (k : nat → string → regexp.caps → option R) :
  regexp.run (regexp.Cat regexp.BeginText a) pos s cs k
  = if (pos =? 0)%nat then regexp.run a pos s cs k else None.
Proof. reflexivity. Qed.

Lemma find_from_anchored_start (s : string) :
  regexp.find_from
    (regexp.Seq [regexp.BeginText; regexp.Star true (regexp.Byte p)]) 0 s
  = Some (0%nat, span p s, []).
Proof.
  destruct s as [|c s]; cbn [regexp.find_from regexp.Seq];
    rewrite run_anchored, run_Star, star_loop_class by (eauto || lia);
    reflexivity.
Qed.

Lemma find_from_anchored_later (s : string) :
  ∀ pos : nat,
    (0 < pos)%nat →
    regexp.find_from
      (regexp.Seq [regexp.BeginText; regexp.Star true (regexp.Byte p)]) pos s
    = None.
Proof.
  induction s as [|c s IH]; intros pos Hpos;
    cbn [regexp.find_from regexp.Seq]; rewrite run_anchored;
    destruct pos as [|pos']; try lia; cbn [Nat.eqb]; [done|].
  apply IH. lia.
Qed.

(** An anchored repetition of a byte class is replaced once, at the
    front: what is left is the text after its leading bytes of the class. *)
Lemma ReplaceAllString_anchored (s : string) :
  regexp.ReplaceAllString
    (regexp.Seq [regexp.BeginText; regexp.Star true (regexp.Byte p)])
    s EmptyString
  = strings.from (span p s) s.
Proof.
  unfold regexp.ReplaceAllString.
  replace (String.length s + 2)%nat with (S (S (String.length s))) by lia.
  cbn [regexp.replaceAll]. rewrite find_from_anchored_start.
  rewrite !Nat.sub_0_r, Nat.add_0_l.
  set (width := match s with EmptyString => 0%nat | _ => 1%nat end).
  set (searchPos := if (span p s <? width)%nat then width
                    else if (span p s <? 1)%nat then 1%nat else span p s).
  assert (Hpos : (0 < searchPos)%nat).
  { subst searchPos width. destruct s as [|c s].
    - cbn [span]. simpl. lia.
    - destruct (Nat.ltb_spec (span p (String c s)) 1); lia. }
  rewrite (find_from_anchored_later _ searchPos Hpos).
  assert (Hins : (if (0 <? span p s)%nat || true then EmptyString else EmptyString)
                 = EmptyString) by (by destruct (_ || _)).
  cbn [Nat.eqb]. rewrite Hins.
  change (strings.upto 0 s) with EmptyString.
  by destruct (_ <=? _)%nat.
Qed.

Lemma from_span_head (s : string) :
  match strings.from (span p s) s with
  | String c _ => p c = false
  | EmptyString => True
  end.
Proof.
  induction s as [|c s IH]; [done|]. cbn [span].
  destruct (p c) eqn:Hc; [exact IH|]. exact Hc.
Qed.

Lemma occurs_remove (c : ascii) (s : string) :
  occurs c (remove p s) = true → p c = false.
Proof.
  induction s as [|a s IH]; cbn [remove occurs]; [done|].
  destruct (p a) eqn:Ha; [exact IH|]. cbn [occurs].
  destruct (Ascii.eqb_spec a c) as [->|]; [done|]. exact IH.
Qed.

Lemma remove_nothing (s : string) :
  (∀ c, occurs c s = true → p c = false) → remove p s = s.
Proof.
  induction s as [|a s IH]; intros H; cbn [remove]; [done|].
  rewrite (H a) by (cbn [occurs]; by rewrite Ascii.eqb_refl).
  f_equal. apply IH. intros c Hc. apply H. cbn [occurs]. rewrite Hc.
  by rewrite orb_true_r.
Qed.

End anchored_class.

Lemma occurs_past (c d : ascii) (s : string) :
  occurs c (past d s) = true → occurs c s = true.
Proof.
  induction s as [|a s IH]; cbn [past occurs]; [done|].
  destruct (Ascii.eqb a d); intros H.
  - rewrite H. by rewrite orb_true_r.
  - rewrite (IH H). by rewrite orb_true_r.
Qed.

(** X25. A table name from [extractTable] holds none of the bytes the
    cleaner deletes, so cleaning it again changes nothing, by the pattern
    of the source as well as by the plain deletion of those bytes. *)
Theorem extractTable_is_clean (s : string) :
  remove extractTable_class (extractTable s) = extractTable s
  ∧ regexp.ReplaceAllString extractTableRegex (extractTable s) EmptyString
    = extractTable s.
Proof.
  assert (H : remove extractTable_class (extractTable s) = extractTable s).
  { apply remove_nothing. intros c. rewrite extractTable_eq. cbv zeta.
    destruct (_ && _).
    - intros Hc%occurs_past. by apply occurs_remove in Hc.
    - apply occurs_remove. }
  split; [exact H|].
  unfold extractTableRegex. by rewrite ReplaceAllString_class.
Qed.

Lemma parseQueryFn_query (cfg : Config) (segment : DatastoreSegment)
    (query : string) :
  ParameterizedQuery (parseQueryFn cfg segment query)
  = regexp.ReplaceAllString sqlPrefixRegex (without_comments query) EmptyString
  ∧ seg_DatabaseName (parseQueryFn cfg segment query) = DatabaseName cfg
  ∧ Host (parseQueryFn cfg segment query) = get (DSNData cfg) "host"
  ∧ PortPathOrID (parseQueryFn cfg segment query) = PortPathOrID segment.
Proof.
  unfold parseQueryFn, without_comments.
  destruct (sqlOperations !! _) as [[rg|]|]; [|done|done].
  by destruct (regexp.FindStringSubmatch rg _) as [|? [|? ?]].
Qed.

(** X26. The query the callback stores has lost its comments and then
    the white space and semicolons at its front, all of them: it never
    starts with one.  Name and host come from the configuration, and the
    port is left as it was. *)
Theorem parseQueryFn_strips_the_prefix (cfg : Config) (segment : DatastoreSegment)
    (query : string) :
  ParameterizedQuery (parseQueryFn cfg segment query)
  = strings.from (span sql_prefix (without_comments query)) (without_comments query)
  ∧ match ParameterizedQuery (parseQueryFn cfg segment query) with
    | String c _ => sql_prefix c = false
    | EmptyString => True
    end
  ∧ seg_DatabaseName (parseQueryFn cfg segment query) = DatabaseName cfg
  ∧ Host (parseQueryFn cfg segment query) = get (DSNData cfg) "host"
  ∧ PortPathOrID (parseQueryFn cfg segment query) = PortPathOrID segment.
Proof.
  destruct (parseQueryFn_query cfg segment query) as (Hq & Hn & Hh & Hp).
  assert (Hq' : ParameterizedQuery (parseQueryFn cfg segment query)
                = strings.from (span sql_prefix (without_comments query))
                    (without_comments query)).
  { rewrite Hq. unfold sqlPrefixRegex. apply (ReplaceAllString_anchored sql_prefix). }
  split; [exact Hq'|]. split; [|done].
  rewrite Hq'. apply from_span_head.
Qed.

(** X27. The operation the callback stores is the first word of the
    cleaned query in lower case when that word is a verb of the operation
    table, and what it was otherwise; and a verb that the table gives no
    pattern leaves the collection as it was. *)
Theorem parseQueryFn_operation (cfg : Config) (segment : DatastoreSegment)
    (query : string) :
  Operation (parseQueryFn cfg segment query)
  = (if bool_decide (first_word query ∈ operations) then first_word query
     else Operation segment)
  ∧ (sqlOperations !! first_word query = Some None →
     Collection (parseQueryFn cfg segment query) = Collection segment).
Proof.
  pose proof (sqlOperations_keys (first_word query)) as Hk.
  unfold parseQueryFn. fold (first_word query).
  change (strings.ToLower
            (regexp.FindString firstWordRegex
               (regexp.ReplaceAllString sqlPrefixRegex
                  (regexp.ReplaceAllString lineCommentRegex
                     (regexp.ReplaceAllString cCommentRegex query EmptyString)
                     EmptyString) EmptyString)))
    with (first_word query).
  destruct (sqlOperations !! first_word query) as [rg|] eqn:Hop.
  - assert (Hin : first_word query ∈ operations).
    { destruct (decide (first_word query ∈ operations)) as [?|Hn]; [done|].
      apply Hk in Hn. congruence. }
    rewrite (bool_decide_eq_true_2 _ Hin).
    destruct rg as [rg|].
    + split; [|congruence].
      by destruct (regexp.FindStringSubmatch rg _) as [|? [|? ?]].
    + by split.
  - rewrite bool_decide_eq_false_2 by (by apply Hk). by split.
Qed.

Lemma parseQueryFn_operation_witness :
  let segment := {| seg_DatabaseName := EmptyString; Host := EmptyString;
                    PortPathOrID := EmptyString;
                    ParameterizedQuery := EmptyString;
                    Operation := "earlier"; Collection := "orders" |} in
  let query := " ; /* nightly */ DROP TABLE orders_old" in
  sqlOperations !! first_word query = Some None
  ∧ Operation (parseQueryFn mysql_test_config segment query) = "drop"
  ∧ Collection (parseQueryFn mysql_test_config segment query) = "orders".
Proof.
  intros segment query.
  assert (H : sqlOperations !! first_word query = Some None)
    by (vm_compute; exact eq_refl).
  split; [exact H|].
  destruct (parseQueryFn_operation mysql_test_config segment query) as [Ho Hc].
  split; [rewrite Ho; vm_compute; exact eq_refl|exact (Hc H)].
Defined.

(** ** Prepared statements, further *)

(** X28. [LastErr] follows the errors the methods return: after [Close],
    [Err], [ExecContext], [QueryContext] and [Rollback] it is the error
    the method just returned, and when that is nil it is what it was
    before, so no method ever clears it; [Commit], which hides the error of
    its commit, [QueryRowContext] and [Bind] never change it.  All of
    this whatever the driver answers and whatever has been called before. *)
Theorem LastErr_follows_the_returned_error (d : Driver) (st : Statement)
    (h : list call) (c : handle) (args : list any) (key : string) (value : any) :
  lastErr (Close d st h).1.1 = tracked st (Close d st h).1.2
  ∧ lastErr (Err d st h).1.1 = tracked st (Err d st h).1.2
  ∧ lastErr (ExecContext d c args st h).1.1
    = tracked st (ExecContext d c args st h).1.2.2
  ∧ lastErr (QueryContext d c args st h).1.1
    = tracked st (QueryContext d c args st h).1.2.2
  ∧ lastErr (Rollback d st h).1.1 = tracked st (Rollback d st h).1.2
  ∧ lastErr (Commit d st h).1.1 = lastErr st
  ∧ lastErr (QueryRowContext d c args st h).1.1 = lastErr st
  ∧ lastErr (Bind key value st) = lastErr st.
Proof.
  repeat split.
  - unfold Close, perform, mbind, M_bind, mret, M_ret.
    destruct st as [b cx dbh le nr res [r|] q s t]; simpl.
    + destruct (rows_Close d h r) as [e1|]; simpl;
        destruct (tx_Rollback d (h ++ [RowsClose r]) t) as [e2|]; simpl;
        destruct (stmt_Close d ((h ++ [RowsClose r]) ++ [TxRollback t]) s) as [e3|];
        simpl; destruct nr; reflexivity.
    + destruct (tx_Rollback d h t) as [e2|]; simpl;
        destruct (stmt_Close d (h ++ [TxRollback t]) s) as [e3|];
        simpl; destruct nr; reflexivity.
  - unfold Err, perform, mbind, M_bind, mret, M_ret.
    destruct (rows st) as [r|]; [|reflexivity].
    by destruct (rows_Err d h r).
  - unfold ExecContext, perform, mbind, M_bind, mret, M_ret.
    by destruct (stmt_ExecContext d h (stmt st) c (gather st args)) as [res [e|]].
  - unfold QueryContext, perform, mbind, M_bind, mret, M_ret.
    by destruct (stmt_QueryContext d h (stmt st) c (gather st args)) as [res [e|]].
  - unfold Rollback, perform, mbind, M_bind, mret, M_ret.
    by destruct (tx_Rollback d h (txn st)).
Qed.

(** ** PostgreSQL: what the generator writes, the parser reads *)

Lemma pqGenerateDSN_frame (rt : Runtime) (cfg : Config) :
  pqGenerateDSN rt cfg = set_DSNString (DSNString (pqGenerateDSN rt cfg)) cfg.
Proof.
  unfold pqGenerateDSN. cbn [Params set_DSNString DSNString].
  destruct (0 <? _); [|reflexivity].
  rewrite (foldl_only_DSNString (λ c kv, DSNString c +:+ " " +:+ kv.1 +:+ "=" +:+ kv.2)).
  reflexivity.
Qed.

Lemma codes_append (a b : string) : codes (a +:+ b) = codes a ++ codes b.
Proof.
  induction a as [|c a IH]; [reflexivity|].
  change (String c a +:+ b) with (String c (a +:+ b)).
  change (codes (String c (a +:+ b)))
    with (Z.of_nat (nat_of_ascii c) :: codes (a +:+ b)).
  rewrite IH. reflexivity.
Qed.

Lemma is_ascii_append (a b : string) :
  is_ascii (a +:+ b) = is_ascii a && is_ascii b.
Proof.
  induction a as [|c a IH]; [reflexivity|].
  change (String c a +:+ b) with (String c (a +:+ b)).
  change (is_ascii (String c (a +:+ b)))
    with ((nat_of_ascii c <? 128)%nat && is_ascii (a +:+ b)).
  change (is_ascii (String c a)) with ((nat_of_ascii c <? 128)%nat && is_ascii a).
  rewrite IH. by rewrite andb_assoc.
Qed.

Lemma string_of_codes (s : string) : string_of_runes ascii_rt (codes s) = s.
Proof.
  induction s as [|c s IH]; [reflexivity|].
  change (string_of_runes ascii_rt (codes (String c s)))
    with (String (ascii_of_nat (Z.to_nat (Z.of_nat (nat_of_ascii c))))
            (string_of_runes ascii_rt (codes s))).
  by rewrite IH, Nat2Z.id, ascii_nat_embedding.
Qed.

(** The byte-wise runtime is Go's on ASCII text. *)
Lemma ascii_rt_converts : converts_ascii ascii_rt.
Proof. intros s _. split; [reflexivity|apply string_of_codes]. Qed.

Lemma pq_render_flat (p : list rune * list rune) (ps : list (list rune * list rune)) :
  pq_render (p :: ps)
  = p.1 ++ rune_eq :: p.2 ++ flat_map (λ kv, 32 :: kv.1 ++ rune_eq :: kv.2) ps.
Proof.
  revert p. induction ps as [|q ps IH]; intros [k v]; [reflexivity|].
  change (pq_render ((k, v) :: q :: ps))
    with (k ++ rune_eq :: v ++ 32 :: pq_render (q :: ps)).
  rewrite IH. cbn [fst snd flat_map app]. by rewrite <- ?app_assoc.
Qed.

Lemma codes_concat (l : list (string * string)) :
  codes (concat_strings ((λ kv, " " +:+ kv.1 +:+ "=" +:+ kv.2) <$> l))
  = flat_map (λ kv, 32 :: kv.1 ++ rune_eq :: kv.2)
      ((λ kv, (codes kv.1, codes kv.2)) <$> l).
Proof.
  induction l as [|[k v] l IH]; [reflexivity|].
  cbn [fmap list_fmap concat_strings flat_map fst snd].
  rewrite !codes_append, IH. cbn [app]. rewrite <- ?app_assoc. reflexivity.
Qed.

Lemma codes_render (p : string * string) (l : list (string * string)) :
  codes ((p.1 +:+ "=" +:+ p.2)
         +:+ concat_strings ((λ kv, " " +:+ kv.1 +:+ "=" +:+ kv.2) <$> l))
  = pq_render ((λ kv, (codes kv.1, codes kv.2)) <$> (p :: l)).
Proof.
  cbn [fmap list_fmap]. rewrite pq_render_flat. cbn [fst snd].
  rewrite !codes_append, codes_concat. rewrite <- ?app_assoc. reflexivity.
Qed.

Lemma is_ascii_concat (l : list (string * string)) :
  Forall (λ kv, is_ascii kv.1 = true ∧ is_ascii kv.2 = true) l →
  is_ascii (concat_strings ((λ kv, " " +:+ kv.1 +:+ "=" +:+ kv.2) <$> l)) = true.
Proof.
  induction 1 as [|[k v] l [Hk Hv] _ IH]; [reflexivity|].
  cbn [fmap list_fmap concat_strings fst snd] in *.
  rewrite !is_ascii_append, Hk, Hv, IH. reflexivity.
Qed.

Lemma pq_store_codes (rt : Runtime) (o : gmap string string)
    (l : list (string * string)) :
  converts_ascii rt →
  Forall (λ kv, is_ascii kv.1 = true ∧ is_ascii kv.2 = true) l →
  pq_store rt o ((λ kv, (codes kv.1, codes kv.2)) <$> l)
  = foldl (λ o kv, <[kv.1 := kv.2]> o) o l.
Proof.
  intros Hrt Hl. unfold pq_store. revert o.
  induction Hl as [|[k v] l [Hk Hv] _ IH]; intros o; [reflexivity|].
  cbn [fmap list_fmap foldl fst snd] in *.
  rewrite (proj2 (Hrt k Hk)), (proj2 (Hrt v Hv)). apply IH.
Qed.

Lemma foldl_insert_union (l : list (string * string)) :
  NoDup l.*1 →
  ∀ o : gmap string string,
    foldl (λ o kv, <[kv.1 := kv.2]> o) o l = list_to_map l ∪ o.
Proof.
  induction l as [|[k v] l IH]; intros Hnd o.
  - cbn [foldl list_to_map foldr]. by rewrite (left_id_L ∅ (∪)).
  - cbn [fmap list_fmap fst] in Hnd. apply NoDup_cons in Hnd as [Hk Hnd].
    cbn [foldl fst snd]. rewrite (IH Hnd).
    change (list_to_map ((k, v) :: l) : gmap string string)
      with (<[k := v]> (list_to_map l : gmap string string)).
    rewrite <- insert_union_l, <- insert_union_r; [done|].
    by apply not_elem_of_list_to_map_1.
Qed.

(** X29. Round trip of the PostgreSQL adapter on ASCII text, for any
    runtime that visits each entry of a map once, in whatever order, and
    converts ASCII text as Go does.  When the four values user, pass,
    name and host of the data are ASCII and can stand without quotes (not
    empty, no white space, no backslash, no quote at the start), and
    every parameter has such a value, an ASCII key without white space
    and equals sign, and none of the keys host, dbname, password and
    user, then parsing the DSN that [DSN] generates gives no error, the
    same data and the same parameters. *)
Theorem postgres_round_trip (rt : Runtime) (h : Hooks) (cfg : Config) :
  range_visits_each_entry_once rt →
  converts_ascii rt →
  DriverType cfg = "postgres" →
  DSNString cfg = EmptyString →
  DSNFn h = None →
  DSNParser h = None →
  (∀ k, k ∈ ["user"; "pass"; "name"; "host"] →
        is_ascii (get (DSNData cfg) k) = true
        ∧ plain_value (codes (get (DSNData cfg) k)) = true) →
  (∀ k v, default ∅ (Params cfg) !! k = Some v →
          (k ∉ pq_reserved)
          ∧ is_ascii k = true ∧ is_ascii v = true
          ∧ pq_key (codes k) = true
          ∧ plain_value (codes v) = true) →
  (ParseDSN rt h (DSN rt h cfg).1).2 = None
  ∧ (∀ k, get (DSNData (ParseDSN rt h (DSN rt h cfg).1).1) k
          = get (DSNData cfg) k)
  ∧ default ∅ (Params (ParseDSN rt h (DSN rt h cfg).1).1)
    = default ∅ (Params cfg).
Proof.
  intros Hr Hrt Hty Hs Hfn Hp Hdata Hparams.
  set (U := get (DSNData cfg) "user"). set (P := get (DSNData cfg) "pass").
  set (N := get (DSNData cfg) "name"). set (H := get (DSNData cfg) "host").
  set (params := default ∅ (Params cfg)).
  set (c0 := set_DSNData (Some (default ∅ (DSNData cfg))) cfg).
  set (fixed := [("user", U); ("password", P); ("dbname", N); ("host", H)]).
  set (pairs := fixed ++ map_range rt params).
  destruct (range_list_to_map rt params Hr) as [Hndp Hlp].
  assert (Hin : ∀ k v, (k, v) ∈ map_range rt params → params !! k = Some v).
  { intros k v Hkv. rewrite <- Hlp. by apply elem_of_list_to_map_1. }
  (* what [DSN] leaves *)
  assert (Hc1 : (DSN rt h cfg).1 = pqGenerateDSN rt c0).
  { rewrite DSN_builtin by done. by rewrite Hty. }
  rewrite Hc1. set (c1 := pqGenerateDSN rt c0).
  assert (Hframe : c1 = set_DSNString (DSNString c1) c0)
    by apply pqGenerateDSN_frame.
  assert (Hstr : DSNString c1
                 = (("user" +:+ "=" +:+ U)
                    +:+ concat_strings ((λ kv, " " +:+ kv.1 +:+ "=" +:+ kv.2)
                                          <$> tl pairs))).
  { subst c1. rewrite (pqGenerateDSN_string rt c0 Hr).
    subst pairs fixed. cbn [app tl fmap list_fmap concat_strings fst snd].
    change (map_range rt (default ∅ (Params c0))) with (map_range rt params).
    change (get (DSNData c0) "user") with U.
    change (get (DSNData c0) "pass") with P.
    change (get (DSNData c0) "name") with N.
    change (get (DSNData c0) "host") with H.
    rewrite !append_assoc. reflexivity. }
  (* the pairs: ASCII, plain, each key once *)
  assert (Hpairs : Forall (λ kv, (is_ascii kv.1 = true ∧ is_ascii kv.2 = true)
                                 ∧ pq_key (codes kv.1) = true
                                 ∧ plain_value (codes kv.2) = true) pairs).
  { apply Forall_forall. intros [k v] Hkv. cbn [fst snd].
    subst pairs fixed. apply elem_of_app in Hkv as [Hkv|Hkv].
    - rewrite !elem_of_cons, elem_of_nil in Hkv.
      destruct Hkv as [Hkv|[Hkv|[Hkv|[Hkv|[]]]]]; injection Hkv as -> ->.
      + destruct (Hdata "user") as [? ?]; [rewrite !elem_of_cons; tauto|].
        by repeat split.
      + destruct (Hdata "pass") as [? ?]; [rewrite !elem_of_cons; tauto|].
        by repeat split.
      + destruct (Hdata "name") as [? ?]; [rewrite !elem_of_cons; tauto|].
        by repeat split.
      + destruct (Hdata "host") as [? ?]; [rewrite !elem_of_cons; tauto|].
        by repeat split.
    - destruct (Hparams k v (Hin k v Hkv)) as (_ & ? & ? & ? & ?). by repeat split. }
  assert (Hascii : Forall (λ kv, is_ascii kv.1 = true ∧ is_ascii kv.2 = true) pairs).
  { eapply Forall_impl; [exact Hpairs|]. by intros kv [? _]. }
  assert (Hnd : NoDup pairs.*1).
  { subst pairs fixed. rewrite fmap_app. apply NoDup_app. split; [|split].
    - cbn [fmap list_fmap fst]. apply (bool_decide_unpack _). vm_compute. exact I.
    - intros k Hk [[k' v] [-> Hkv]]%list_elem_of_fmap.
      cbn [fst] in Hk. destruct (Hparams k' v (Hin k' v Hkv)) as [Hres _].
      apply Hres. cbn [fmap list_fmap fst] in Hk. unfold pq_reserved.
      rewrite !elem_of_cons, elem_of_nil in Hk |- *. tauto.
    - exact Hndp. }
  (* what the tokenizer reads *)
  assert (Hparsed : pqParseDSN rt (DSNString c1) = (list_to_map pairs, None)).
  { set (rp := λ kv : string * string, (codes kv.1, codes kv.2)).
    assert (Hall : is_ascii (DSNString c1) = true).
    { rewrite Hstr, !is_ascii_append.
      rewrite is_ascii_concat
        by (subst pairs fixed; cbn [app tl];
            by apply Forall_cons in Hascii as [_ ?]).
      apply Forall_cons in Hascii as [[_ HU] _]. cbn [snd] in HU.
      rewrite HU. reflexivity. }
    assert (Hrunes : runes_of_string rt (DSNString c1) = pq_render (rp <$> pairs)).
    { rewrite (proj1 (Hrt _ Hall)), Hstr. exact (codes_render ("user", U) (tl pairs)). }
    assert (Hok : Forall (λ kv, pq_key kv.1 = true ∧ plain_value kv.2 = true)
                    (rp <$> pairs)).
    { apply Forall_fmap. eapply Forall_impl; [exact Hpairs|].
      intros kv (_ & ? & ?). by split. }
    apply (pqParseDSN_from rt (DSNString c1) 0 (S (length (rp <$> pairs))) ∅
             (runes_of_string rt (DSNString c1))); [reflexivity|].
    rewrite Hrunes, (pqLoop_render rt (rp <$> pairs) Hok).
    unfold rp. rewrite (pq_store_codes rt ∅ pairs Hrt Hascii).
    rewrite (foldl_insert_union pairs Hnd). by rewrite (right_id_L ∅ (∪)). }
  assert (Hd1 : DSNData c1 = Some (default ∅ (DSNData cfg)))
    by (rewrite Hframe; reflexivity).
  assert (Hq1 : Params c1 = Params cfg) by (rewrite Hframe; reflexivity).
  assert (Hne : DSNString c1 ≠ EmptyString).
  { rewrite Hstr. discriminate. }
  assert (Hty1 : DriverType c1 = "postgres") by (by rewrite Hframe).
  rewrite (ParseDSN_builtin rt h c1 Hp). cbv zeta.
  apply String.eqb_neq in Hne. rewrite String.eqb_sym in Hne. rewrite Hne, Hty1.
  cbn [String.eqb Ascii.eqb Bool.eqb].
  destruct (postgresParseDSN_sorted rt (with_maps c1) (list_to_map pairs)
              Hr Hparsed) as (He & Hd & Hq).
  change (default ∅ (DSNData (with_maps c1))) with (default ∅ (DSNData c1)) in Hd.
  change (default ∅ (Params (with_maps c1))) with (default ∅ (Params c1)) in Hq.
  assert (Hbase : ∀ k, (list_to_map pairs : gmap string string) !! k
                       = match (list_to_map fixed : gmap string string) !! k with
                         | Some v => Some v
                         | None => params !! k
                         end).
  { intros k. subst pairs. rewrite list_to_map_app, lookup_union, Hlp.
    by destruct (list_to_map fixed !! k), (params !! k). }
  assert (Hfixed : ∀ k, (list_to_map fixed : gmap string string) !! k
                        = if String.eqb k "user" then Some U
                          else if String.eqb k "password" then Some P
                          else if String.eqb k "dbname" then Some N
                          else if String.eqb k "host" then Some H
                          else None).
  { intros k. subst fixed. cbn [list_to_map foldr fst snd].
    destruct (String.eqb_spec k "user") as [->|?]; [by rewrite lookup_insert_eq|].
    rewrite lookup_insert_ne by done.
    destruct (String.eqb_spec k "password") as [->|?]; [by rewrite lookup_insert_eq|].
    rewrite lookup_insert_ne by done.
    destruct (String.eqb_spec k "dbname") as [->|?]; [by rewrite lookup_insert_eq|].
    rewrite lookup_insert_ne by done.
    destruct (String.eqb_spec k "host") as [->|?]; [by rewrite lookup_insert_eq|].
    by rewrite lookup_insert_ne. }
  split; [exact He|]. split.
  - intros k. rewrite Hd. unfold get at 1.
    change (default ∅ (Some ?m)) with m.
    assert (Hg : ∀ key, get (Some (list_to_map pairs)) key
                        = default EmptyString
                            (match (list_to_map fixed : gmap string string) !! key with
                             | Some v => Some v
                             | None => params !! key
                             end)).
    { intros key. unfold get. change (default ∅ (Some ?m)) with m.
      by rewrite Hbase. }
    rewrite !Hg, !Hfixed. cbn [String.eqb Ascii.eqb Bool.eqb default].
    rewrite Hd1. change (default ∅ (Some ?m)) with m.
    destruct (String.eqb_spec k "user") as [->|?]; [by rewrite lookup_insert_eq|].
    rewrite lookup_insert_ne by done.
    destruct (String.eqb_spec k "pass") as [->|?]; [by rewrite lookup_insert_eq|].
    rewrite lookup_insert_ne by done.
    destruct (String.eqb_spec k "name") as [->|?]; [by rewrite lookup_insert_eq|].
    rewrite lookup_insert_ne by done.
    destruct (String.eqb_spec k "host") as [->|?]; [by rewrite lookup_insert_eq|].
    by rewrite lookup_insert_ne.
  - apply map_eq. intros k. rewrite Hq.
    rewrite Hq1. fold params.
    destruct (bool_decide (k ∈ pq_reserved)) eqn:Hres; [done|].
    apply bool_decide_eq_false in Hres.
    rewrite Hbase, Hfixed.
    unfold pq_reserved in Hres. rewrite !elem_of_cons, elem_of_nil in Hres.
    destruct (String.eqb_spec k "user"); [tauto|].
    destruct (String.eqb_spec k "password"); [tauto|].
    destruct (String.eqb_spec k "dbname"); [tauto|].
    destruct (String.eqb_spec k "host"); [tauto|].
    by destruct (params !! k).
Qed.

Lemma postgres_round_trip_witness :
  let cfg := config_of "postgres" EmptyString
               (Some (list_to_map [("host", "db1"); ("user", "ann");
                                   ("pass", "s3cret"); ("name", "shop")]))
               (Some {["sslmode" := "disable"]}) in
  (DSN ascii_rt no_hooks cfg).2
  = "user=ann password=s3cret dbname=shop host=db1 sslmode=disable"
  ∧ (ParseDSN ascii_rt no_hooks (DSN ascii_rt no_hooks cfg).1).2 = None
  ∧ default ∅ (Params (ParseDSN ascii_rt no_hooks (DSN ascii_rt no_hooks cfg).1).1)
    = {["sslmode" := "disable"]}.
Proof.
  intros cfg. split; [vm_compute; exact eq_refl|].
  destruct (postgres_round_trip ascii_rt no_hooks cfg ascii_rt_range
              ascii_rt_converts eq_refl eq_refl eq_refl eq_refl)
    as (He & _ & Hq).
  - intros k Hk. rewrite !elem_of_cons, elem_of_nil in Hk.
    destruct Hk as [->|[->|[->|[->|[]]]]]; split; vm_compute; exact eq_refl.
  - intros k v Hkv. unfold cfg in Hkv. cbn [config_of Params] in Hkv.
    change (default ∅ (Some ?m)) with m in Hkv.
    apply lookup_singleton_Some in Hkv as [<- <-].
    split; [|repeat split; vm_compute; exact eq_refl].
    apply (bool_decide_unpack _). vm_compute. exact I.
  - split; [exact He|exact Hq].
Defined.
